(** * TDHF for periodic systems through an explicit supercell matrix

    A shallow embedding of [pyscf/pbc/tdscf/krhf_slow_supercell.py]:
    the three ERI block providers ([PhysERI], [PhysERI4], [PhysERI8]),
    the merged block retrieval [eri_mknj], the reshaper
    [vector_to_amplitudes], the driver [kernel] and the container
    [TDRHF].

    Conventions of the embedding.
    - A Python call that may raise returns a [result]: [Ok v] or
      [Raise e].
    - A numpy array that is only read is a value: a shape and its
      elements in row-major (C) order ([ndarray]).
    - A numpy array that is written in place lives in a store of buffers
      and is addressed through a strided view ([view]), so that aliasing
      between the views of one buffer is visible.
    - Floating-point numbers are idealised as exact reals; a result that
      numpy reports as [nan] or [inf] is the value [None]. *)

From Stdlib Require Import List ZArith QArith Lia Reals Lra String Ascii.
From stdpp Require Import base option list gmap.
Import ListNotations.
Open Scope nat_scope.

(** ** Python results *)

Inductive exn : Type :=
| NotImplementedError (msg : string)
| ValueError
| IndexError
| ExternalError (code : nat).

Inductive result (A : Type) : Type :=
| Ok (a : A)
| Raise (e : exn).
Arguments Ok {A} a.
Arguments Raise {A} e.

#[global] Instance result_ret : MRet result := fun A a => Ok a.
#[global] Instance result_bind : MBind result := fun A B f m =>
  match m with
  | Ok a => f a
  | Raise e => Raise e
  end.
#[global] Instance result_fmap : FMap result := fun A B f m =>
  match m with
  | Ok a => Ok (f a)
  | Raise e => Raise e
  end.

(** The call returns a value (it does not raise). *)
Definition returns {A} (m : result A) : Prop := exists a, m = Ok a.

(** [seq[i]] on a tuple or list, for a non-negative index. *)
Definition py_index {A} (l : list A) (i : nat) : result A :=
  match l !! i with
  | Some a => Ok a
  | None => Raise IndexError
  end.

(** [tuple(f(x) for x in l)] where [f] may raise: the first failure
    aborts the comprehension. *)
Fixpoint py_map {A B} (f : A -> result B) (l : list A) : result (list B) :=
  match l with
  | [] => Ok []
  | x :: l' => y ← f x; ys ← py_map f l'; Ok (y :: ys)
  end.

(** ** numpy arrays as values *)

Module NumPy.

Record ndarray (A : Type) : Type := mk_ndarray {
  shape : list nat;
  data : list A   (* row-major *)
}.
Arguments mk_ndarray {A} shape data.
Arguments shape {A} n.
Arguments data {A} n.

(** [numpy.prod(shape)]. *)
Definition nelems (sh : list nat) : nat := fold_right Nat.mul 1 sh.

(** Offset of a multi-index in row-major order. *)
Fixpoint ravel (sh ix : list nat) : nat :=
  match sh, ix with
  | _ :: sh', i :: ix' => i * nelems sh' + ravel sh' ix'
  | _, _ => 0
  end.

(** The multi-index of an offset. *)
Fixpoint unravel (sh : list nat) (n : nat) : list nat :=
  match sh with
  | [] => []
  | _ :: sh' => n / nelems sh' :: unravel sh' (n mod nelems sh')
  end.

Definition in_bounds (sh ix : list nat) : Prop := Forall2 lt ix sh.

Definition in_boundsb (sh ix : list nat) : bool :=
  (length ix =? length sh) && forallb (fun p => fst p <? snd p) (combine ix sh).

(** All multi-indices of a shape, in row-major order. *)
Definition indices (sh : list nat) : list (list nat) :=
  map (unravel sh) (seq 0 (nelems sh)).

Definition well_formed {A} (a : ndarray A) : Prop :=
  length (data a) = nelems (shape a).

Section Ops.
Context {A : Type} `{Inhabited A}.

(** The array of shape [sh] whose element at [ix] is [f ix]. *)
Definition tabulate (sh : list nat) (f : list nat -> A) : ndarray A :=
  mk_ndarray sh (map f (indices sh)).

(** [a[i0, i1, ...]] for an index within bounds. *)
Definition get (a : ndarray A) (ix : list nat) : A :=
  data a !!! ravel (shape a) ix.

(** [a[i0, i1, ...]] with the bounds check of numpy. *)
Definition getitem (a : ndarray A) (ix : list nat) : result A :=
  if in_boundsb (shape a) ix then Ok (get a ix) else Raise IndexError.

(** [numpy.zeros(shape)]: a negative dimension is refused. *)
Definition zeros (zero : A) (sh : list Z) : result (ndarray A) :=
  if forallb (fun d => 0 <=? d)%Z sh
  then let sh' := map Z.to_nat sh in
       Ok (mk_ndarray sh' (replicate (nelems sh') zero))
  else Raise ValueError.

(** [a.reshape(sh)] for non-negative dimensions: same elements in the
    same order, refused when the sizes differ. *)
Definition reshape (a : ndarray A) (sh : list nat) : result (ndarray A) :=
  if nelems sh =? length (data a)
  then Ok (mk_ndarray sh (data a))
  else Raise ValueError.

(** Exchange of the entries at positions [i] and [j] of a list. *)
Definition swap_at (i j : nat) (l : list nat) : list nat :=
  <[i := l !!! j]> (<[j := l !!! i]> l).

(** [a.swapaxes(i, j)]. *)
Definition swapaxes (a : ndarray A) (i j : nat) : result (ndarray A) :=
  if (i <? length (shape a)) && (j <? length (shape a))
  then Ok (tabulate (swap_at i j (shape a)) (fun ix => get a (swap_at i j ix)))
  else Raise ValueError.

(** A Python [slice(start, stop)] with non-negative bounds. *)
Record slice : Type := mk_slice { start : option nat; stop : option nat }.

(** [slice.indices(n)]: first index and length of the selection. *)
Definition slice_start (s : slice) (n : nat) : nat :=
  match start s with Some i => i `min` n | None => 0 end.
Definition slice_stop (s : slice) (n : nat) : nat :=
  match stop s with Some i => i `min` n | None => n end.
Definition slice_len (s : slice) (n : nat) : nat :=
  slice_stop s n - slice_start s n.

Definition full_slice : slice := mk_slice None None.

(** [a[s0, s1, ...]] for a tuple of slices; axes without a slice are
    taken whole, too many slices are an [IndexError]. *)
Definition getslice (a : ndarray A) (slc : list slice) : result (ndarray A) :=
  if length slc <=? length (shape a)
  then
    let slc' := slc ++ replicate (length (shape a) - length slc) full_slice in
    let sh' := zip_with slice_len slc' (shape a) in
    let st := zip_with slice_start slc' (shape a) in
    Ok (tabulate sh' (fun ix => get a (zip_with Nat.add st ix)))
  else Raise IndexError.

(** Column [j] of a matrix: [a[:, j]] as a list. *)
Definition column (a : ndarray A) (j : nat) : list A :=
  map (fun p => get a [p; j]) (seq 0 (shape a !!! 0)).

End Ops.

End NumPy.

Import NumPy.

(** ** The mean-field model and the external collaborators

    The integral backend ([model.with_df]), the conservation map
    ([pyscf.pbc.tools.get_kconserv]) and numpy's element type are not
    part of the module: they form the interface [Backend]. *)

Class Backend : Type := {
  (** element type of coefficient matrices and integral tensors *)
  scalar : Type;
  (** the element written by [numpy.zeros] *)
  szero : scalar;
  (** [x / n] for an integer [n]: the true division of numpy *)
  div_int : scalar -> nat -> scalar;
  kpt : Type;
  cell : Type;
  (** the density-fitting object [with_df] *)
  df : Type;
  (** [with_df.ao2mo(coeffs, kpts, compact=False)] *)
  df_ao2mo : df -> list (ndarray scalar) -> list kpt -> result (ndarray scalar);
  (** the entry [get_kconserv(cell, kpts)[k1, k2, k3]] *)
  kconserv_entry : cell -> list kpt -> nat -> nat -> nat -> nat;
  (** [numpy.iscomplexobj] on a list of arrays of one common shape
      (numpy makes one array of the list before it looks at the element
      type) *)
  iscomplexobj : list (ndarray scalar) -> bool
}.

#[global] Instance scalar_inhabited `{Backend} : Inhabited scalar := populate szero.

Section Model.
Context `{Backend}.

Record KRHF : Type := mk_KRHF {
  model_cell : cell;
  kpts : list kpt;
  mo_coeff : list (ndarray scalar);
  (** occupation numbers, 0 or 2 per orbital *)
  mo_occ : list (list nat);
  with_df : df
}.

(** Modelled from the spec: [get_kconserv] is declared in
    [pyscf.pbc.tools]; the conservation map is a total function on
    three k-point indices in [[0, N_k)], stored as an
    [N_k x N_k x N_k] array. *)
Definition get_kconserv (c : cell) (ks : list kpt) : ndarray nat :=
  let n := length ks in
  tabulate [n; n; n]
    (fun ix => kconserv_entry c ks (ix !!! 0) (ix !!! 1) (ix !!! 2)).

(** Modelled from the spec: [loop_kkk] is declared in
    [pyscf.pbc.lib.kpts_helper]; it produces all ordered triples
    over [range(N_k)^3]. *)
Definition loop_kkk (nkpts : nat) : list (list nat) :=
  k1 ← seq 0 nkpts; k2 ← seq 0 nkpts; k3 ← seq 0 nkpts; [[k1; k2; k3]].

(** [tuple(int(i.sum()) // 2 for i in model.mo_occ)]; on natural
    occupation numbers [int] changes nothing. *)
Definition k_nocc (model : KRHF) : list nat :=
  map (fun i => sum_list i / 2) (mo_occ model).

(** [tuple(i.shape[0] for i in model.mo_coeff)]. *)
Definition k_nmo (model : KRHF) : result (list nat) :=
  py_map (fun i => py_index (shape i) 0) (mo_coeff model).

(** ** The ERI block providers *)

Inductive provider_class : Type := PhysERI | PhysERI4 | PhysERI8.

(** An instance of one of the three classes. [__full_eri_k__] is set
    by [PhysERI.__init__] only; the other two classes never read it. *)
Record provider : Type := mk_provider {
  class_of : provider_class;
  model : KRHF;
  kconserv : ndarray nat;
  __full_eri_k__ : gmap (list nat) (ndarray scalar)
}.

(** The properties [nocc] and [nmo]. *)
Definition nocc (self : provider) : list nat := k_nocc (model self).
Definition nmo (self : provider) : result (list nat) := k_nmo (model self).

(** [self.ao2mo_k(coeff, k)]; of [self] only the model is read. *)
Definition ao2mo_k (m : KRHF) (coeff : list (ndarray scalar)) (k : list nat)
  : result (ndarray scalar) :=
  c0 ← py_index coeff 0; c2 ← py_index coeff 2;
  c1 ← py_index coeff 1; c3 ← py_index coeff 3;
  let coeff := [c0; c2; c1; c3] in
  k0 ← py_index k 0; k2 ← py_index k 2;
  k1 ← py_index k 1; k3 ← py_index k 3;
  let k := [k0; k2; k1; k3] in
  ks ← py_map (fun i => py_index (kpts m) i) k;
  r ← df_ao2mo (with_df m) coeff ks;
  sh ← py_map (fun i => py_index (shape i) 1) coeff;
  r ← reshape r sh;
  swapaxes r 1 2.

(** One pass of the loop of [PhysERI.__init__]. *)
Definition PhysERI_init_step (m : KRHF) (kc : ndarray nat)
    (cache : gmap (list nat) (ndarray scalar)) (k : list nat)
  : result (gmap (list nat) (ndarray scalar)) :=
  k4 ← getitem kc k;
  let k := k ++ [k4] in
  coeff ← py_map (fun j => py_index (mo_coeff m) j) k;
  t ← ao2mo_k m coeff k;
  Ok (<[k := t]> cache).

(** The loop of [PhysERI.__init__] over the triples [ks]. *)
Fixpoint PhysERI_init_loop (m : KRHF) (kc : ndarray nat)
    (cache : gmap (list nat) (ndarray scalar)) (ks : list (list nat))
  : result (gmap (list nat) (ndarray scalar)) :=
  match ks with
  | [] => Ok cache
  | k :: ks' =>
      cache' ← PhysERI_init_step m kc cache k;
      PhysERI_init_loop m kc cache' ks'
  end.

(** [PhysERI(model)]. *)
Definition PhysERI_init (m : KRHF) : result provider :=
  kc ← swapaxes (get_kconserv (model_cell m) (kpts m)) 1 2;
  cache ← PhysERI_init_loop m kc ∅ (loop_kkk (length (kpts m)));
  Ok (mk_provider PhysERI m kc cache).

(** [PhysERI4(model)]. *)
Definition PhysERI4_init (m : KRHF) : result provider :=
  kc ← swapaxes (get_kconserv (model_cell m) (kpts m)) 1 2;
  Ok (mk_provider PhysERI4 m kc ∅).

(** [PhysERI8(model)]: the constructor of [PhysERI4] on an instance of
    [PhysERI8]. *)
Definition PhysERI8_init (m : KRHF) : result provider :=
  kc ← swapaxes (get_kconserv (model_cell m) (kpts m)) 1 2;
  Ok (mk_provider PhysERI8 m kc ∅).

(** [i == 'o']. *)
Definition is_o (i : ascii) : bool := bool_decide (i = "o"%char).

(** The shape of the zero block of a quadruple that is not stored or
    not conserving. *)
Definition zero_block_shape (self : provider) (item : list ascii) (k : list nat)
  : result (list Z) :=
  py_map (fun p : ascii * nat =>
            let '(i, _k) := p in
            if is_o i then Z.of_nat <$> py_index (nocc self) _k
            else
              ns ← nmo self; n ← py_index ns _k;
              o ← py_index (nocc self) _k;
              Ok (Z.of_nat n - Z.of_nat o)%Z)
         (zip item k).

(** [PhysERI.__calc_block__]: the occupied/virtual slice of the stored
    tensor, or zeros when the quadruple is not stored. *)
Definition PhysERI__calc_block__ (self : provider) (item : list ascii) (k : list nat)
  : result (ndarray scalar) :=
  match __full_eri_k__ self !! k with
  | Some t =>
      slc ← py_map (fun p : ascii * nat =>
                      let '(i, _k) := p in
                      o ← py_index (nocc self) _k;
                      Ok (if is_o i then mk_slice None (Some o)
                          else mk_slice (Some o) None))
                   (zip item k);
      getslice t slc
  | None =>
      sh ← zero_block_shape self item k;
      zeros szero sh
  end.

(** [PhysERI4.__calc_block__]: the transform of the occupied/virtual
    columns of the coefficient matrices, or zeros when the quadruple is
    not conserving. (For [k] shorter than four, [self.kconserv[k[:3]]]
    or [k[3]] raises [IndexError].) *)
Definition PhysERI4__calc_block__ (self : provider) (item : list ascii) (k : list nat)
  : result (ndarray scalar) :=
  k4 ← getitem (kconserv self) (take 3 k);
  k3 ← py_index k 3;
  if k4 =? k3 then
    coeff ← py_map (fun p : ascii * nat =>
                      let '(i, _k) := p in
                      c ← py_index (mo_coeff (model self)) _k;
                      o ← py_index (nocc self) _k;
                      getslice c [full_slice;
                                  if is_o i then mk_slice None (Some o)
                                  else mk_slice (Some o) None])
                   (zip item k);
    ao2mo_k (model self) coeff k
  else
    sh ← zero_block_shape self item k;
    zeros szero sh.

(** Method resolution: [PhysERI8] inherits the method of [PhysERI4]. *)
Definition __calc_block__ (self : provider) (item : list ascii) (k : list nat)
  : result (ndarray scalar) :=
  match class_of self with
  | PhysERI => PhysERI__calc_block__ self item k
  | PhysERI4 | PhysERI8 => PhysERI4__calc_block__ self item k
  end.

End Model.

(** ** Symmetries declared by the providers *)

Module PhysERI4.
Definition symmetries : list (list nat * bool) := [
  ([0; 1; 2; 3], false);
  ([1; 0; 3; 2], false);
  ([2; 3; 0; 1], true);
  ([3; 2; 1; 0], true)
].
End PhysERI4.

Module PhysERI8.
Definition symmetries : list (list nat * bool) := [
  ([0; 1; 2; 3], false);
  ([1; 0; 3; 2], false);
  ([2; 3; 0; 1], false);
  ([3; 2; 1; 0], false);

  ([2; 1; 0; 3], false);
  ([3; 0; 1; 2], false);
  ([0; 3; 2; 1], false);
  ([1; 2; 3; 0], false)
].
End PhysERI8.

(** ** numpy.block *)

Module Block.
Section Block.
Context {A : Type} `{Inhabited A}.

(** [numpy.atleast_nd]: dimensions of length 1 are prepended. *)
Definition atleast_nd (n : nat) (a : ndarray A) : ndarray A :=
  mk_ndarray (replicate (n - length (shape a)) 1 ++ shape a) (data a).

(** Two shapes agree on every axis but [axis]. *)
Definition same_off_axis (axis : nat) (s1 s2 : list nat) : bool :=
  bool_decide (<[axis := 0]> s1 = <[axis := 0]> s2).

(** The element of the concatenation at [ix]: the arrays are scanned
    from the first, [ix] moving down by the extent of each array that is
    passed. *)
Fixpoint concat_get (arrays : list (ndarray A)) (axis : nat) (ix : list nat) : A :=
  match arrays with
  | [] => inhabitant
  | a :: rest =>
      let d := shape a !!! axis in
      if ix !!! axis <? d then get a ix
      else concat_get rest axis (<[axis := ix !!! axis - d]> ix)
  end.

(** [numpy.concatenate(arrays, axis)]: at least one array, all of the
    same shape off the axis. *)
Definition concatenate (arrays : list (ndarray A)) (axis : nat) : result (ndarray A) :=
  match arrays with
  | [] => Raise ValueError
  | a :: _ =>
      if (axis <? length (shape a))
         && forallb (fun b => same_off_axis axis (shape a) (shape b)) arrays
      then
        let d := sum_list (map (fun b => shape b !!! axis) arrays) in
        Ok (tabulate (<[axis := d]> (shape a)) (concat_get arrays axis))
      else Raise ValueError
  end.

(** [numpy.block(rows)] for a list of lists of arrays: no list may be
    empty; the arrays are brought to a common number of dimensions (at
    least two), joined along the last axis within a row and along the
    axis before it across rows. *)
Definition block (rows : list (list (ndarray A))) : result (ndarray A) :=
  if bool_decide (rows = []) || existsb (fun r => bool_decide (r = [])) rows
  then Raise ValueError
  else
    let nd := max_list (2 :: map (fun a => length (shape a)) (concat rows)) in
    rs ← py_map (fun r => concatenate (map (atleast_nd nd) r) (nd - 1)) rows;
    concatenate rs (nd - 2).

End Block.
End Block.

(** ** Python iterables

    A list or tuple can be traversed any number of times; an iterator
    (such as the object returned by [itertools.product]) is a cursor
    that is advanced by every traversal, for all who hold it. *)

Inductive iterable : Type :=
| Sequence (l : list (nat * nat))
| Iterator (id : nat).

(** What each live iterator has still to yield. *)
Abbreviation iterators := (gmap nat (list (nat * nat))).

(** What a traversal of the iterable yields. *)
Definition remaining (it : iterable) (its : iterators) : list (nat * nat) :=
  match it with
  | Sequence l => l
  | Iterator id => default [] (its !! id)
  end.

(** The iterable after a traversal that stopped with [rest] not yet
    yielded. *)
Definition advance (it : iterable) (rest : list (nat * nat)) (its : iterators)
  : iterators :=
  match it with
  | Sequence _ => its
  | Iterator id => <[id := rest]> its
  end.

(** The pairs that [product(range(n), range(n))] yields. *)
Definition product_range (n : nat) : list (nat * nat) :=
  k1 ← seq 0 n; k2 ← seq 0 n; [(k1, k2)].

(** [product(range(n), range(n))]: a new iterator. *)
Definition new_product (n : nat) (its : iterators) : iterable * iterators :=
  let id := fresh (dom its) in
  (Iterator id, <[id := product_range n]> its).

(** ** Arrays that are written in place *)

(** The element type of an eigenvector array: [float64] or
    [complex128], with the modulus and the division by a real. *)
Class Dtype : Type := {
  elt : Type;
  dabs : elt -> R;
  ddiv : elt -> R -> elt;
  dabs_ddiv : forall x s, (0 < s)%R -> dabs (ddiv x s) = (dabs x / s)%R
}.

#[global, refine] Instance float64 : Dtype :=
  {| elt := R; dabs := Rabs; ddiv := Rdiv |}.
Proof.
  intros x s Hs. unfold Rdiv. rewrite Rabs_mult, Rabs_inv.
  rewrite (Rabs_pos_eq s); [reflexivity | lra].
Defined.

#[global, refine] Instance complex128 : Dtype :=
  {| elt := R * R;
     dabs := fun z => sqrt (fst z * fst z + snd z * snd z);
     ddiv := fun z s => (fst z / s, snd z / s)%R |}.
Proof.
  intros [a b] s Hs. simpl.
  replace (a / s * (a / s) + b / s * (b / s))%R
    with ((a * a + b * b) * (/ s * / s))%R by (field; lra).
  rewrite sqrt_mult_alt by nra.
  rewrite sqrt_square by (left; apply Rinv_0_lt_compat; exact Hs).
  reflexivity.
Defined.

Module Mem.
Section Mem.
Context `{Dtype}.

(** A number as numpy holds it: a finite value, or [None] for [nan]
    and [inf]. An operation on [None] gives [None]; the statements
    below are about arrays of finite numbers. *)
Definition num : Type := option elt.

(** The buffers of the arrays in memory. *)
#[local] Abbreviation store := (gmap nat (list num)).

(** A C-contiguous array: a shape over a whole buffer. *)
Record carray : Type := mk_carray { buf : nat; cshape : list nat }.

(** A strided view of a buffer (strides counted in elements). *)
Record view : Type := mk_view {
  vbuf : nat;
  vshape : list nat;
  vstrides : list nat
}.

(** The strides of a C-contiguous array of shape [sh]. *)
Fixpoint c_strides (sh : list nat) : list nat :=
  match sh with
  | [] => []
  | _ :: sh' => nelems sh' :: c_strides sh'
  end.

(** The position in the buffer of the element at [ix]. *)
Definition offset (strides ix : list nat) : nat :=
  sum_list (zip_with Nat.mul ix strides).

(** [v[i0, i1, ...]] in the store [st]. *)
Definition vget (st : store) (v : view) (ix : list nat) : num :=
  (st !!! vbuf v) !!! offset (vstrides v) ix.

(** [a[i0, i1, ...]] of a C-contiguous array. *)
Definition cget (st : store) (a : carray) (ix : list nat) : num :=
  (st !!! buf a) !!! ravel (cshape a) ix.

(** The dimensions of [reshape]: a negative dimension is unknown and
    inferred from the number of elements; at most one may be. *)
Definition fix_unknown_dimension (newshape : list Z) (s_original : nat)
  : result (list nat) :=
  let s_known := nelems (map Z.to_nat (filter (fun d => 0 <= d)%Z newshape)) in
  match length (filter (fun d => d < 0)%Z newshape) with
  | 0 => if s_original =? s_known then Ok (map Z.to_nat newshape)
         else Raise ValueError
  | 1 => if (s_known =? 0) || negb (s_original mod s_known =? 0)
         then Raise ValueError
         else Ok (map (fun d => if (d <? 0)%Z then s_original / s_known
                                else Z.to_nat d) newshape)
  | _ => Raise ValueError
  end.

(** [a.reshape(newshape)] of a C-contiguous array: a view of the
    same buffer. *)
Definition reshape_view (a : carray) (newshape : list Z) : result view :=
  sh ← fix_unknown_dimension newshape (nelems (cshape a));
  Ok (mk_view (buf a) sh (c_strides sh)).

(** [v.transpose(axes)]: the same buffer, shape and strides permuted. *)
Definition transpose (v : view) (axes : list nat) : view :=
  mk_view (vbuf v) (map (fun i => vshape v !!! i) axes)
          (map (fun i => vstrides v !!! i) axes).

(** [abs(x) ** 2]. *)
Definition abs2 (x : num) : option R := (fun t => dabs t ^ 2)%R <$> x.

(** The sum of a list of numbers. *)
Definition osum (l : list (option R)) : option R :=
  foldr (fun x acc => a ← x; b ← acc; Some (a + b)%R) (Some 0%R) l.

(** [x ** .5]: [nan] below zero. *)
Definition osqrt (x : option R) : option R :=
  a ← x; if Rlt_dec a 0 then None else Some (sqrt a).

(** [x / s]: [inf] or [nan] when [s] is zero. *)
Definition odiv (x : num) (s : option R) : num :=
  a ← x; b ← s; if Req_dec_T b 0 then None else Some (ddiv a b).

(** [all(i == l[0] for i in l)]. *)
Definition all_equal_first (l : list nat) : bool :=
  match l with
  | [] => true
  | x :: _ => forallb (fun i => i =? x) l
  end.

(** [(abs(v) ** 2).sum(axis=(1, 2, 3, 4))[d, r]] for a view of six
    axes. *)
Definition norm_entry (st : store) (v : view) (d r : nat) : option R :=
  osum (map (fun mi => abs2 (vget st v (d :: mi ++ [r])))
            (indices (take 4 (drop 1 (vshape v))))).

(** The divisor of root [r]: [(2 * (norm[0] - norm[1])) ** .5]. *)
Definition norm_root (st : store) (v : view) (r : nat) : option R :=
  osqrt (n0 ← norm_entry st v 0 r; n1 ← norm_entry st v 1 r;
         Some (2 * (n0 - n1))%R).

(** [vector_to_amplitudes(vectors, nocc, nmo)] on an array that is
    already a C-contiguous [ndarray] ([numpy.asanyarray] returns it as
    it is, and its [reshape] is a view): the value returned or the
    exception raised, and the store afterwards. *)
Definition vector_to_amplitudes (vectors : carray) (nocc nmo : list nat)
    (st : store) : result view * store :=
  if negb (all_equal_first nocc)
  then (Raise (NotImplementedError
                 "Varying occupation numbers are not implemented yet"), st)
  else
    let nk := length nocc in
    match py_index nocc 0 with
    | Raise e => (Raise e, st)
    | Ok nocc =>
      if negb (all_equal_first nmo)
      then (Raise (NotImplementedError
                     "Varying AO spaces are not implemented yet"), st)
      else
        match
          nmo ← py_index nmo 0;
          nroots ← py_index (cshape vectors) 1;
          reshape_view vectors
            [2%Z; Z.of_nat nk; Z.of_nat nk; Z.of_nat nocc;
             (Z.of_nat nmo - Z.of_nat nocc)%Z; Z.of_nat nroots]
        with
        | Raise e => (Raise e, st)
        | Ok vectors =>
            (* vectors /= norm ** .5, the divisor laid along the last axis *)
            let divided :=
              imap (fun n x =>
                      odiv x (norm_root st vectors
                                (unravel (vshape vectors) n !!! 5)))
                   (st !!! vbuf vectors) in
            (Ok (transpose vectors [5; 0; 1; 2; 3; 4]),
             <[vbuf vectors := divided]> st)
        end
    end.

(** The transformation of an array nobody else holds (the eigenvectors
    in [kernel]): the input is placed in a store of its own and the
    result is read back as a value. *)
Definition vector_to_amplitudes_fresh (vectors : ndarray num)
    (nocc nmo : list nat) : result (ndarray num) :=
  let '(r, st) :=
    vector_to_amplitudes (mk_carray 0 (shape vectors)) nocc nmo
                         {[ 0 := data vectors ]} in
  v ← r; Ok (tabulate (vshape v) (vget st v)).

End Mem.

(** The buffers of the arrays in memory. *)
Abbreviation store := (gmap nat (list num)).

End Mem.

(** ** The molecular module [pyscf.tdscf.rhf_slow]

    The base class [TDDFTMatrixBlocks], [build_matrix] and [eig] are
    declared there, outside this module; they are read-only users of a
    provider. *)

Class RhfSlow `{Backend} `{Dtype} : Type := {
  (** [TDDFTMatrixBlocks.eri_mknj(self, item, k)] *)
  td_eri_mknj : provider -> string -> list nat -> result (ndarray scalar);
  (** [build_matrix(eri)] *)
  build_matrix : provider -> result (ndarray scalar);
  eigenvalues : Type;
  (** [eig(m, driver=driver, nroots=nroots)] *)
  eig : ndarray scalar -> option string -> option nat ->
        result (eigenvalues * ndarray Mem.num)
}.

Section Driver.
Context `{RhfSlow}.

(** [self.eri_mknj_k(item, k)]: the method of the base class. *)
Definition eri_mknj_k (self : provider) (item : string) (k : list nat)
  : result (ndarray scalar) :=
  td_eri_mknj self item k.

(** The inner loop of [eri_mknj]: one row of blocks. *)
Definition eri_mknj_row (self : provider) (item : string) (k12 : nat * nat)
    (pairs_column : list (nat * nat)) : result (list (ndarray scalar)) :=
  py_map (fun k34 : nat * nat =>
            eri_mknj_k self item [k12.1; k12.2; k34.1; k34.2])
         pairs_column.

(** The outer loop of [eri_mknj] over what [pairs_row] yields: the rows
    of blocks, together with what [pairs_row] has not yielded when the
    loop ends (all of it is yielded unless a block raises). *)
Fixpoint eri_mknj_rows (self : provider) (item : string)
    (pairs_row pairs_column : list (nat * nat))
  : result (list (list (ndarray scalar))) * list (nat * nat) :=
  match pairs_row with
  | [] => (Ok [], [])
  | k12 :: rest =>
      match eri_mknj_row self item k12 pairs_column with
      | Raise e => (Raise e, rest)
      | Ok r =>
          let '(rs, rest') := eri_mknj_rows self item rest pairs_column in
          ((fun rs => r :: rs) <$> rs, rest')
      end
  end.

(** [self.eri_mknj(item, pairs_row, pairs_column)]: the value returned
    or the exception raised, and the iterators afterwards. *)
Definition eri_mknj (self : provider) (item : string)
    (pairs_row pairs_column : option iterable) (its : iterators)
  : result (ndarray scalar) * iterators :=
  let n := length (kpts (model self)) in
  let '(pairs_row, its) :=
    match pairs_row with
    | None => new_product n its
    | Some it => (it, its)
    end in
  let '(pairs_column, its) :=
    match pairs_column with
    | None => new_product n its
    | Some it => (it, its)
    end in
  (* Second index has to support re-iterations *)
  let columns := remaining pairs_column its in
  let its := advance pairs_column [] its in
  let '(result, rest) :=
    eri_mknj_rows self item (remaining pairs_row its) columns in
  let its := advance pairs_row rest its in
  (rows ← result;
   r ← Block.block rows;
   Ok (mk_ndarray (shape r) (map (fun x => div_int x n) (data r))),
   its).

(** The amplitudes stored and returned. *)
Definition amplitudes : Type := ndarray Mem.num.

(** [kernel(model, driver, nroots, return_eri)]: the messages sent to
    the logger and the value returned; the provider is part of the
    value when [return_eri] is set. A model is taken with coefficient
    arrays of one common shape, on which [numpy.iscomplexobj] answers
    (on arrays of different shapes it raises before anything is built). *)
Definition kernel (model : KRHF + provider) (driver : option string)
    (nroots : option nat) (return_eri : bool)
  : list string * result (eigenvalues * amplitudes * option provider) :=
  let '(log, eri) :=
    match model with
    | inr eri => ([], Ok eri)
    | inl model =>
        if iscomplexobj (mo_coeff model)
        then (["4-fold symmetry used (complex orbitals)"%string],
              PhysERI4_init model)
        else (["8-fold symmetry used (real orbitals)"%string],
              PhysERI8_init model)
    end in
  (log,
   eri ← eri;
   m ← build_matrix eri;
   '(vals, vecs) ← eig m driver nroots;
   ns ← nmo eri;
   vecs ← Mem.vector_to_amplitudes_fresh vecs (nocc eri) ns;
   Ok (vals, vecs, if return_eri then Some eri else None)).

(** The container. *)
Record TDRHF : Type := mk_TDRHF {
  _scf : KRHF;
  driver : option string;
  nroots : option nat;
  eri : option provider;
  xy : option amplitudes;
  e : option eigenvalues
}.

(** [TDRHF(mf)]. *)
Definition TDRHF_init (mf : KRHF) : TDRHF :=
  mk_TDRHF mf None None None None None.

(** [self.driver = driver; self.nroots = nroots]. *)
Definition configure (self : TDRHF) (driver : option string)
    (nroots : option nat) : TDRHF :=
  mk_TDRHF (_scf self) driver nroots (eri self) (xy self) (e self).

(** [self.kernel()]: the messages logged, the value returned or the
    exception raised, and the container afterwards. The three fields
    are assigned once the call of [kernel] has returned its triple. *)
Definition TDRHF_kernel (self : TDRHF)
  : list string * result (eigenvalues * amplitudes) * TDRHF :=
  let '(log, r) :=
    kernel (match eri self with
            | None => inl (_scf self)
            | Some eri => inr eri
            end)
           (driver self) (nroots self) true in
  match r with
  | Raise ex => (log, Raise ex, self)
  | Ok (vals, vecs, None) => (log, Raise ValueError, self)
  | Ok (vals, vecs, Some eri) =>
      (log, Ok (vals, vecs),
       mk_TDRHF (_scf self) (driver self) (nroots self)
                (Some eri) (Some vecs) (Some vals))
  end.

End Driver.

(** ** Vocabulary of the statements *)

(** All the counts of a tuple are equal. *)
Definition homogeneous (l : list nat) : Prop :=
  forall x y, In x l -> In y l -> x = y.

(** The key under which [PhysERI.__init__] stores the tensor of a
    triple: the triple extended by its entry in the conservation map. *)
Definition cache_key (kc : ndarray nat) (k : list nat) : list nat :=
  k ++ [get kc k].

(** First index and extent of the occupied part [[:o]] (letter [o]) or
    of the virtual part [[o:]] (any other letter) of an axis of
    length [n]. *)
Definition ov_start (i : ascii) (o n : nat) : nat :=
  if is_o i then 0 else o `min` n.
Definition ov_len (i : ascii) (o n : nat) : nat :=
  if is_o i then o `min` n else n - o `min` n.

Section Vocabulary.
Context `{Backend}.

(** [cls(model)] for one of the three classes. *)
Definition new_provider (cls : provider_class) (m : KRHF) : result provider :=
  match cls with
  | PhysERI => PhysERI_init m
  | PhysERI4 => PhysERI4_init m
  | PhysERI8 => PhysERI8_init m
  end.

(** The occupied/virtual shape of a block: [nocc[k]] along an axis
    with letter [o], [nmo[k] - nocc[k]] along any other. *)
Definition ov_shape (nocc nmo : list nat) (item : list ascii) (k : list nat)
  : list nat :=
  map (fun p : ascii * nat =>
         if is_o p.1 then nocc !!! p.2 else nmo !!! p.2 - nocc !!! p.2)
      (zip item k).

End Vocabulary.

Section Transform.
Context `{Backend}.

(** The assumption on the integral backend: the transform of four
    coefficient matrices is taken orbital by orbital. Its entry at row
    [(i, j)] and column [(k, l)] is the integral [g] of orbital [i] of
    the first matrix, [j] of the second, [k] of the third and [l] of the
    fourth (the contraction of the AO integrals with these four columns,
    linear in each of them). *)
Definition columnwise
    (g : df -> list kpt -> list scalar -> list scalar -> list scalar ->
         list scalar -> scalar) : Prop :=
  forall d ks c0 c1 c2 c3 a0 a1 a2 a3 n0 n1 n2 n3,
    shape c0 = [a0; n0] -> shape c1 = [a1; n1] ->
    shape c2 = [a2; n2] -> shape c3 = [a3; n3] ->
    df_ao2mo d [c0; c1; c2; c3] ks
    = Ok (tabulate [n0 * n1; n2 * n3]
            (fun ix => g d ks (column c0 (ix !!! 0 / n1))
                              (column c1 (ix !!! 0 mod n1))
                              (column c2 (ix !!! 1 / n3))
                              (column c3 (ix !!! 1 mod n3)))).

(** Every coefficient matrix has two axes. *)
Definition matrices (l : list (ndarray scalar)) : Prop :=
  Forall (fun c => exists a n, shape c = [a; n]) l.

End Transform.

(** The two arguments of [eri_mknj] are not one and the same
    iterator. *)
Definition separate (pairs_row pairs_column : iterable) : Prop :=
  forall id, pairs_row = Iterator id -> pairs_column <> Iterator id.

Section Norms.
Context `{Dtype}.

(** [2 * (sum|x|^2 - sum|y|^2)] for column [r] of a two-dimensional
    array whose first [m] rows hold the x part of the eigenvectors and
    whose next [m] rows hold the y part. *)
Definition column_norm (st : Mem.store) (a : Mem.carray) (m r : nat)
  : option R :=
  nx ← Mem.osum (map (fun row => Mem.abs2 (Mem.cget st a [row; r])) (seq 0 m));
  ny ← Mem.osum (map (fun row => Mem.abs2 (Mem.cget st a [m + row; r])) (seq 0 m));
  Some (2 * (nx - ny))%R.

(** [2 * (sum|x|^2 - sum|y|^2)] for root [r] of a tensor of amplitudes
    (root axis first, then x/y), the sums running over all the other
    axes. *)
Definition amplitude_norm (st : Mem.store) (v : Mem.view) (r : nat)
  : option R :=
  let rest := indices (drop 2 (Mem.vshape v)) in
  nx ← Mem.osum (map (fun mi => Mem.abs2 (Mem.vget st v (r :: 0 :: mi))) rest);
  ny ← Mem.osum (map (fun mi => Mem.abs2 (Mem.vget st v (r :: 1 :: mi))) rest);
  Some (2 * (nx - ny))%R.

(** Every number of a buffer is finite. *)
Definition finite (d : list Mem.num) : Prop := Forall is_Some d.

End Norms.

(** The sum of a list of reals, and the squared modulus of a number
    read as a real (0 where the number is not finite). *)
Definition rsum (l : list R) : R := foldr Rplus 0%R l.
Definition sqmod `{Dtype} (x : Mem.num) : R := default 0%R (Mem.abs2 x).

(** ** A small system for the examples

    Two k-points on a line, two orbitals per k-point of which one is
    occupied, rational numbers with their exact division; the
    transform of the integral backend is taken orbital by orbital. *)

Module Toy.

Definition g (d : unit) (ks : list nat) (v0 v1 v2 v3 : list Q) : Q :=
  (1000 * foldr Qplus 0 v0 + 100 * foldr Qplus 0 v1
   + 10 * foldr Qplus 0 v2 + foldr Qplus 0 v3
   + inject_Z (Z.of_nat (sum_list ks)))%Q.

Definition ao2mo (d : unit) (coeff : list (ndarray Q)) (ks : list nat)
  : result (ndarray Q) :=
  match coeff with
  | [c0; c1; c2; c3] =>
      match shape c0, shape c1, shape c2, shape c3 with
      | [_; n0], [_; n1], [_; n2], [_; n3] =>
          Ok (tabulate [n0 * n1; n2 * n3]
                (fun ix => g d ks (column (H := populate 0%Q) c0 (ix !!! 0 / n1))
                                  (column (H := populate 0%Q) c1 (ix !!! 0 mod n1))
                                  (column (H := populate 0%Q) c2 (ix !!! 1 / n3))
                                  (column (H := populate 0%Q) c3 (ix !!! 1 mod n3))))
      | _, _, _, _ => Raise ValueError
      end
  | _ => Raise ValueError
  end.

Definition backend : Backend := {|
  scalar := Q;
  szero := 0%Q;
  div_int := fun x n => Qred (x / inject_Z (Z.of_nat n));
  kpt := nat;
  cell := unit;
  df := unit;
  df_ao2mo := ao2mo;
  kconserv_entry := fun _ ks k1 k2 k3 =>
    (k1 + (length ks - k2) + k3) mod length ks;
  iscomplexobj := fun _ => false
|}.

Definition mf : @KRHF backend :=
  @mk_KRHF backend
    tt                                     (* cell *)
    [0; 1]                                 (* kpts *)
    [mk_ndarray [2; 2] [1; 2; 3; 4]%Q;
     mk_ndarray [2; 2] [5; 6; 7; 8]%Q]     (* mo_coeff *)
    [[2; 0]; [2; 0]]                       (* mo_occ *)
    tt.                                    (* with_df *)

(** Eight rows (x and y parts of [2 * 2 * 1 * 1] amplitudes), one
    root: x = 3 at the first entry, y = 1. *)
Definition vecs : ndarray (@Mem.num float64) :=
  mk_ndarray [8; 1]
    [Some 3%R; Some 0%R; Some 0%R; Some 0%R;
     Some 1%R; Some 0%R; Some 0%R; Some 0%R].

(** The molecular module: per-quadruple blocks of [k1 + 1] rows and
    [k3 + 1] columns, a matrix, and a solver that knows no driver by
    name. *)
Definition rhf_slow : @RhfSlow backend float64 :=
  @Build_RhfSlow backend float64
    (* td_eri_mknj *)
    (fun (_ : @provider backend) _ k =>
       Ok (tabulate [k !!! 0 + 1; k !!! 2 + 1]
             (fun ix => inject_Z (Z.of_nat (1000 * ravel [2; 2; 2; 2] k
                                            + 10 * ix !!! 0 + ix !!! 1)))))
    (* build_matrix *)
    (fun _ => Ok (mk_ndarray [1; 1] [0%Q]))
    (* eigenvalues *)
    (list nat)
    (* eig *)
    (fun _ driver _ =>
       match driver with
       | None => Ok ([1], vecs)
       | Some _ => Raise ValueError
       end).

End Toy.

(** ** The diagonal block

    [PhysERI.__get_mo_energies__], [PhysERI.tdhf_diag_k] and
    [PhysERI.tdhf_diag]. The orbital energies of the model
    ([model.mo_energy], a one-dimensional array per k-point) are only
    read; the diagonal block of a pair of k-points is computed by the
    molecular base class. *)

Class Diagonal `{Backend} : Type := {
  energy : Type;
  (** [model.mo_energy] *)
  mo_energy : KRHF -> list (list energy);
  (** [TDDFTMatrixBlocks.tdhf_diag(self, k1, k2)] *)
  td_tdhf_diag : provider -> nat -> nat -> result (ndarray scalar)
}.

(** [scipy.linalg.block_diag]. *)
Module BlockDiag.
Section BlockDiag.
Context {A : Type} `{Inhabited A}.

(** The element at row [r] and column [c] of the array that the loop
    of [block_diag] fills: the blocks are scanned from the first, [r]
    and [c] moving up by the extents of each block that is passed;
    outside the blocks the array keeps the zeros it was created with. *)
Fixpoint diag_get (zero : A) (arrs : list (ndarray A)) (r c : nat) : A :=
  match arrs with
  | [] => zero
  | a :: rest =>
      let rr := shape a !!! 0 in
      let cc := shape a !!! 1 in
      if (r <? rr) && (c <? cc) then get a [r; c]
      else if (r <? rr) || (c <? cc) then zero
      else diag_get zero rest (r - rr) (c - cc)
  end.

(** [block_diag] called on the blocks [arrs] as its arguments: without
    arguments the one block [[]] of shape
    [(1, 0)] is taken; every block is brought to two dimensions
    ([numpy.atleast_2d]), a block of more dimensions is refused; the
    result has the sum of the rows and the sum of the columns of the
    blocks. *)
Definition block_diag (zero : A) (arrs : list (ndarray A)) : result (ndarray A) :=
  let arrs := match arrs with [] => [mk_ndarray [0] []] | _ => arrs end in
  let arrs := map (Block.atleast_nd 2) arrs in
  if existsb (fun a => 2 <? length (shape a)) arrs
  then Raise ValueError
  else
    Ok (tabulate [sum_list (map (fun a => shape a !!! 0) arrs);
                  sum_list (map (fun a => shape a !!! 1) arrs)]
          (fun ix => diag_get zero arrs (ix !!! 0) (ix !!! 1))).

End BlockDiag.
End BlockDiag.

Section DiagonalBlock.
Context `{Diagonal}.

(** [self.__get_mo_energies__(k1, k2)]: the occupied energies of [k1]
    and the virtual energies of [k2]. *)
Definition __get_mo_energies__ (self : provider) (k1 k2 : nat)
  : result (list energy * list energy) :=
  e1 ← py_index (mo_energy (model self)) k1;
  o1 ← py_index (nocc self) k1;
  e2 ← py_index (mo_energy (model self)) k2;
  o2 ← py_index (nocc self) k2;
  Ok (take o1 e1, drop o2 e2).

(** [self.tdhf_diag_k(k1, k2)]: the method of the base class. *)
Definition tdhf_diag_k (self : provider) (k1 k2 : nat) : result (ndarray scalar) :=
  td_tdhf_diag self k1 k2.

(** The loop of [tdhf_diag] over what [pairs] yields: the blocks,
    together with what [pairs] has not yielded when the loop ends. *)
Fixpoint tdhf_diag_blocks (self : provider) (pairs : list (nat * nat))
  : result (list (ndarray scalar)) * list (nat * nat) :=
  match pairs with
  | [] => (Ok [], [])
  | k12 :: rest =>
      match tdhf_diag_k self k12.1 k12.2 with
      | Raise e => (Raise e, rest)
      | Ok b =>
          let '(bs, rest') := tdhf_diag_blocks self rest in
          ((fun bs => b :: bs) <$> bs, rest')
      end
  end.

(** [self.tdhf_diag(pairs)]: the value returned or the exception
    raised, and the iterators afterwards. *)
Definition tdhf_diag (self : provider) (pairs : option iterable) (its : iterators)
  : result (ndarray scalar) * iterators :=
  let n := length (kpts (model self)) in
  let '(pairs, its) :=
    match pairs with
    | None => new_product n its
    | Some it => (it, its)
    end in
  let '(result, rest) := tdhf_diag_blocks self (remaining pairs its) in
  let its := advance pairs rest its in
  (blocks ← result; BlockDiag.block_diag szero blocks, its).

End DiagonalBlock.

(** ** Further vocabulary *)

(** Two index permutations applied one after the other: a tuple [x]
    permuted by [p] is [(x[p[0]], x[p[1]], ...)]; permuted by [p] and
    then by [q] it is [x] permuted by [compose_perm p q]. *)
Definition compose_perm (p q : list nat) : list nat := map (fun i => p !!! i) q.

(** What a user does with a container: assignments to the two
    configuration attributes, and calls of [kernel]. *)
Inductive action : Type :=
| SetDriver (driver : option string)
| SetNroots (nroots : option nat)
| CallKernel.

Section Actions.
Context `{RhfSlow}.

Definition act (self : TDRHF) (a : action) : TDRHF :=
  match a with
  | SetDriver d => configure self d (nroots self)
  | SetNroots n => configure self (driver self) n
  | CallKernel => (TDRHF_kernel self).2
  end.

Definition run (self : TDRHF) (l : list action) : TDRHF := foldl act self l.

(** The coefficient arrays have one common shape. *)
Definition common_shape (l : list (ndarray scalar)) : Prop :=
  forall a b, In a l -> In b l -> shape a = shape b.

(** The model a call of [kernel] works on. *)
Definition model_of (arg : KRHF + provider) : KRHF :=
  match arg with
  | inl mf => mf
  | inr p => model p
  end.

End Actions.

(** The small system with orbital energies, and diagonal blocks of
    [k1 + 1] rows and [k2 + 1] columns. *)
Module ToyDiagonal.

Definition diagonal : @Diagonal Toy.backend :=
  @Build_Diagonal Toy.backend
    (* energy *)
    Z
    (* mo_energy *)
    (fun _ => [[(-5)%Z; 3%Z]; [(-4)%Z; 6%Z]])
    (* td_tdhf_diag *)
    (fun (_ : @provider Toy.backend) k1 k2 =>
       Ok (tabulate [k1 + 1; k2 + 1]
             (fun ix => inject_Z (Z.of_nat (1000 * k1 + 100 * k2
                                            + 10 * ix !!! 0 + ix !!! 1 + 1))))).

End ToyDiagonal.

(** The small system with a molecular module whose blocks fail from
    the second k-point on: the block of a quadruple with [k1 + k3 >= 2]
    raises. *)
Module ToyFailing.

Definition rhf_slow : @RhfSlow Toy.backend float64 :=
  @Build_RhfSlow Toy.backend float64
    (* td_eri_mknj *)
    (fun (_ : @provider Toy.backend) _ k =>
       if 2 <=? k !!! 0 + k !!! 2
       then Raise (ExternalError (k !!! 0 + k !!! 2))
       else Ok (mk_ndarray [1; 1] [inject_Z (Z.of_nat (ravel [2; 2; 2; 2] k))]))
    (* build_matrix *)
    (fun _ => Ok (mk_ndarray [1; 1] [0%Q]))
    (* eigenvalues *)
    (list nat)
    (* eig *)
    (fun _ _ _ => Ok ([1], Toy.vecs)).

End ToyFailing.

(** * Properties *)

(** ** Row-major indexing *)

Section IndexFacts.

Lemma unravel_length sh n : length (unravel sh n) = length sh.
Proof. revert n; induction sh as [|d sh IH]; intros n; simpl; auto. Qed.

Lemma in_bounds_length sh ix : in_bounds sh ix -> length ix = length sh.
Proof. apply Forall2_length. Qed.

Lemma nelems_cons d sh : nelems (d :: sh) = d * nelems sh.
Proof. reflexivity. Qed.

Lemma nelems_app s1 s2 : nelems (s1 ++ s2) = nelems s1 * nelems s2.
Proof.
  induction s1 as [|d s1 IH]; simpl; [lia|].
  rewrite IH. lia.
Qed.

Lemma unravel_in_bounds sh n : n < nelems sh -> in_bounds sh (unravel sh n).
Proof.
  revert n; induction sh as [|d sh IH]; intros n Hn; simpl.
  - constructor.
  - rewrite nelems_cons in Hn.
    assert (Hpos : 0 < nelems sh) by (destruct (nelems sh); lia).
    constructor.
    + apply Nat.Div0.div_lt_upper_bound. lia.
    + apply IH. apply Nat.mod_upper_bound. lia.
Qed.

Lemma ravel_unravel sh n : n < nelems sh -> ravel sh (unravel sh n) = n.
Proof.
  revert n; induction sh as [|d sh IH]; intros n Hn; simpl in *.
  - lia.
  - assert (Hpos : 0 < nelems sh) by (destruct (nelems sh); lia).
    rewrite IH by (apply Nat.mod_upper_bound; lia).
    pose proof (Nat.div_mod_eq n (nelems sh)). lia.
Qed.

Lemma ravel_lt sh ix : in_bounds sh ix -> ravel sh ix < nelems sh.
Proof.
  intros Hb; induction Hb as [|i d ix sh Hi Hb IH]; simpl; [lia|].
  nia.
Qed.

Lemma unravel_ravel sh ix : in_bounds sh ix -> unravel sh (ravel sh ix) = ix.
Proof.
  intros Hb; induction Hb as [|i d ix sh Hi Hb IH]; simpl; [reflexivity|].
  pose proof (ravel_lt sh ix Hb) as Hlt.
  assert (Hd : (i * nelems sh + ravel sh ix) / nelems sh = i).
  { rewrite Nat.div_add_l, Nat.div_small by lia. lia. }
  assert (Hm : (i * nelems sh + ravel sh ix) mod nelems sh = ravel sh ix).
  { rewrite (Nat.add_comm (i * nelems sh)), Nat.Div0.mod_add.
    apply Nat.mod_small, Hlt. }
  rewrite Hd, Hm, IH. reflexivity.
Qed.

Lemma indices_length sh : length (indices sh) = nelems sh.
Proof. unfold indices. rewrite length_map, length_seq. reflexivity. Qed.

Lemma indices_lookup sh n : n < nelems sh -> indices sh !! n = Some (unravel sh n).
Proof.
  intros Hn. unfold indices.
  change (map (unravel sh) (seq 0 (nelems sh))) with (unravel sh <$> seq 0 (nelems sh)).
  rewrite list_lookup_fmap, lookup_seq_lt by exact Hn. reflexivity.
Qed.

Lemma indices_in_bounds sh ix : In ix (indices sh) <-> in_bounds sh ix.
Proof.
  unfold indices. rewrite in_map_iff. split.
  - intros (n & <- & Hn). apply in_seq in Hn. apply unravel_in_bounds. lia.
  - intros Hb. exists (ravel sh ix). split; [apply unravel_ravel, Hb|].
    apply in_seq. pose proof (ravel_lt _ _ Hb). lia.
Qed.

Lemma in_boundsb_spec sh ix : in_boundsb sh ix = true <-> in_bounds sh ix.
Proof.
  unfold in_boundsb, in_bounds. rewrite andb_true_iff, Nat.eqb_eq.
  revert sh; induction ix as [|i ix IH]; intros [|d sh]; simpl.
  - split; [constructor | auto].
  - split; [intros [? _]; discriminate | intros Hf; inversion Hf].
  - split; [intros [? _]; discriminate | intros Hf; inversion Hf].
  - rewrite andb_true_iff, Nat.ltb_lt. split.
    + intros (Hl & Hi & Hr). constructor; [exact Hi|].
      apply IH. split; [lia | exact Hr].
    + intros Hf. inversion Hf; subst.
      match goal with Hr : Forall2 _ ix sh |- _ => apply IH in Hr; destruct Hr end.
      repeat split; auto.
Qed.

End IndexFacts.

Section ArrayFacts.
Context {A : Type} `{Inhabited A}.

Lemma tabulate_well_formed sh (f : list nat -> A) : well_formed (tabulate sh f).
Proof. unfold well_formed, tabulate; simpl. rewrite length_map. apply indices_length. Qed.

Lemma get_tabulate sh (f : list nat -> A) ix :
  in_bounds sh ix -> get (tabulate sh f) ix = f ix.
Proof.
  intros Hb. unfold get, tabulate; simpl.
  pose proof (ravel_lt _ _ Hb) as Hlt.
  apply list_lookup_total_correct.
  change (map f (indices sh)) with (f <$> indices sh).
  rewrite list_lookup_fmap, indices_lookup by exact Hlt. simpl.
  rewrite unravel_ravel by exact Hb. reflexivity.
Qed.

Lemma tabulate_ext sh (f g : list nat -> A) :
  (forall ix, in_bounds sh ix -> f ix = g ix) -> tabulate sh f = tabulate sh g.
Proof.
  intros Hfg. unfold tabulate. f_equal.
  apply map_ext_in. intros ix Hin. apply Hfg, indices_in_bounds, Hin.
Qed.

Lemma getitem_in_bounds (a : ndarray A) ix :
  in_bounds (shape a) ix -> getitem a ix = Ok (get a ix).
Proof.
  intros Hb. unfold getitem.
  apply in_boundsb_spec in Hb. rewrite Hb. reflexivity.
Qed.

End ArrayFacts.

(** ** The symmetry tables *)



(** ** The reshaper refuses heterogeneous k-point spaces *)

Lemma all_equal_first_spec l : Mem.all_equal_first l = true <-> homogeneous l.
Proof.
  unfold homogeneous. destruct l as [|a l]; simpl.
  - split; [intros _ x y [] | reflexivity].
  - rewrite Nat.eqb_refl. simpl. rewrite forallb_forall. split.
    + intros Hall x y [<-|Hx] [<-|Hy]; auto.
      * symmetry. apply Nat.eqb_eq, Hall, Hy.
      * apply Nat.eqb_eq, Hall, Hx.
      * apply Hall, Nat.eqb_eq in Hx, Hy. congruence.
    + intros Hh x Hx. apply Nat.eqb_eq. apply Hh; auto.
Qed.

Lemma not_homogeneous_first l : ~ homogeneous l -> Mem.all_equal_first l = false.
Proof.
  intros Hn. destruct (Mem.all_equal_first l) eqn:E; [|reflexivity].
  exfalso. apply Hn, all_equal_first_spec, E.
Qed.

Section Reshaper.
Context `{Dtype}.

(** C5: with one count per k-point in [nocc] and [nmo], occupied counts
    that are not all equal, or orbital counts that are not all equal,
    make [vector_to_amplitudes] raise [NotImplementedError]; whatever the
    array of vectors is, it is neither reshaped nor normalised (the
    store is returned as it was). *)
Theorem vector_to_amplitudes_heterogeneous
    (vectors : Mem.carray) (nocc nmo : list nat) (st : Mem.store) :
  length nocc = length nmo ->
  ~ homogeneous nocc \/ ~ homogeneous nmo ->
  exists msg,
    Mem.vector_to_amplitudes vectors nocc nmo st
    = (Raise (NotImplementedError msg), st).
Proof.
  intros Hlen Hhet. unfold Mem.vector_to_amplitudes.
  destruct (Mem.all_equal_first nocc) eqn:Eocc; simpl; [|eauto].
  destruct Hhet as [Hocc | Hmo].
  { apply not_homogeneous_first in Hocc. congruence. }
  apply not_homogeneous_first in Hmo.
  destruct nocc as [|o nocc'].
  - destruct nmo; [discriminate Hmo | discriminate Hlen].
  - simpl. rewrite Hmo. simpl. eauto.
Qed.

End Reshaper.

(** C5 at [nocc = (1, 2)], [nmo = (3, 3)], for a 2 x 1 array. *)
Lemma vector_to_amplitudes_heterogeneous_witness :
  exists msg,
    Mem.vector_to_amplitudes (H := float64) (Mem.mk_carray 0 [2; 1]) [1; 2] [3; 3]
      {[ 0 := [Some 1%R; Some 0%R] ]}
    = (Raise (NotImplementedError msg), {[ 0 := [Some 1%R; Some 0%R] ]}).
Proof.
  apply (vector_to_amplitudes_heterogeneous (H := float64)).
  - reflexivity.
  - left. intros Hh. specialize (Hh 1 2). simpl in Hh. lia.
Defined.

(** ** Reasoning on results *)

Lemma bind_Ok {A B} (f : A -> result B) (m : result A) b :
  m ≫= f = Ok b -> exists a, m = Ok a /\ f a = Ok b.
Proof. destruct m as [a|e]; simpl; [eauto | discriminate]. Qed.

Lemma fmap_Ok {A B} (f : A -> B) (m : result A) b :
  f <$> m = Ok b -> exists a, m = Ok a /\ b = f a.
Proof. destruct m as [a|e]; simpl; [intros [= <-]; eauto | discriminate]. Qed.

Ltac inv_result H :=
  repeat match type of H with
  | _ ≫= _ = Ok _ =>
      let a := fresh "a" in let Ha := fresh "Ha" in
      apply bind_Ok in H; destruct H as (a & Ha & H)
  | Ok _ = Ok _ => injection H as H
  | Raise _ = Ok _ => discriminate H
  end.

Lemma py_index_Ok {A} (l : list A) i a : py_index l i = Ok a <-> l !! i = Some a.
Proof.
  unfold py_index. destruct (l !! i); split; intros E; congruence.
Qed.

Lemma py_index_lt {A} `{Inhabited A} (l : list A) i :
  i < length l -> py_index l i = Ok (l !!! i).
Proof.
  intros Hi. apply py_index_Ok. apply list_lookup_lookup_total_lt, Hi.
Qed.

Lemma py_map_Ok_length {A B} (f : A -> result B) l r :
  py_map f l = Ok r -> length r = length l.
Proof.
  revert r; induction l as [|x l IH]; simpl; intros r E.
  - injection E as <-. reflexivity.
  - inv_result E. subst r. simpl. f_equal. eauto.
Qed.

Lemma py_map_total {A B} (f : A -> result B) (g : A -> B) l :
  (forall x, In x l -> f x = Ok (g x)) -> py_map f l = Ok (map g l).
Proof.
  induction l as [|x l IH]; simpl; intros Hf; [reflexivity|].
  rewrite Hf by auto. simpl. rewrite IH by auto. reflexivity.
Qed.

(** ** The enumeration of triples *)

Lemma loop_kkk_elem `{Backend} n k :
  k ∈ loop_kkk n <-> exists k1 k2 k3, k = [k1; k2; k3] /\ k1 < n /\ k2 < n /\ k3 < n.
Proof.
  unfold loop_kkk. rewrite list_elem_of_bind. split.
  - intros (k1 & Hk & H1).
    apply list_elem_of_bind in Hk as (k2 & Hk & H2).
    apply list_elem_of_bind in Hk as (k3 & Hk & H3).
    apply list_elem_of_singleton in Hk.
    apply elem_of_seq in H1, H2, H3.
    exists k1, k2, k3. repeat split; [exact Hk | lia ..].
  - intros (k1 & k2 & k3 & -> & H1 & H2 & H3).
    exists k1. split; [|apply elem_of_seq; lia].
    apply list_elem_of_bind. exists k2. split; [|apply elem_of_seq; lia].
    apply list_elem_of_bind. exists k3. split; [|apply elem_of_seq; lia].
    apply list_elem_of_singleton. reflexivity.
Qed.

Lemma loop_kkk_NoDup `{Backend} n : NoDup (loop_kkk n).
Proof.
  unfold loop_kkk. apply NoDup_bind; [| |apply NoDup_seq].
  - intros x1 x2 y _ _ Hy1 Hy2.
    apply list_elem_of_bind in Hy1 as (a & Hy1 & _).
    apply list_elem_of_bind in Hy1 as (b & Hy1 & _).
    apply list_elem_of_bind in Hy2 as (a' & Hy2 & _).
    apply list_elem_of_bind in Hy2 as (b' & Hy2 & _).
    apply list_elem_of_singleton in Hy1, Hy2. congruence.
  - intros k1 _. apply NoDup_bind; [| |apply NoDup_seq].
    + intros x1 x2 y _ _ Hy1 Hy2.
      apply list_elem_of_bind in Hy1 as (b & Hy1 & _).
      apply list_elem_of_bind in Hy2 as (b' & Hy2 & _).
      apply list_elem_of_singleton in Hy1, Hy2. congruence.
    + intros k2 _. apply NoDup_bind; [| |apply NoDup_seq].
      * intros x1 x2 y _ _ Hy1 Hy2.
        apply list_elem_of_singleton in Hy1, Hy2. congruence.
      * intros k3 _. apply NoDup_singleton.
Qed.

Lemma bind_length_const {A B} (f : A -> list B) (l : list A) c :
  (forall x, length (f x) = c) -> length (l ≫= f) = length l * c.
Proof.
  intros Hf. induction l as [|x l IH]; [reflexivity|].
  rewrite bind_cons, length_app, IH, Hf. simpl. lia.
Qed.

Lemma loop_kkk_length `{Backend} n : length (loop_kkk n) = n ^ 3.
Proof.
  unfold loop_kkk.
  rewrite (bind_length_const _ _ (n * n)), length_seq; [simpl; lia|].
  intros k1. rewrite (bind_length_const _ _ n), length_seq; [lia|].
  intros k2. rewrite (bind_length_const _ _ 1), length_seq; [lia|].
  reflexivity.
Qed.

(** ** The conservation map and the construction of the providers *)

Section Providers.
Context `{Backend}.

Lemma swapaxes_Ok {A} `{Inhabited A} (a : ndarray A) i j :
  i < length (shape a) -> j < length (shape a) ->
  swapaxes a i j
  = Ok (tabulate (swap_at i j (shape a)) (fun ix => get a (swap_at i j ix))).
Proof.
  intros Hi Hj. unfold swapaxes.
  apply Nat.ltb_lt in Hi, Hj. rewrite Hi, Hj. reflexivity.
Qed.

Lemma swapaxes_inv {A} `{Inhabited A} (a b : ndarray A) i j :
  swapaxes a i j = Ok b ->
  b = tabulate (swap_at i j (shape a)) (fun ix => get a (swap_at i j ix)).
Proof.
  unfold swapaxes. destruct (_ && _); intros E; [congruence | discriminate].
Qed.

(** The map stored by the three constructors. *)
Lemma kconserv_swapped (m : KRHF) :
  exists kc,
    swapaxes (get_kconserv (model_cell m) (kpts m)) 1 2 = Ok kc /\
    shape kc = [length (kpts m); length (kpts m); length (kpts m)] /\
    forall k1 k2 k3,
      k1 < length (kpts m) -> k2 < length (kpts m) -> k3 < length (kpts m) ->
      get kc [k1; k2; k3] = kconserv_entry (model_cell m) (kpts m) k1 k3 k2.
Proof.
  set (n := length (kpts m)).
  eexists. split; [apply swapaxes_Ok; simpl; lia|].
  split; [reflexivity|].
  intros k1 k2 k3 H1 H2 H3.
  change (swap_at 1 2 (shape (get_kconserv (model_cell m) (kpts m))))
    with [n; n; n].
  rewrite get_tabulate by (repeat constructor; assumption).
  change (swap_at 1 2 [k1; k2; k3]) with [k1; k3; k2].
  unfold get_kconserv. fold n.
  rewrite get_tabulate by (repeat constructor; assumption).
  reflexivity.
Qed.

Lemma init_step_inv m kc c0 k c :
  PhysERI_init_step m kc c0 k = Ok c ->
  in_bounds (shape kc) k /\
  exists coeff t,
    py_map (fun j => py_index (mo_coeff m) j) (cache_key kc k) = Ok coeff /\
    ao2mo_k m coeff (cache_key kc k) = Ok t /\
    c = <[cache_key kc k := t]> c0.
Proof.
  unfold PhysERI_init_step, getitem. intros E.
  destruct (in_boundsb (shape kc) k) eqn:Eb; [|discriminate E].
  apply in_boundsb_spec in Eb. split; [exact Eb|].
  simpl in E. fold (cache_key kc k) in E.
  inv_result E. subst c. eauto.
Qed.

Lemma init_loop_dom m kc ks : forall c0 c,
  PhysERI_init_loop m kc c0 ks = Ok c ->
  dom c = dom c0 ∪ list_to_set (cache_key kc <$> ks).
Proof.
  induction ks as [|k ks IH]; simpl; intros c0 c E.
  - injection E as <-. set_solver.
  - inv_result E. apply init_step_inv in Ha as (_ & coeff & t & _ & _ & ->).
    rewrite (IH _ _ E), dom_insert_L. set_solver.
Qed.

Lemma init_loop_in_bounds m kc ks : forall c0 c,
  PhysERI_init_loop m kc c0 ks = Ok c ->
  Forall (in_bounds (shape kc)) ks.
Proof.
  induction ks as [|k ks IH]; simpl; intros c0 c E; [constructor|].
  inv_result E. constructor; [|eauto].
  apply init_step_inv in Ha. tauto.
Qed.

(** Every tensor in the cache is the transform for its key. *)
Lemma init_loop_lookup m kc ks : forall c0 c,
  PhysERI_init_loop m kc c0 ks = Ok c ->
  forall key t, c !! key = Some t ->
    c0 !! key = Some t \/
    exists coeff,
      py_map (fun j => py_index (mo_coeff m) j) key = Ok coeff /\
      ao2mo_k m coeff key = Ok t.
Proof.
  induction ks as [|k ks IH]; simpl; intros c0 c E key t Hk.
  - injection E as <-. auto.
  - inv_result E. apply init_step_inv in Ha as (_ & coeff & t' & Hc & Ht & ->).
    destruct (IH _ _ E key t Hk) as [Hin | Hex]; [|auto].
    destruct (decide (cache_key kc k = key)) as [<-|Hne].
    + rewrite lookup_insert_eq in Hin. injection Hin as <-. eauto.
    + rewrite lookup_insert_ne in Hin by exact Hne. auto.
Qed.

Lemma cache_key_inj kc : Inj (=) (=) (cache_key kc).
Proof.
  intros k k' E. unfold cache_key in E.
  apply app_inj_tail in E. tauto.
Qed.

Lemma PhysERI_init_inv m self :
  PhysERI_init m = Ok self ->
  class_of self = PhysERI /\ model self = m /\
  swapaxes (get_kconserv (model_cell m) (kpts m)) 1 2 = Ok (kconserv self) /\
  PhysERI_init_loop m (kconserv self) ∅ (loop_kkk (length (kpts m)))
  = Ok (__full_eri_k__ self).
Proof.
  unfold PhysERI_init. intros E. inv_result E. subst self. simpl. auto.
Qed.

End Providers.

(** ** Blocks of quadruples that are not conserving *)

Section ZeroBlocks.
Context `{Backend}.

Lemma new_provider_inv cls m self :
  new_provider cls m = Ok self ->
  class_of self = cls /\ model self = m /\
  swapaxes (get_kconserv (model_cell m) (kpts m)) 1 2 = Ok (kconserv self).
Proof.
  destruct cls; simpl; intros E.
  - apply PhysERI_init_inv in E. tauto.
  - unfold PhysERI4_init in E. inv_result E. subst self. auto.
  - unfold PhysERI8_init in E. inv_result E. subst self. auto.
Qed.

Lemma new_provider_kconserv_shape cls m self :
  new_provider cls m = Ok self ->
  shape (kconserv self) = [length (kpts m); length (kpts m); length (kpts m)].
Proof.
  intros E. apply new_provider_inv in E as (_ & _ & E).
  destruct (kconserv_swapped m) as (kc & E' & Hsh & _). congruence.
Qed.

Lemma zeros_of_nat (sh : list nat) :
  zeros szero (map Z.of_nat sh) = Ok (mk_ndarray sh (replicate (nelems sh) szero)).
Proof.
  unfold zeros.
  assert (Hnn : forallb (fun d => (0 <=? d)%Z) (map Z.of_nat sh) = true).
  { apply forallb_forall. intros d Hd. apply in_map_iff in Hd as (x & <- & _).
    apply Z.leb_le. lia. }
  rewrite Hnn.
  assert (Hid : map Z.to_nat (map Z.of_nat sh) = sh).
  { rewrite map_map. rewrite <- (map_id sh) at 2.
    apply map_ext. intros x. apply Nat2Z.id. }
  rewrite Hid. reflexivity.
Qed.

Lemma zero_block_shape_Ok (self : provider) (ns : list nat) item k :
  nmo self = Ok ns ->
  Forall (fun _k => _k < length (nocc self) /\ _k < length ns /\
                    nocc self !!! _k <= ns !!! _k) k ->
  zero_block_shape self item k
  = Ok (map Z.of_nat (ov_shape (nocc self) ns item k)).
Proof.
  intros Hns Hk. unfold zero_block_shape, ov_shape.
  rewrite map_map. apply py_map_total.
  intros [i _k] Hin. simpl.
  assert (Hk' : _k < length (nocc self) /\ _k < length ns /\
                nocc self !!! _k <= ns !!! _k).
  { rewrite Forall_forall in Hk. apply Hk.
    apply list_elem_of_In in Hin.
    apply elem_of_zip_r in Hin. exact Hin. }
  destruct Hk' as (Ho & Hn & Hle).
  destruct (is_o i).
  - rewrite py_index_lt by exact Ho. reflexivity.
  - rewrite Hns. simpl. rewrite !py_index_lt by assumption. simpl.
    f_equal. lia.
Qed.

Lemma PhysERI_cache_miss m self k1 k2 k3 k4 :
  PhysERI_init m = Ok self ->
  get (kconserv self) [k1; k2; k3] <> k4 ->
  __full_eri_k__ self !! [k1; k2; k3; k4] = None.
Proof.
  intros E Hne. apply PhysERI_init_inv in E as (_ & _ & _ & E).
  apply not_elem_of_dom. rewrite (init_loop_dom _ _ _ _ _ E).
  rewrite dom_empty_L, elem_of_union, elem_of_list_to_set, list_elem_of_fmap.
  intros [Hin | (k & Hk & Hin)]; [set_solver|].
  apply loop_kkk_elem in Hin as (a & b & c & -> & _).
  unfold cache_key in Hk. simpl in Hk. congruence.
Qed.

(** C3: for a provider of any of the three classes built on a model
    with one entry per k-point in each table and no more occupied than
    total orbitals, and for k-point indices [k1 .. k4] of a quadruple
    that is not conserving, [__calc_block__] returns (it does not raise)
    the array of zeros of the occupied/virtual shape of its letters. *)
Theorem calc_block_not_conserving
    (cls : provider_class) (m : KRHF) (self : provider) (ns : list nat)
    (item : list ascii) (k1 k2 k3 k4 : nat) :
  new_provider cls m = Ok self ->
  length (mo_occ m) = length (kpts m) ->
  length (mo_coeff m) = length (kpts m) ->
  k_nmo m = Ok ns ->
  Forall (fun k => k < length (kpts m) /\ k_nocc m !!! k <= ns !!! k)
         [k1; k2; k3; k4] ->
  get (kconserv self) [k1; k2; k3] <> k4 ->
  let sh := ov_shape (k_nocc m) ns item [k1; k2; k3; k4] in
  __calc_block__ self item [k1; k2; k3; k4]
  = Ok (mk_ndarray sh (replicate (nelems sh) szero)).
Proof.
  intros Hnew Hocc Hco Hns Hk Hne sh.
  pose proof (new_provider_inv _ _ _ Hnew) as (Hcls & Hm & _).
  pose proof (new_provider_kconserv_shape _ _ _ Hnew) as Hsh.
  assert (Hz : zero_block_shape self item [k1; k2; k3; k4]
               = Ok (map Z.of_nat sh)).
  { unfold sh. replace (k_nocc m) with (nocc self)
      by (unfold nocc; rewrite Hm; reflexivity).
    apply zero_block_shape_Ok.
    - unfold nmo. rewrite Hm. exact Hns.
    - unfold nocc. rewrite Hm.
      apply py_map_Ok_length in Hns.
      eapply Forall_impl; [exact Hk|]. simpl. intros k [Hlt Hle].
      unfold k_nocc at 1. rewrite length_map. lia. }
  unfold __calc_block__. rewrite Hcls.
  assert (H4 : PhysERI4__calc_block__ self item [k1; k2; k3; k4]
               = Ok (mk_ndarray sh (replicate (nelems sh) szero))).
  { unfold PhysERI4__calc_block__.
    change (take 3 [k1; k2; k3; k4]) with [k1; k2; k3].
    rewrite getitem_in_bounds.
    2:{ rewrite Hsh. inversion Hk as [|? ? [? _] Hk2]; subst.
        inversion Hk2 as [|? ? [? _] Hk3]; subst.
        inversion Hk3 as [|? ? [? _] _]; subst.
        repeat constructor; assumption. }
    simpl. destruct (Nat.eqb_spec (get (kconserv self) [k1; k2; k3]) k4) as [E|_];
      [contradiction|].
    rewrite Hz. simpl. apply zeros_of_nat. }
  destruct cls; try exact H4.
  unfold PhysERI__calc_block__.
  rewrite (PhysERI_cache_miss m self k1 k2 k3 k4 Hnew Hne).
  rewrite Hz. simpl. apply zeros_of_nat.
Qed.

End ZeroBlocks.

(** ** The cache of the eager provider *)

Section EagerCache.
Context `{Backend}.

Lemma reshape_inv {A} (a b : ndarray A) sh :
  reshape a sh = Ok b -> b = mk_ndarray sh (data a) /\ nelems sh = length (data a).
Proof.
  unfold reshape. destruct (Nat.eqb_spec (nelems sh) (length (data a)));
    intros E; [injection E as <-; auto | discriminate].
Qed.

(** The transform of four coefficient matrices has one axis per matrix,
    as long as the matrix has columns. *)
Lemma ao2mo_k_shape m coeff k t :
  ao2mo_k m coeff k = Ok t ->
  exists c0 c1 c2 c3 n0 n1 n2 n3,
    coeff !! 0 = Some c0 /\ coeff !! 1 = Some c1 /\
    coeff !! 2 = Some c2 /\ coeff !! 3 = Some c3 /\
    shape c0 !! 1 = Some n0 /\ shape c1 !! 1 = Some n1 /\
    shape c2 !! 1 = Some n2 /\ shape c3 !! 1 = Some n3 /\
    shape t = [n0; n1; n2; n3].
Proof.
  unfold ao2mo_k. intros E. cbv zeta in E.
  apply bind_Ok in E as (c0 & H0 & E). apply bind_Ok in E as (c2 & H2 & E).
  apply bind_Ok in E as (c1 & H1 & E). apply bind_Ok in E as (c3 & H3 & E).
  apply bind_Ok in E as (k0 & _ & E). apply bind_Ok in E as (k2 & _ & E).
  apply bind_Ok in E as (k1 & _ & E). apply bind_Ok in E as (k3 & _ & E).
  apply bind_Ok in E as (ks & _ & E). apply bind_Ok in E as (r & _ & E).
  apply bind_Ok in E as (sh & Hsh & E). apply bind_Ok in E as (r' & Hr & E).
  apply py_index_Ok in H0, H1, H2, H3.
  simpl in Hsh.
  apply bind_Ok in Hsh as (n0 & Hn0 & Hsh). apply bind_Ok in Hsh as (l1 & Hl & Hsh).
  apply bind_Ok in Hl as (n2 & Hn2 & Hl). apply bind_Ok in Hl as (l2 & Hl2 & Hl).
  apply bind_Ok in Hl2 as (n1 & Hn1 & Hl2). apply bind_Ok in Hl2 as (l3 & Hl3 & Hl2).
  apply bind_Ok in Hl3 as (n3 & Hn3 & Hl3).
  injection Hl3 as <-. injection Hl2 as <-. injection Hl as <-. injection Hsh as <-.
  apply py_index_Ok in Hn0, Hn1, Hn2, Hn3.
  apply reshape_inv in Hr as [-> _]. apply swapaxes_inv in E. subst t.
  exists c0, c1, c2, c3, n0, n1, n2, n3. repeat split; assumption.
Qed.

Lemma getslice4 {A} `{Inhabited A} (t : ndarray A) n1 n2 n3 n4 s1 s2 s3 s4 :
  shape t = [n1; n2; n3; n4] ->
  getslice t [s1; s2; s3; s4]
  = Ok (tabulate [slice_len s1 n1; slice_len s2 n2; slice_len s3 n3; slice_len s4 n4]
          (fun ix => get t (zip_with Nat.add
                              [slice_start s1 n1; slice_start s2 n2;
                               slice_start s3 n3; slice_start s4 n4] ix))).
Proof. intros Hsh. unfold getslice. rewrite Hsh. reflexivity. Qed.

Lemma ov_slice_start i o n :
  slice_start (if is_o i then mk_slice None (Some o) else mk_slice (Some o) None) n
  = ov_start i o n.
Proof. unfold ov_start. destruct (is_o i); reflexivity. Qed.

Lemma ov_slice_len i o n :
  slice_len (if is_o i then mk_slice None (Some o) else mk_slice (Some o) None) n
  = ov_len i o n.
Proof.
  unfold ov_len, slice_len, slice_stop, slice_start.
  destruct (is_o i); simpl; lia.
Qed.

(** Retrieval of a stored quadruple: the occupied/virtual slice of the
    stored tensor. *)
Lemma PhysERI_calc_block_cached (self : provider) i1 i2 i3 i4 k1 k2 k3 k4 t
    n1 n2 n3 n4 :
  __full_eri_k__ self !! [k1; k2; k3; k4] = Some t ->
  shape t = [n1; n2; n3; n4] ->
  Forall (fun k => k < length (nocc self)) [k1; k2; k3; k4] ->
  let o k := nocc self !!! k in
  PhysERI__calc_block__ self [i1; i2; i3; i4] [k1; k2; k3; k4]
  = Ok (tabulate [ov_len i1 (o k1) n1; ov_len i2 (o k2) n2;
                  ov_len i3 (o k3) n3; ov_len i4 (o k4) n4]
          (fun ix => get t (zip_with Nat.add
                              [ov_start i1 (o k1) n1; ov_start i2 (o k2) n2;
                               ov_start i3 (o k3) n3; ov_start i4 (o k4) n4] ix))).
Proof.
  intros Hc Hsh Hk o. unfold PhysERI__calc_block__. rewrite Hc.
  inversion Hk as [|? ? Hk1 Hk']; subst.
  inversion Hk' as [|? ? Hk2 Hk'']; subst.
  inversion Hk'' as [|? ? Hk3 Hk''']; subst.
  inversion Hk''' as [|? ? Hk4 _]; subst.
  simpl. rewrite !py_index_lt by assumption. simpl.
  rewrite (getslice4 t n1 n2 n3 n4) by exact Hsh.
  rewrite !ov_slice_start, !ov_slice_len. reflexivity.
Qed.

(** The cache built by [PhysERI(model)]: its keys, its size, its tensors
    and their retrieval. *)
Lemma PhysERI_cache_facts (m : KRHF) (self : provider) :
  PhysERI_init m = Ok self ->
  length (mo_occ m) = length (mo_coeff m) ->
  let n := length (kpts m) in
  let cache := __full_eri_k__ self in
  (forall key, is_Some (cache !! key) <->
     exists k1 k2 k3, k1 < n /\ k2 < n /\ k3 < n /\
       key = [k1; k2; k3; get (kconserv self) [k1; k2; k3]]) /\
  size cache = n ^ 3 /\
  (forall k1 k2 k3, k1 < n -> k2 < n -> k3 < n ->
     get (kconserv self) [k1; k2; k3]
     = kconserv_entry (model_cell m) (kpts m) k1 k3 k2) /\
  (forall k1 k2 k3 k4 t, cache !! [k1; k2; k3; k4] = Some t ->
     (exists coeff,
        py_map (fun j => py_index (mo_coeff m) j) [k1; k2; k3; k4] = Ok coeff /\
        ao2mo_k m coeff [k1; k2; k3; k4] = Ok t) /\
     exists n1 n2 n3 n4, shape t = [n1; n2; n3; n4] /\
     forall i1 i2 i3 i4,
       let o k := k_nocc m !!! k in
       let sh := [ov_len i1 (o k1) n1; ov_len i2 (o k2) n2;
                  ov_len i3 (o k3) n3; ov_len i4 (o k4) n4] in
       exists b,
         __calc_block__ self [i1; i2; i3; i4] [k1; k2; k3; k4] = Ok b /\
         shape b = sh /\ well_formed b /\
         forall a1 a2 a3 a4, in_bounds sh [a1; a2; a3; a4] ->
           get b [a1; a2; a3; a4]
           = get t [ov_start i1 (o k1) n1 + a1; ov_start i2 (o k2) n2 + a2;
                    ov_start i3 (o k3) n3 + a3; ov_start i4 (o k4) n4 + a4]).
Proof.
  intros Hinit Hocc n cache.
  pose proof (PhysERI_init_inv _ _ Hinit) as (Hcls & Hm & Hkc & Hloop).
  fold n in Hloop. fold cache in Hloop.
  pose proof (init_loop_dom _ _ _ _ _ Hloop) as Hdom.
  rewrite dom_empty_L, (left_id_L ∅ (∪)) in Hdom.
  destruct (kconserv_swapped m) as (kc & Hkc' & _ & Hentry).
  assert (kc = kconserv self) by congruence. subst kc.
  split; [|split; [|split; [exact Hentry|]]].
  - intros key. rewrite <- elem_of_dom, Hdom, elem_of_list_to_set, list_elem_of_fmap.
    split.
    + intros (k & -> & Hk). apply loop_kkk_elem in Hk as (k1 & k2 & k3 & -> & ?).
      exists k1, k2, k3. tauto.
    + intros (k1 & k2 & k3 & H1 & H2 & H3 & ->).
      exists [k1; k2; k3]. split; [reflexivity|].
      apply loop_kkk_elem. exists k1, k2, k3. auto.
  - rewrite <- size_dom, Hdom, size_list_to_set.
    + rewrite length_fmap. apply loop_kkk_length.
    + apply (NoDup_fmap_2 (cache_key (kconserv self)) (Inj0 := cache_key_inj _)),
        loop_kkk_NoDup.
  - intros k1 k2 k3 k4 t Ht.
    destruct (init_loop_lookup _ _ _ _ _ Hloop _ _ Ht) as [He | (coeff & Hco & Hao)];
      [rewrite lookup_empty in He; discriminate|].
    split; [eauto|].
    destruct (ao2mo_k_shape _ _ _ _ Hao)
      as (c0 & c1 & c2 & c3 & n1 & n2 & n3 & n4 & _ & _ & _ & _ & _ & _ & _ & _ & Hsh).
    exists n1, n2, n3, n4. split; [exact Hsh|].
    intros i1 i2 i3 i4 o sh.
    assert (Hk : Forall (fun k => k < length (nocc self)) [k1; k2; k3; k4]).
    { unfold nocc, k_nocc. rewrite Hm, length_map, Hocc.
      simpl in Hco.
      apply bind_Ok in Hco as (x1 & Hx1 & Hco). apply bind_Ok in Hco as (l1 & Hco & _).
      apply bind_Ok in Hco as (x2 & Hx2 & Hco). apply bind_Ok in Hco as (l2 & Hco & _).
      apply bind_Ok in Hco as (x3 & Hx3 & Hco). apply bind_Ok in Hco as (l3 & Hco & _).
      apply bind_Ok in Hco as (x4 & Hx4 & _).
      apply py_index_Ok, lookup_lt_Some in Hx1, Hx2, Hx3, Hx4.
      repeat constructor; assumption. }
    eexists. split.
    { unfold __calc_block__. rewrite Hcls.
      apply (PhysERI_calc_block_cached self i1 i2 i3 i4 k1 k2 k3 k4 t n1 n2 n3 n4);
        assumption. }
    assert (Ho : forall k, nocc self !!! k = o k).
    { intros k. unfold nocc, o. rewrite Hm. reflexivity. }
    cbv beta. rewrite !Ho. split; [reflexivity|]. split; [apply tabulate_well_formed|].
    intros a1 a2 a3 a4 Hb. rewrite get_tabulate by exact Hb. reflexivity.
Qed.

(** C6: after [PhysERI(model)] has returned, for a model with [N_k]
    k-points and one occupation table per coefficient matrix,
    - the stored keys are exactly the quadruples
      [(k1, k2, k3, kconserv[k1, k2, k3])] with [k1, k2, k3 < N_k],
      and there are [N_k ^ 3] of them;
    - a stored tensor is the transform [ao2mo_k] of the coefficient
      matrices of its key and has four axes;
    - retrieval of a stored quadruple returns the block whose shape and
      entries are those of the occupied ([:nocc]) or virtual ([nocc:])
      range of each axis of the stored tensor.
    Retrieval is a function of the provider: it has no provider to
    return, the stored tensors stay as the constructor left them. *)
Theorem PhysERI_cache_invariant (m : KRHF) (self : provider) :
  PhysERI_init m = Ok self ->
  length (mo_occ m) = length (mo_coeff m) ->
  let n := length (kpts m) in
  let cache := __full_eri_k__ self in
  (forall key, is_Some (cache !! key) <->
     exists k1 k2 k3, k1 < n /\ k2 < n /\ k3 < n /\
       key = [k1; k2; k3; get (kconserv self) [k1; k2; k3]]) /\
  size cache = n ^ 3 /\
  (forall k1 k2 k3, k1 < n -> k2 < n -> k3 < n ->
     get (kconserv self) [k1; k2; k3]
     = kconserv_entry (model_cell m) (kpts m) k1 k3 k2) /\
  (forall k1 k2 k3 k4 t, cache !! [k1; k2; k3; k4] = Some t ->
     (exists coeff,
        py_map (fun j => py_index (mo_coeff m) j) [k1; k2; k3; k4] = Ok coeff /\
        ao2mo_k m coeff [k1; k2; k3; k4] = Ok t) /\
     exists n1 n2 n3 n4, shape t = [n1; n2; n3; n4] /\
     forall i1 i2 i3 i4,
       let o k := k_nocc m !!! k in
       let sh := [ov_len i1 (o k1) n1; ov_len i2 (o k2) n2;
                  ov_len i3 (o k3) n3; ov_len i4 (o k4) n4] in
       exists b,
         __calc_block__ self [i1; i2; i3; i4] [k1; k2; k3; k4] = Ok b /\
         shape b = sh /\ well_formed b /\
         forall a1 a2 a3 a4, in_bounds sh [a1; a2; a3; a4] ->
           get b [a1; a2; a3; a4]
           = get t [ov_start i1 (o k1) n1 + a1; ov_start i2 (o k2) n2 + a2;
                    ov_start i3 (o k3) n3 + a3; ov_start i4 (o k4) n4 + a4]).
Proof. exact (PhysERI_cache_facts m self). Qed.

End EagerCache.

(** ** The eager and the 4-fold provider agree *)

Section CrossProvider.
Context `{Backend}.
Variable g : df -> list kpt -> list scalar -> list scalar -> list scalar ->
             list scalar -> scalar.
Hypothesis ao2mo_columnwise : columnwise g.

Lemma in_bounds4_inv n1 n2 n3 n4 ix :
  in_bounds [n1; n2; n3; n4] ix ->
  exists i j k l, ix = [i; j; k; l] /\ i < n1 /\ j < n2 /\ k < n3 /\ l < n4.
Proof.
  intros Hb. unfold in_bounds in Hb.
  inversion Hb as [|i ? ix1 ? Hi Hb1]; subst.
  inversion Hb1 as [|j ? ix2 ? Hj Hb2]; subst.
  inversion Hb2 as [|k ? ix3 ? Hk Hb3]; subst.
  inversion Hb3 as [|l ? ix4 ? Hl Hb4]; subst.
  inversion Hb4; subst.
  exists i, j, k, l. auto.
Qed.

Lemma div_mod_pair a b n : b < n -> (a * n + b) / n = a /\ (a * n + b) mod n = b.
Proof.
  intros Hb. split.
  - rewrite Nat.div_add_l, Nat.div_small by lia. lia.
  - rewrite (Nat.add_comm (a * n)), Nat.Div0.mod_add. apply Nat.mod_small, Hb.
Qed.

(** The entries of the transform [ao2mo_k], in the order of its
    arguments. *)
Lemma ao2mo_k_columnwise m c1 c2 c3 c4 a1 a2 a3 a4 n1 n2 n3 n4 k1 k2 k3 k4
    q1 q2 q3 q4 :
  shape c1 = [a1; n1] -> shape c2 = [a2; n2] ->
  shape c3 = [a3; n3] -> shape c4 = [a4; n4] ->
  kpts m !! k1 = Some q1 -> kpts m !! k2 = Some q2 ->
  kpts m !! k3 = Some q3 -> kpts m !! k4 = Some q4 ->
  ao2mo_k m [c1; c2; c3; c4] [k1; k2; k3; k4]
  = Ok (tabulate [n1; n2; n3; n4]
          (fun ix => g (with_df m) [q1; q3; q2; q4]
                       (column c1 (ix !!! 0)) (column c3 (ix !!! 2))
                       (column c2 (ix !!! 1)) (column c4 (ix !!! 3)))).
Proof.
  intros S1 S2 S3 S4 Hq1 Hq2 Hq3 Hq4.
  unfold ao2mo_k. simpl.
  apply py_index_Ok in Hq1, Hq2, Hq3, Hq4.
  rewrite Hq1, Hq2, Hq3, Hq4. simpl.
  rewrite (ao2mo_columnwise _ _ c1 c3 c2 c4 a1 a3 a2 a4 n1 n3 n2 n4) by assumption.
  simpl. rewrite S1, S2, S3, S4. simpl.
  unfold reshape. simpl. rewrite length_map, indices_length. simpl.
  replace (n1 * (n3 * (n2 * (n4 * 1))) =? n1 * n3 * (n2 * n4 * 1)) with true
    by (symmetry; apply Nat.eqb_eq; lia).
  simpl. rewrite swapaxes_Ok by (simpl; lia). f_equal.
  change (swap_at 1 2 [n1; n3; n2; n4]) with [n1; n2; n3; n4].
  apply tabulate_ext. intros ix Hb.
  apply in_bounds4_inv in Hb as (i & j & k & l & -> & Hi & Hj & Hk & Hl).
  change (swap_at 1 2 [i; j; k; l]) with [i; k; j; l].
  unfold get at 1. simpl shape. simpl data.
  replace (ravel [n1; n3; n2; n4] [i; k; j; l])
    with (ravel [n1 * n3; n2 * n4] [i * n3 + k; j * n4 + l])
    by (simpl; lia).
  change (map ?f (indices ?sh) !!! ?n) with (get (tabulate sh f) [i * n3 + k; j * n4 + l]).
  rewrite get_tabulate by (repeat constructor; nia).
  change ([i * n3 + k; j * n4 + l] !!! 0) with (i * n3 + k).
  change ([i * n3 + k; j * n4 + l] !!! 1) with (j * n4 + l).
  destruct (div_mod_pair i k n3 Hk) as [-> ->].
  destruct (div_mod_pair j l n4 Hl) as [-> ->].
  reflexivity.
Qed.

Lemma ov_range i o n : ov_start i o n + ov_len i o n <= n.
Proof. unfold ov_start, ov_len. destruct (is_o i); lia. Qed.

(** [c[:, :o]] and [c[:, o:]]: shape and columns. *)
Lemma column_slice (c : ndarray scalar) a n i o :
  shape c = [a; n] ->
  exists c',
    getslice c [full_slice;
                if is_o i then mk_slice None (Some o) else mk_slice (Some o) None]
    = Ok c' /\
    shape c' = [a; ov_len i o n] /\
    forall j, j < ov_len i o n -> column c' j = column c (ov_start i o n + j).
Proof.
  intros Hsh. eexists. split.
  { unfold getslice. rewrite Hsh. simpl. reflexivity. }
  rewrite ov_slice_len, ov_slice_start.
  change (slice_len full_slice a) with (a - 0).
  change (slice_start full_slice a) with 0.
  rewrite Nat.sub_0_r. split; [reflexivity|].
  intros j Hj. unfold column. simpl shape. rewrite Hsh.
  change ([a; ov_len i o n] !!! 0) with a. change ([a; n] !!! 0) with a.
  apply map_ext_in. intros p Hp. apply in_seq in Hp.
  rewrite get_tabulate by (repeat constructor; lia).
  reflexivity.
Qed.

(** The eager constructor returns on a well-formed model whose
    conservation map stays within the k-points. *)
Lemma PhysERI_init_returns (m : KRHF) :
  length (mo_coeff m) = length (kpts m) ->
  matrices (mo_coeff m) ->
  (forall k1 k2 k3,
     k1 < length (kpts m) -> k2 < length (kpts m) -> k3 < length (kpts m) ->
     kconserv_entry (model_cell m) (kpts m) k1 k2 k3 < length (kpts m)) ->
  returns (PhysERI_init m).
Proof.
  intros Hco Hmat Hrange. unfold PhysERI_init.
  destruct (kconserv_swapped m) as (kc & -> & Hsh & Hentry).
  cbn [mbind result_bind].
  assert (Hget : forall k, k < length (kpts m) ->
            exists c a n q', mo_coeff m !! k = Some c /\ shape c = [a; n] /\
                             kpts m !! k = Some q').
  { intros k Hlt.
    destruct (lookup_lt_is_Some_2 (mo_coeff m) k) as [c Hc]; [lia|].
    destruct (lookup_lt_is_Some_2 (kpts m) k Hlt) as [q' Hq'].
    unfold matrices in Hmat. rewrite Forall_forall in Hmat.
    destruct (Hmat c) as (a & n & Hs); [eapply list_elem_of_lookup_2, Hc|].
    exists c, a, n, q'. auto. }
  assert (Hloop : forall ks c0,
            (forall k, In k ks -> k ∈ loop_kkk (length (kpts m))) ->
            returns (PhysERI_init_loop m kc c0 ks)).
  { induction ks as [|k ks IH]; intros c0 Hks; [eexists; reflexivity|].
    destruct (proj1 (loop_kkk_elem (length (kpts m)) k) (Hks k (or_introl eq_refl)))
      as (k1 & k2 & k3 & -> & H1 & H2 & H3).
    pose proof (Hrange k1 k3 k2 H1 H3 H2) as H4.
    rewrite <- (Hentry k1 k2 k3 H1 H2 H3) in H4.
    destruct (Hget k1 H1) as (c1 & a1 & n1 & q1 & Hc1 & S1 & Q1).
    destruct (Hget k2 H2) as (c2 & a2 & n2 & q2 & Hc2 & S2 & Q2).
    destruct (Hget k3 H3) as (c3 & a3 & n3 & q3 & Hc3 & S3 & Q3).
    destruct (Hget _ H4) as (c4 & a4 & n4 & q4 & Hc4 & S4 & Q4).
    cbn [PhysERI_init_loop]. unfold PhysERI_init_step.
    rewrite getitem_in_bounds by (rewrite Hsh; repeat constructor; assumption).
    cbn [mbind result_bind app py_map].
    apply py_index_Ok in Hc1, Hc2, Hc3, Hc4.
    rewrite Hc1, Hc2, Hc3, Hc4. cbn [mbind result_bind].
    rewrite (ao2mo_k_columnwise m c1 c2 c3 c4 a1 a2 a3 a4 n1 n2 n3 n4
               k1 k2 k3 _ q1 q2 q3 q4) by assumption.
    cbn [mbind result_bind]. apply IH. intros k' Hk'. apply Hks. right. exact Hk'. }
  destruct (Hloop (loop_kkk (length (kpts m))) ∅) as [cache ->].
  { intros k Hk. apply list_elem_of_In, Hk. }
  eexists. reflexivity.
Qed.


End CrossProvider.

(** ** numpy.block on a grid of two-dimensional blocks *)

Section BlockFacts.
Context {A : Type} `{Inhabited A}.

Lemma concat_get_at (arrays : list (ndarray A)) axis : forall j a ix x,
  arrays !! j = Some a ->
  x < shape a !!! axis ->
  axis < length ix ->
  ix !!! axis = sum_list (map (fun b => shape b !!! axis) (take j arrays)) + x ->
  Block.concat_get arrays axis ix = get a (<[axis := x]> ix).
Proof.
  induction arrays as [|a0 rest IH]; intros j a ix x Hj Hx Hax Hix.
  - rewrite lookup_nil in Hj. discriminate.
  - destruct j as [|j]; simpl in *.
    + injection Hj as <-.
      assert (Hlt : (ix !!! axis <? shape a0 !!! axis) = true)
        by (apply Nat.ltb_lt; lia).
      rewrite Hlt. f_equal. symmetry. apply list_insert_id.
      rewrite list_lookup_lookup_total_lt by exact Hax. f_equal. lia.
    + assert (Hge : (ix !!! axis <? shape a0 !!! axis) = false)
        by (apply Nat.ltb_ge; lia).
      rewrite Hge.
      rewrite (IH j a _ x Hj Hx).
      * rewrite list_insert_insert_eq. reflexivity.
      * rewrite length_insert. exact Hax.
      * rewrite list_lookup_total_insert_eq by exact Hax. lia.
Qed.

Lemma hstack_Ok (bs : list (ndarray A)) h :
  bs <> [] ->
  Forall (fun b => exists w, shape b = [h; w]) bs ->
  Block.concatenate bs 1
  = Ok (tabulate [h; sum_list (map (fun b => shape b !!! 1) bs)]
          (Block.concat_get bs 1)).
Proof.
  intros Hne Hall. destruct bs as [|a rest]; [contradiction|].
  unfold Block.concatenate.
  pose proof (Forall_inv Hall) as (w0 & Hw0).
  assert (Hok : forallb (fun b => Block.same_off_axis 1 (shape a) (shape b)) (a :: rest)
                = true).
  { apply forallb_forall. intros b Hb.
    rewrite Forall_forall in Hall.
    destruct (Hall b) as (w & Hw); [apply list_elem_of_In, Hb|].
    unfold Block.same_off_axis. rewrite Hw0, Hw. apply bool_decide_eq_true. reflexivity. }
  rewrite Hok, Hw0. reflexivity.
Qed.

Lemma vstack_Ok (rs : list (ndarray A)) w :
  rs <> [] ->
  Forall (fun b => exists h, shape b = [h; w]) rs ->
  Block.concatenate rs 0
  = Ok (tabulate [sum_list (map (fun b => shape b !!! 0) rs); w]
          (Block.concat_get rs 0)).
Proof.
  intros Hne Hall. destruct rs as [|a rest]; [contradiction|].
  unfold Block.concatenate.
  pose proof (Forall_inv Hall) as (h0 & Hh0).
  assert (Hok : forallb (fun b => Block.same_off_axis 0 (shape a) (shape b)) (a :: rest)
                = true).
  { apply forallb_forall. intros b Hb.
    rewrite Forall_forall in Hall.
    destruct (Hall b) as (h & Hh); [apply list_elem_of_In, Hb|].
    unfold Block.same_off_axis. rewrite Hh0, Hh. apply bool_decide_eq_true. reflexivity. }
  rewrite Hok, Hh0. reflexivity.
Qed.

Lemma atleast_2d_id (a : ndarray A) h w :
  shape a = [h; w] -> Block.atleast_nd 2 a = a.
Proof.
  intros Hs. destruct a as [sh d]. simpl in Hs. subst sh. reflexivity.
Qed.

Lemma max_list_twos l : Forall (fun n => n = 2) l -> max_list (2 :: l) = 2.
Proof.
  induction 1 as [|x l -> _ IH]; [reflexivity|].
  simpl in *. lia.
Qed.

Lemma sum_take_lt {B} (f : B -> nat) (l : list B) i x :
  l !! i = Some x -> sum_list (map f (take i l)) + f x <= sum_list (map f l).
Proof.
  revert i; induction l as [|y l IH]; intros [|i] Hi; simpl in *;
    try discriminate.
  - injection Hi as ->. lia.
  - specialize (IH i Hi). lia.
Qed.

Section Grid.
Context {R C : Type}.
Variables (rows : list R) (cols : list C) (blk : R -> C -> ndarray A).
Variables (hgt : R -> nat) (wid : C -> nat).
Hypothesis rows_nonempty : rows <> [].
Hypothesis cols_nonempty : cols <> [].
Hypothesis blk_shape :
  forall r c, In r rows -> In c cols -> shape (blk r c) = [hgt r; wid c].

(** The row of blocks of [r], joined. *)
Let row_array (r : R) : ndarray A :=
  tabulate [hgt r; sum_list (map wid cols)]
           (Block.concat_get (map (blk r) cols) 1).

Lemma row_widths r : In r rows ->
  map (fun b => shape b !!! 1) (map (blk r) cols) = map wid cols.
Proof.
  intros Hr. rewrite map_map. apply map_ext_in. intros c Hc.
  rewrite (blk_shape r c Hr Hc). reflexivity.
Qed.

Lemma row_join r : In r rows ->
  Block.concatenate (map (Block.atleast_nd 2) (map (blk r) cols)) 1
  = Ok (row_array r).
Proof.
  intros Hr.
  assert (Hid : map (Block.atleast_nd 2) (map (blk r) cols) = map (blk r) cols).
  { rewrite map_map. apply map_ext_in. intros c Hc.
    eapply atleast_2d_id, blk_shape; assumption. }
  rewrite Hid, (hstack_Ok _ (hgt r)).
  - rewrite (row_widths r Hr). reflexivity.
  - destruct cols; [contradiction | discriminate].
  - apply Forall_forall. intros b Hb. apply list_elem_of_In, in_map_iff in Hb.
    destruct Hb as (c & <- & Hc). exists (wid c). apply blk_shape; assumption.
Qed.

Lemma row_array_get r j c a b :
  In r rows -> cols !! j = Some c -> a < hgt r -> b < wid c ->
  get (row_array r) [a; sum_list (map wid (take j cols)) + b]
  = get (blk r c) [a; b].
Proof.
  intros Hr Hj Ha Hb. unfold row_array.
  pose proof (sum_take_lt wid cols j c Hj) as Hle.
  rewrite get_tabulate by (repeat constructor; lia).
  assert (Hc : In c cols) by (eapply list_elem_of_In, list_elem_of_lookup_2, Hj).
  rewrite (concat_get_at _ 1 j (blk r c) _ b).
  - reflexivity.
  - change (map (blk r) cols) with (blk r <$> cols).
    rewrite list_lookup_fmap, Hj. reflexivity.
  - rewrite (blk_shape r c Hr Hc). exact Hb.
  - simpl. lia.
  - change (map (blk r) cols) with (blk r <$> cols).
    rewrite <- fmap_take.
    change (blk r <$> take j cols) with (map (blk r) (take j cols)).
    rewrite map_map.
    replace (map (fun x => shape (blk r x) !!! 1) (take j cols))
      with (map wid (take j cols)); [reflexivity|].
    apply map_ext_in. intros c' Hc'.
    rewrite (blk_shape r c' Hr); [reflexivity|].
    apply list_elem_of_In. apply list_elem_of_In in Hc'.
    eapply subseteq_take, Hc'.
Qed.

(** [numpy.block] of the grid: the shape of the result and where each
    entry of each block lies in it. *)
Lemma block_grid :
  exists M,
    Block.block (map (fun r => map (blk r) cols) rows) = Ok M /\
    shape M = [sum_list (map hgt rows); sum_list (map wid cols)] /\
    well_formed M /\
    forall i j r c a b,
      rows !! i = Some r -> cols !! j = Some c -> a < hgt r -> b < wid c ->
      get M [sum_list (map hgt (take i rows)) + a;
             sum_list (map wid (take j cols)) + b]
      = get (blk r c) [a; b].
Proof.
  unfold Block.block.
  assert (Hne : bool_decide (map (fun r => map (blk r) cols) rows = [])
                || existsb (fun r => bool_decide (r = []))
                     (map (fun r => map (blk r) cols) rows) = false).
  { apply orb_false_iff. split.
    - apply bool_decide_eq_false. destruct rows; [contradiction | discriminate].
    - apply not_true_is_false. intros Hex. apply existsb_exists in Hex.
      destruct Hex as (l & Hl & Hd). apply in_map_iff in Hl as (r & <- & _).
      apply bool_decide_eq_true in Hd. destruct cols; [contradiction | discriminate]. }
  rewrite Hne.
  assert (Hnd : max_list (2 :: map (fun a => length (shape a))
                                   (concat (map (fun r => map (blk r) cols) rows)))
                = 2).
  { apply max_list_twos. apply Forall_forall. intros n Hn.
    apply list_elem_of_In, in_map_iff in Hn as (a & <- & Ha).
    apply in_concat in Ha as (l & Hl & Ha).
    apply in_map_iff in Hl as (r & <- & Hr).
    apply in_map_iff in Ha as (c & <- & Hc).
    rewrite (blk_shape r c Hr Hc). reflexivity. }
  rewrite Hnd. change (2 - 1) with 1. change (2 - 2) with 0.
  assert (Hrows : py_map (fun r => Block.concatenate (map (Block.atleast_nd 2) r) 1)
                         (map (fun r => map (blk r) cols) rows)
                  = Ok (map row_array rows)).
  { cut (forall l, (forall r, In r l -> In r rows) ->
           py_map (fun r => Block.concatenate (map (Block.atleast_nd 2) r) 1)
                  (map (fun r => map (blk r) cols) l)
           = Ok (map row_array l)).
    { intros Hcut. apply Hcut. auto. }
    induction l as [|r l IH]; intros Hl; [reflexivity|].
    simpl. rewrite row_join by (apply Hl; left; reflexivity). simpl.
    rewrite IH by (intros; apply Hl; right; assumption). reflexivity. }
  rewrite Hrows. simpl.
  rewrite (vstack_Ok _ (sum_list (map wid cols))).
  2:{ destruct rows; [contradiction | discriminate]. }
  2:{ apply Forall_forall. intros b Hb. apply list_elem_of_In, in_map_iff in Hb.
      destruct Hb as (r & <- & _). exists (hgt r). reflexivity. }
  rewrite map_map.
  change (map (fun x => shape (row_array x) !!! 0) rows) with (map hgt rows).
  eexists. split; [reflexivity|]. split; [reflexivity|].
  split; [apply tabulate_well_formed|].
  intros i j r c a b Hi Hj Ha Hb.
  pose proof (sum_take_lt hgt rows i r Hi) as Hle.
  pose proof (sum_take_lt wid cols j c Hj) as Hle'.
  assert (Hr : In r rows) by (eapply list_elem_of_In, list_elem_of_lookup_2, Hi).
  rewrite get_tabulate by (repeat constructor; lia).
  rewrite (concat_get_at _ 0 i (row_array r) _ a).
  - simpl. apply row_array_get; assumption.
  - change (map row_array rows) with (row_array <$> rows).
    rewrite list_lookup_fmap, Hi. reflexivity.
  - exact Ha.
  - simpl. lia.
  - change (map row_array rows) with (row_array <$> rows).
    rewrite <- fmap_take.
    change (row_array <$> take i rows) with (map row_array (take i rows)).
    rewrite map_map. reflexivity.
Qed.

End Grid.
End BlockFacts.

(** ** Merged block retrieval *)

Section Merged.
Context `{RhfSlow}.

Lemma get_map_data {A B} `{Inhabited A} `{Inhabited B} (a : ndarray A)
    (f : A -> B) ix :
  well_formed a -> in_bounds (shape a) ix ->
  get (mk_ndarray (shape a) (map f (data a))) ix = f (get a ix).
Proof.
  intros Hwf Hb. unfold get. simpl.
  change (map f (data a)) with (f <$> data a).
  apply list_lookup_total_fmap.
  rewrite Hwf. apply ravel_lt, Hb.
Qed.

Lemma remaining_separate pairs_row pairs_column (its : iterators) rest :
  separate pairs_row pairs_column ->
  remaining pairs_row (advance pairs_column rest its) = remaining pairs_row its.
Proof.
  intros Hsep. destruct pairs_row as [l|id]; [reflexivity|].
  destruct pairs_column as [l'|id']; [reflexivity|]. simpl.
  rewrite lookup_insert_ne; [reflexivity|].
  intros ->. exact (Hsep id eq_refl eq_refl).
Qed.

Section Blocks.
Variables (self : provider) (item : string).
Variables (rows cols : list (nat * nat)).
Variable blk : nat * nat -> nat * nat -> ndarray scalar.
Variables hgt wid : nat * nat -> nat.
Hypothesis rows_nonempty : rows <> [].
Hypothesis cols_nonempty : cols <> [].
Hypothesis blk_returned : forall r c, In r rows -> In c cols ->
  eri_mknj_k self item [r.1; r.2; c.1; c.2] = Ok (blk r c).
Hypothesis blk_shape : forall r c, In r rows -> In c cols ->
  shape (blk r c) = [hgt r; wid c].

Lemma eri_mknj_row_Ok r : In r rows ->
  eri_mknj_row self item r cols = Ok (map (blk r) cols).
Proof.
  intros Hr. unfold eri_mknj_row. apply py_map_total.
  intros c Hc. apply blk_returned; assumption.
Qed.

Lemma eri_mknj_rows_Ok : forall l, (forall r, In r l -> In r rows) ->
  eri_mknj_rows self item l cols = (Ok (map (fun r => map (blk r) cols) l), []).
Proof.
  induction l as [|r l IH]; intros Hl; [reflexivity|].
  simpl. rewrite eri_mknj_row_Ok by (apply Hl; left; reflexivity).
  rewrite IH by (intros; apply Hl; right; assumption). reflexivity.
Qed.

(** The value of [eri_mknj] when the row argument yields [rows] once
    the column argument has been turned into the tuple [cols]. *)
Lemma eri_mknj_value pairs_row pairs_column (its : iterators) :
  remaining pairs_column its = cols ->
  remaining pairs_row (advance pairs_column [] its) = rows ->
  exists M,
    eri_mknj self item (Some pairs_row) (Some pairs_column) its
    = (Ok M, advance pairs_row [] (advance pairs_column [] its)) /\
    shape M = [sum_list (map hgt rows); sum_list (map wid cols)] /\
    well_formed M /\
    forall i j r c a b,
      rows !! i = Some r -> cols !! j = Some c -> a < hgt r -> b < wid c ->
      get M [sum_list (map hgt (take i rows)) + a;
             sum_list (map wid (take j cols)) + b]
      = div_int (get (blk r c) [a; b]) (length (kpts (model self))).
Proof.
  intros Hcols Hrows.
  destruct (block_grid rows cols blk hgt wid rows_nonempty cols_nonempty blk_shape)
    as (M0 & HM0 & Hsh & Hwf & Hget).
  exists (mk_ndarray (shape M0)
            (map (fun x => div_int x (length (kpts (model self)))) (data M0))).
  split; [|split; [exact Hsh|split]].
  - unfold eri_mknj. rewrite Hcols, Hrows.
    rewrite eri_mknj_rows_Ok by auto. simpl. rewrite HM0. reflexivity.
  - unfold well_formed in *. simpl. rewrite length_map. exact Hwf.
  - intros i j r c a b Hi Hj Ha Hb.
    pose proof (sum_take_lt hgt rows i r Hi).
    pose proof (sum_take_lt wid cols j c Hj).
    rewrite get_map_data; [|exact Hwf|rewrite Hsh; repeat constructor; lia].
    f_equal. apply Hget; assumption.
Qed.

End Blocks.

(** C7, amended: when the row argument yields the non-empty list
    [rows] and the column argument, a different object, the non-empty
    list [cols], and every per-quadruple block is returned as a
    two-dimensional array with as many rows as its row pair and as many
    columns as its column pair ask for, [eri_mknj] returns the block
    matrix whose sub-block [(i, j)] is the block of row pair [i] and
    column pair [j], every entry divided by the number of k-points. A
    column argument that is an iterator is exhausted by the call, and
    the value is the one obtained from the tuple of what it yields. *)
Theorem eri_mknj_block_matrix (self : provider) (item : string)
    (pairs_row pairs_column : iterable) (its : iterators)
    (blk : nat * nat -> nat * nat -> ndarray scalar)
    (hgt wid : nat * nat -> nat) :
  let rows := remaining pairs_row its in
  let cols := remaining pairs_column its in
  separate pairs_row pairs_column ->
  rows <> [] -> cols <> [] ->
  (forall r c, In r rows -> In c cols ->
     eri_mknj_k self item [r.1; r.2; c.1; c.2] = Ok (blk r c) /\
     shape (blk r c) = [hgt r; wid c]) ->
  exists M,
    eri_mknj self item (Some pairs_row) (Some pairs_column) its
    = (Ok M, advance pairs_row [] (advance pairs_column [] its)) /\
    (eri_mknj self item (Some pairs_row) (Some (Sequence cols)) its).1 = Ok M /\
    shape M = [sum_list (map hgt rows); sum_list (map wid cols)] /\
    well_formed M /\
    forall i j r c a b,
      rows !! i = Some r -> cols !! j = Some c -> a < hgt r -> b < wid c ->
      get M [sum_list (map hgt (take i rows)) + a;
             sum_list (map wid (take j cols)) + b]
      = div_int (get (blk r c) [a; b]) (length (kpts (model self))).
Proof.
  intros rows cols Hsep Hr Hc Hblk.
  assert (Hret : forall r c, In r rows -> In c cols ->
            eri_mknj_k self item [r.1; r.2; c.1; c.2] = Ok (blk r c))
    by (intros; apply Hblk; assumption).
  assert (Hshape : forall r c, In r rows -> In c cols ->
            shape (blk r c) = [hgt r; wid c])
    by (intros; apply Hblk; assumption).
  destruct (eri_mknj_value self item rows cols blk hgt wid Hr Hc Hret Hshape
              pairs_row pairs_column its eq_refl
              (remaining_separate _ _ _ _ Hsep))
    as (M & HM & Hsh & Hwf & Hget).
  destruct (eri_mknj_value self item rows cols blk hgt wid Hr Hc Hret Hshape
              pairs_row (Sequence cols) its eq_refl eq_refl)
    as (M' & HM' & _).
  exists M. split; [exact HM|]. split; [|auto].
  rewrite HM'. simpl.
  unfold eri_mknj in HM, HM'.
  rewrite (remaining_separate _ _ _ _ Hsep) in HM.
  simpl remaining in HM'. simpl advance in HM'.
  fold rows cols in HM, HM'.
  destruct (eri_mknj_rows self item rows cols) as [res rest].
  injection HM as HM _. injection HM' as HM' _. congruence.
Qed.

(** Without arguments, the rows and the columns are all the pairs of
    k-points. *)
Lemma eri_mknj_all_pairs (self : provider) (item : string) (its : iterators) :
  let pairs := Sequence (product_range (length (kpts (model self)))) in
  (eri_mknj self item None None its).1
  = (eri_mknj self item (Some pairs) (Some pairs) its).1.
Proof.
  intros pairs. unfold pairs, eri_mknj, new_product.
  set (n := length (kpts (model self))).
  set (id1 := fresh (dom its)).
  set (its1 := <[id1 := product_range n]> its).
  set (id2 := fresh (dom its1)).
  assert (Hne : id2 <> id1).
  { intros E. apply (is_fresh (dom its1)). fold id2. rewrite E.
    unfold its1. rewrite dom_insert_L. set_solver. }
  cbn [remaining advance].
  rewrite lookup_insert_eq. cbn [default].
  rewrite lookup_insert_ne by exact Hne.
  rewrite lookup_insert_ne by exact Hne.
  unfold its1. rewrite lookup_insert_eq. cbn [default].
  unfold Datatypes.id.
  destruct (eri_mknj_rows self item (product_range n) (product_range n))
    as [res rest].
  reflexivity.
Qed.

End Merged.

(** ** Strided views *)

Section ViewFacts.

Lemma offset_c_strides sh : forall ix,
  length ix = length sh -> Mem.offset (Mem.c_strides sh) ix = ravel sh ix.
Proof.
  unfold Mem.offset.
  induction sh as [|d sh IH]; intros [|i ix] Hl; simpl in *; try reflexivity;
    try discriminate.
  rewrite IH by lia. reflexivity.
Qed.

Lemma ravel_cons d sh i ix : ravel (d :: sh) (i :: ix) = i * nelems sh + ravel sh ix.
Proof. reflexivity. Qed.

Lemma ravel_app s1 : forall s2 i1 i2,
  length i1 = length s1 ->
  ravel (s1 ++ s2) (i1 ++ i2) = ravel s1 i1 * nelems s2 + ravel s2 i2.
Proof.
  induction s1 as [|d s1 IH]; intros s2 [|i i1] i2 Hl; simpl in *;
    try discriminate; [lia|].
  rewrite IH by lia. rewrite nelems_app. lia.
Qed.

Lemma in_bounds_app s1 s2 i1 i2 :
  in_bounds s1 i1 -> in_bounds s2 i2 -> in_bounds (s1 ++ s2) (i1 ++ i2).
Proof. apply Forall2_app. Qed.

Lemma fix_unknown_dimension_nat (sh : list nat) s :
  Mem.fix_unknown_dimension (map Z.of_nat sh) s
  = if s =? nelems sh then Ok sh else Raise ValueError.
Proof.
  unfold Mem.fix_unknown_dimension.
  assert (Hneg : filter (fun d => d < 0)%Z (map Z.of_nat sh) = []).
  { induction sh as [|d sh IH]; [reflexivity|]. simpl.
    rewrite filter_cons_False by lia. exact IH. }
  assert (Hpos : filter (fun d => 0 <= d)%Z (map Z.of_nat sh) = map Z.of_nat sh).
  { clear Hneg. induction sh as [|d sh IH]; [reflexivity|]. simpl.
    rewrite filter_cons_True by lia. f_equal. exact IH. }
  assert (Hid : map Z.to_nat (map Z.of_nat sh) = sh).
  { rewrite map_map. rewrite <- (map_id sh) at 2.
    apply map_ext. intros x. apply Nat2Z.id. }
  rewrite Hneg, Hpos, Hid. reflexivity.
Qed.

End ViewFacts.

(** ** The reshaper on homogeneous k-point spaces *)

Import Mem.

Section Amplitudes.
Context `{Dtype}.
Variables (vectors : carray) (nocc nmo : list nat) (st : store).
Variables (o n nroots : nat) (d : list num).

Let nk := length nocc.
Let nvir := n - o.
Let m := nk * nk * o * nvir.
Let sh6 := [2; nk; nk; o; nvir; nroots].
Let v6 := mk_view (buf vectors) sh6 (c_strides sh6).

Hypothesis nocc_homogeneous : homogeneous nocc.
Hypothesis nmo_homogeneous : homogeneous nmo.
Hypothesis nocc_first : nocc !! 0 = Some o.
Hypothesis nmo_first : nmo !! 0 = Some n.
Hypothesis occupied_le : o <= n.
Hypothesis vectors_shape : cshape vectors = [2 * m; nroots].
Hypothesis vectors_buffer : st !! buf vectors = Some d.
Hypothesis buffer_length : length d = 2 * m * nroots.

(** The divided buffer. *)
Let divided : list num :=
  imap (fun k x => odiv x (norm_root st v6 (unravel sh6 k !!! 5))) d.

Lemma vector_to_amplitudes_run :
  vector_to_amplitudes vectors nocc nmo st
  = (Ok (transpose v6 [5; 0; 1; 2; 3; 4]), <[buf vectors := divided]> st).
Proof.
  unfold vector_to_amplitudes.
  rewrite (proj2 (all_equal_first_spec nocc) nocc_homogeneous).
  rewrite (proj2 (all_equal_first_spec nmo) nmo_homogeneous).
  rewrite (proj2 (py_index_Ok nocc 0 o) nocc_first).
  rewrite (proj2 (py_index_Ok nmo 0 n) nmo_first).
  simpl negb. cbv iota. simpl mbind at 1.
  rewrite vectors_shape. simpl py_index. simpl mbind at 1.
  unfold reshape_view. rewrite vectors_shape.
  replace [2%Z; Z.of_nat (length nocc); Z.of_nat (length nocc); Z.of_nat o;
           (Z.of_nat n - Z.of_nat o)%Z; Z.of_nat nroots]
    with (map Z.of_nat sh6)
    by (unfold sh6, nvir, nk; simpl; rewrite Nat2Z.inj_sub by exact occupied_le;
        reflexivity).
  rewrite fix_unknown_dimension_nat.
  replace (nelems [2 * m; nroots] =? nelems sh6) with true
    by (symmetry; apply Nat.eqb_eq; unfold sh6, m; simpl; ring).
  simpl mbind. cbv iota.
  rewrite (lookup_total_correct st (buf vectors) d vectors_buffer).
  reflexivity.
Qed.

Let sh4 := [nk; nk; o; nvir].

Lemma nelems_sh4 : nelems sh4 = m.
Proof. unfold sh4, m. simpl. ring. Qed.

Lemma last_axis row r :
  row < 2 * m -> r < nroots -> unravel sh6 (row * nroots + r) !!! 5 = r.
Proof.
  intros Hrow Hr.
  set (ix := unravel (2 :: sh4) row).
  assert (Hsz : nelems (2 :: sh4) = 2 * m) by (rewrite nelems_cons, nelems_sh4; lia).
  assert (Hb : in_bounds (2 :: sh4) ix) by (apply unravel_in_bounds; lia).
  assert (Hrv : ravel (2 :: sh4) ix = row) by (apply ravel_unravel; lia).
  assert (Hix : length ix = 5) by (unfold ix; rewrite unravel_length; reflexivity).
  replace (row * nroots + r) with (ravel sh6 (ix ++ [r])).
  - rewrite unravel_ravel.
    + rewrite lookup_total_app_r by lia. rewrite Hix. reflexivity.
    + apply (in_bounds_app (2 :: sh4) [nroots]); [exact Hb|].
      repeat constructor. exact Hr.
  - change sh6 with ((2 :: sh4) ++ [nroots]).
    rewrite ravel_app by (rewrite Hix; reflexivity).
    rewrite Hrv. simpl. lia.
Qed.

Lemma flat_index row r : ravel [2 * m; nroots] [row; r] = row * nroots + r.
Proof. simpl. lia. Qed.

Lemma flat_index_lt row r :
  row < 2 * m -> r < nroots -> row * nroots + r < length d.
Proof. intros Hrow Hr. rewrite buffer_length. nia. Qed.

(** What the buffer holds after the call. *)
Lemma divided_entry row r :
  row < 2 * m -> r < nroots ->
  cget (<[buf vectors := divided]> st) vectors [row; r]
  = odiv (cget st vectors [row; r]) (norm_root st v6 r).
Proof.
  intros Hrow Hr. unfold cget.
  rewrite lookup_total_insert_eq.
  rewrite (lookup_total_correct st (buf vectors) d vectors_buffer).
  rewrite vectors_shape, flat_index.
  pose proof (flat_index_lt row r Hrow Hr) as Hlt.
  apply list_lookup_total_correct. unfold divided.
  rewrite list_lookup_imap.
  rewrite (list_lookup_lookup_total_lt d _ Hlt). cbv beta.
  rewrite last_axis by assumption. reflexivity.
Qed.

(** The six-axis view is the matrix read with its row index split in
    five. *)
Lemma view6_entry (st' : store) dd mi r :
  length mi = 4 ->
  vget st' v6 (dd :: mi ++ [r])
  = cget st' vectors [ravel (2 :: sh4) (dd :: mi); r].
Proof.
  intros Hmi. unfold vget, cget, v6. cbn [vbuf vstrides].
  rewrite offset_c_strides by (simpl; rewrite length_app, Hmi; reflexivity).
  rewrite vectors_shape, flat_index.
  change sh6 with ((2 :: sh4) ++ [nroots]).
  change (dd :: mi ++ [r]) with ((dd :: mi) ++ [r]).
  rewrite ravel_app by (simpl; rewrite Hmi; reflexivity).
  f_equal. simpl. lia.
Qed.

(** The returned tensor is the six-axis view with the root axis
    first. *)
Lemma transposed_entry (st' : store) r dd mi :
  length mi = 4 ->
  vget st' (transpose v6 [5; 0; 1; 2; 3; 4]) (r :: dd :: mi)
  = vget st' v6 (dd :: mi ++ [r]).
Proof.
  intros Hmi.
  destruct mi as [|k1 [|k2 [|i [|a [|]]]]]; try discriminate Hmi.
  unfold vget, transpose, offset. simpl. f_equal. lia.
Qed.

Lemma in_bounds_sh4_length mi : in_bounds sh4 mi -> length mi = 4.
Proof. intros Hb. apply in_bounds_length in Hb. exact Hb. Qed.

Lemma row_of_index dd mi :
  dd < 2 -> in_bounds sh4 mi -> ravel (2 :: sh4) (dd :: mi) < 2 * m.
Proof.
  intros Hd Hb.
  pose proof (ravel_lt (2 :: sh4) (dd :: mi)) as Hlt.
  rewrite nelems_cons, nelems_sh4 in Hlt. apply Hlt.
  constructor; assumption.
Qed.

(** The sums of the code run over the rows of one half of the matrix. *)
Lemma norm_entry_rows dd r :
  norm_entry st v6 dd r
  = osum (map (fun row => abs2 (cget st vectors [dd * m + row; r])) (seq 0 m)).
Proof.
  unfold norm_entry. change (take 4 (drop 1 (vshape v6))) with sh4.
  unfold indices. rewrite nelems_sh4, map_map. f_equal.
  apply map_ext_in. intros row Hrow. apply in_seq in Hrow.
  rewrite view6_entry by (rewrite unravel_length; reflexivity).
  rewrite ravel_cons, ravel_unravel by (rewrite nelems_sh4; lia).
  rewrite nelems_sh4. reflexivity.
Qed.

Lemma norm_root_column r :
  norm_root st v6 r = osqrt (column_norm st vectors m r).
Proof.
  unfold norm_root, column_norm. rewrite !norm_entry_rows.
  f_equal.
  replace (map (fun row => abs2 (cget st vectors [0 * m + row; r])) (seq 0 m))
    with (map (fun row => abs2 (cget st vectors [row; r])) (seq 0 m))
    by reflexivity.
  replace (map (fun row => abs2 (cget st vectors [1 * m + row; r])) (seq 0 m))
    with (map (fun row => abs2 (cget st vectors [m + row; r])) (seq 0 m));
    [reflexivity|].
  apply map_ext. intros row. do 3 f_equal. lia.
Qed.

(** The entries of the returned tensor. *)
Lemma amplitude_entry r dd mi :
  r < nroots -> dd < 2 -> in_bounds sh4 mi ->
  vget (<[buf vectors := divided]> st) (transpose v6 [5; 0; 1; 2; 3; 4])
       (r :: dd :: mi)
  = odiv (cget st vectors [ravel (2 :: sh4) (dd :: mi); r])
         (osqrt (column_norm st vectors m r)).
Proof.
  intros Hr Hd Hb.
  rewrite transposed_entry, view6_entry by (apply in_bounds_sh4_length, Hb).
  rewrite divided_entry by (auto using row_of_index).
  rewrite norm_root_column. reflexivity.
Qed.


(** *** Normalisation *)

Lemma osum_finite {B} (g : B -> option R) (h : B -> R) (l : list B) :
  (forall x, In x l -> g x = Some (h x)) ->
  osum (map g l) = Some (rsum (map h l)).
Proof.
  induction l as [|x l IH]; intros Hg; [reflexivity|].
  simpl. rewrite Hg by (left; reflexivity).
  rewrite IH by (intros; apply Hg; right; assumption). reflexivity.
Qed.

Lemma rsum_div {B} (h : B -> R) (c : R) (l : list B) :
  rsum (map (fun x => h x / c)%R l) = (rsum (map h l) / c)%R.
Proof.
  induction l as [|x l IH]; simpl; [unfold Rdiv; ring|].
  rewrite IH. unfold Rdiv. ring.
Qed.

Lemma rsum_rows (F : nat -> R) dd :
  rsum (map (fun mi => F (ravel (2 :: sh4) (dd :: mi))) (indices sh4))
  = rsum (map (fun row => F (dd * m + row)) (seq 0 m)).
Proof.
  unfold indices. rewrite nelems_sh4, map_map. f_equal.
  apply map_ext_in. intros row Hrow. apply in_seq in Hrow.
  rewrite ravel_cons, ravel_unravel by (rewrite nelems_sh4; lia).
  rewrite nelems_sh4. reflexivity.
Qed.

Hypothesis buffer_finite : finite d.

Lemma entry_finite row r :
  row < 2 * m -> r < nroots ->
  exists t, cget st vectors [row; r] = Some t.
Proof.
  intros Hrow Hr. unfold cget.
  rewrite (lookup_total_correct st (buf vectors) d vectors_buffer).
  rewrite vectors_shape, flat_index.
  pose proof (flat_index_lt row r Hrow Hr) as Hlt.
  unfold finite in buffer_finite. rewrite Forall_lookup in buffer_finite.
  destruct (buffer_finite _ _ (list_lookup_lookup_total_lt d _ Hlt)) as [t Ht].
  eauto.
Qed.

Lemma abs2_finite row r :
  row < 2 * m -> r < nroots ->
  abs2 (cget st vectors [row; r]) = Some (sqmod (cget st vectors [row; r])).
Proof.
  intros Hrow Hr. destruct (entry_finite row r Hrow Hr) as [t ->]. reflexivity.
Qed.

Lemma column_norm_finite r :
  r < nroots ->
  column_norm st vectors m r
  = Some (2 * (rsum (map (fun row => sqmod (cget st vectors [row; r])) (seq 0 m))
               - rsum (map (fun row => sqmod (cget st vectors [(m + row)%nat; r]))
                           (seq 0 m))))%R.
Proof.
  intros Hr. unfold column_norm.
  rewrite (osum_finite (fun row => abs2 (cget st vectors [row; r]))
             (fun row => sqmod (cget st vectors [row; r]))).
  2:{ intros row Hrow. apply in_seq in Hrow. apply abs2_finite; lia. }
  rewrite (osum_finite (fun row => abs2 (cget st vectors [m + row; r]))
             (fun row => sqmod (cget st vectors [m + row; r]))).
  2:{ intros row Hrow. apply in_seq in Hrow. apply abs2_finite; lia. }
  reflexivity.
Qed.

(** A root of positive norm is divided by the square root of its
    norm. *)
Lemma amplitude_sqmod r dd mi N :
  r < nroots -> dd < 2 -> in_bounds sh4 mi ->
  column_norm st vectors m r = Some N -> (0 < N)%R ->
  abs2 (vget (<[buf vectors := divided]> st)
             (transpose v6 [5; 0; 1; 2; 3; 4]) (r :: dd :: mi))
  = Some (sqmod (cget st vectors [ravel (2%nat :: sh4) (dd :: mi); r]) / N)%R.
Proof.
  intros Hr Hd Hb HN Hpos.
  rewrite amplitude_entry by assumption. rewrite HN.
  destruct (entry_finite (ravel (2 :: sh4) (dd :: mi)) r) as [t Ht];
    [apply row_of_index; assumption | exact Hr |].
  rewrite Ht. unfold osqrt, odiv. simpl.
  destruct (Rlt_dec N 0) as [Hneg|_]; [lra|]. simpl.
  assert (Hs : (0 < sqrt N)%R) by (apply sqrt_lt_R0, Hpos).
  destruct (Req_dec_T (sqrt N) 0) as [Hz|_]; [lra|]. simpl.
  unfold sqmod, abs2. cbn [fmap option_fmap option_map default from_option].
  f_equal. rewrite dabs_ddiv by exact Hs.
  assert (Hsq : (sqrt N * sqrt N = N)%R) by (apply sqrt_sqrt; lra).
  remember (sqrt N) as s eqn:Es. rewrite <- Hsq.
  unfold Datatypes.id. field. lra.
Qed.

Lemma amplitude_norm_one r N :
  r < nroots ->
  column_norm st vectors m r = Some N -> (0 < N)%R ->
  amplitude_norm (<[buf vectors := divided]> st)
                 (transpose v6 [5; 0; 1; 2; 3; 4]) r
  = Some 1%R.
Proof.
  intros Hr HN Hpos. unfold amplitude_norm.
  change (drop 2 (vshape (transpose v6 [5; 0; 1; 2; 3; 4]))) with sh4.
  cbv zeta.
  set (out := transpose v6 [5; 0; 1; 2; 3; 4]).
  set (st' := <[buf vectors := divided]> st).
  rewrite (osum_finite (fun mi => abs2 (vget st' out (r :: 0 :: mi)))
             (fun mi => sqmod (cget st vectors [ravel (2%nat :: sh4) (0%nat :: mi); r]) / N)%R).
  2:{ intros mi Hmi. apply indices_in_bounds in Hmi.
      apply amplitude_sqmod; auto. }
  rewrite (osum_finite (fun mi => abs2 (vget st' out (r :: 1 :: mi)))
             (fun mi => sqmod (cget st vectors [ravel (2%nat :: sh4) (1%nat :: mi); r]) / N)%R).
  2:{ intros mi Hmi. apply indices_in_bounds in Hmi.
      apply amplitude_sqmod; auto. }
  cbn [mbind option_bind].
  rewrite !rsum_div.
  set (SX := rsum (map (fun row => sqmod (cget st vectors [row; r])) (seq 0 m))).
  set (SY := rsum (map (fun row => sqmod (cget st vectors [m + row; r])) (seq 0 m))).
  pose proof (rsum_rows (fun row => sqmod (cget st vectors [row; r])) 0) as E0.
  pose proof (rsum_rows (fun row => sqmod (cget st vectors [row; r])) 1) as E1.
  cbv beta in E0, E1. rewrite E0, E1.
  change (rsum (map (fun row => sqmod (cget st vectors [0 * m + row; r])) (seq 0 m)))
    with SX.
  replace (rsum (map (fun row => sqmod (cget st vectors [1 * m + row; r])) (seq 0 m)))
    with SY
    by (unfold SY; f_equal; apply map_ext; intros row; do 3 f_equal; lia).
  assert (HN' : N = (2 * (SX - SY))%R).
  { pose proof (column_norm_finite r Hr) as E. fold SX SY in E. congruence. }
  f_equal. rewrite HN' in Hpos |- *. field. lra.
Qed.


(** A root whose norm is not positive has no finite amplitudes: the
    divisor is [nan] or zero. *)
Lemma amplitude_norm_undefined r N :
  r < nroots -> 0 < m ->
  column_norm st vectors m r = Some N -> (N <= 0)%R ->
  amplitude_norm (<[buf vectors := divided]> st)
                 (transpose v6 [5; 0; 1; 2; 3; 4]) r
  = None.
Proof.
  intros Hr Hm HN Hle. unfold amplitude_norm.
  change (drop 2 (vshape (transpose v6 [5; 0; 1; 2; 3; 4]))) with sh4.
  cbv zeta. unfold indices. rewrite nelems_sh4.
  assert (Hseq : forall k, 0 < k -> seq 0 k = 0 :: seq 1 (k - 1)).
  { intros [|k] Hk; [lia|]. simpl. rewrite Nat.sub_0_r. reflexivity. }
  rewrite (Hseq m Hm). cbn [map].
  rewrite (amplitude_entry r 0 (unravel sh4 0));
    [|exact Hr|lia|apply unravel_in_bounds; rewrite nelems_sh4; lia].
  rewrite HN.
  assert (Hdiv : forall y : num, odiv y (osqrt (Some N)) = None).
  { intros y. unfold odiv, osqrt. cbn [mbind option_bind].
    destruct (Rlt_dec N 0) as [Hneg|Hnn].
    - destruct y; reflexivity.
    - assert (N = 0%R) by lra. subst N. rewrite sqrt_0.
      destruct y as [t|]; [|reflexivity]. cbn [mbind option_bind].
      destruct (Req_dec_T 0 0) as [_|Hne]; [reflexivity|lra]. }
  rewrite Hdiv. reflexivity.
Qed.


(** C1, amended: on homogeneous counts [nocc], [nmo], for a matrix of
    [2 * nk^2 * nocc * nvir] rows and [nroots] columns of finite
    numbers, [vector_to_amplitudes] returns a view with axes (root,
    x/y, row k-point, column k-point, occupied index, virtual index)
    whose entry at [(r, dd, k1, k2, i, a)] is the entry of column [r]
    of the matrix at the row-major offset of [(dd, k1, k2, i, a)],
    divided by the square root of [2 * (sum|x|^2 - sum|y|^2)] of that
    column; and for every root for which this quantity is positive on
    the input, it is 1 on the returned tensor (in exact arithmetic). *)
Theorem vector_to_amplitudes_normalised :
  exists out st',
    vector_to_amplitudes vectors nocc nmo st = (Ok out, st') /\
    vshape out = [nroots; 2; nk; nk; o; n - o] /\
    (forall r dd k1 k2 i a,
       r < nroots -> dd < 2 -> k1 < nk -> k2 < nk -> i < o -> a < n - o ->
       vget st' out [r; dd; k1; k2; i; a]
       = odiv (cget st vectors [ravel [2; nk; nk; o; n - o] [dd; k1; k2; i; a]; r])
              (osqrt (column_norm st vectors m r))) /\
    (forall r N,
       r < nroots -> column_norm st vectors m r = Some N -> (0 < N)%R ->
       amplitude_norm st' out r = Some 1%R).
Proof.
  exists (transpose v6 [5; 0; 1; 2; 3; 4]), (<[buf vectors := divided]> st).
  split; [apply vector_to_amplitudes_run|].
  split; [reflexivity|]. split.
  - intros r dd k1 k2 i a Hr Hd H1 H2 Hi Ha.
    apply (amplitude_entry r dd [k1; k2; i; a]); [assumption..|].
    repeat constructor; assumption.
  - intros r N Hr HN Hpos. apply (amplitude_norm_one r N); assumption.
Qed.

(** C10: on homogeneous counts, for a C-contiguous matrix of
    [2 * nk^2 * nocc * nvir] rows and [nroots] columns,
    [vector_to_amplitudes] returns a view of the buffer of its argument
    and leaves in that buffer, at every entry of every column, the
    entry divided by the square root of
    [2 * (sum|x|^2 - sum|y|^2)] of the column: the array of the caller
    holds the normalised values. No other buffer is written. *)
Theorem vector_to_amplitudes_writes_argument :
  exists out st',
    vector_to_amplitudes vectors nocc nmo st = (Ok out, st') /\
    vbuf out = buf vectors /\
    (forall row r, row < 2 * m -> r < nroots ->
       cget st' vectors [row; r]
       = odiv (cget st vectors [row; r]) (osqrt (column_norm st vectors m r))) /\
    (forall b, b <> buf vectors -> st' !! b = st !! b).
Proof.
  exists (transpose v6 [5; 0; 1; 2; 3; 4]), (<[buf vectors := divided]> st).
  split; [apply vector_to_amplitudes_run|].
  split; [reflexivity|]. split.
  - intros row r Hrow Hr. rewrite divided_entry, norm_root_column by assumption.
    reflexivity.
  - intros b Hb. apply lookup_insert_ne. congruence.
Qed.


End Amplitudes.

(** ** The driver and the container *)

Section Container.
Context `{RhfSlow}.

(** What [kernel] does once it holds a provider. *)
Lemma kernel_provider (p : provider) driver nroots return_eri :
  kernel (inr p) driver nroots return_eri
  = ([],
     m ← build_matrix p;
     '(vals, vecs) ← eig m driver nroots;
     ns ← nmo p;
     vecs ← vector_to_amplitudes_fresh vecs (nocc p) ns;
     Ok (vals, vecs, if return_eri then Some p else None)).
Proof. reflexivity. Qed.

(** With [return_eri] set, the provider is part of the value. *)
Lemma kernel_returns_provider model driver nroots log vals vecs r :
  kernel model driver nroots true = (log, Ok (vals, vecs, r)) ->
  exists p, r = Some p /\
    match model with
    | inl mf =>
        new_provider (if iscomplexobj (mo_coeff mf) then PhysERI4 else PhysERI8) mf
        = Ok p
    | inr p0 => p0 = p
    end /\
    kernel (inr p) driver nroots true = ([], Ok (vals, vecs, Some p)) /\
    forall return_eri,
      kernel model driver nroots return_eri
      = (log, Ok (vals, vecs, if return_eri then Some p else None)).
Proof.
  unfold kernel.
  set (chain := fun (return_eri : bool) (eri : result provider) =>
         eri ← eri; m ← build_matrix eri;
         '(vals, vecs) ← eig m driver nroots;
         ns ← nmo eri;
         vecs ← vector_to_amplitudes_fresh vecs (nocc eri) ns;
         Ok (vals, vecs, if return_eri then Some eri else None)).
  assert (Hchain : forall e, chain true e = Ok (vals, vecs, r) ->
            exists p, r = Some p /\ e = Ok p /\
              forall b, chain b (Ok p)
                        = Ok (vals, vecs, if b then Some p else None)).
  { intros e He. unfold chain in *.
    destruct e as [p|ex]; [|discriminate He]. simpl in He.
    exists p. cbn [mbind result_bind].
    destruct (build_matrix p) as [mat|]; [|discriminate He]. simpl in He |- *.
    destruct (eig mat driver nroots) as [[vals' vecs']|]; [|discriminate He].
    simpl in He |- *.
    destruct (nmo p) as [ns|]; [|discriminate He]. simpl in He |- *.
    destruct (vector_to_amplitudes_fresh vecs' (nocc p) ns) as [amp|];
      [|discriminate He].
    simpl in He |- *. injection He as <- <- <-.
    repeat split; try (intros []; reflexivity). }
  destruct model as [mf|p0].
  - destruct (iscomplexobj (mo_coeff mf)); intros E;
      apply pair_equal_spec in E as [<- He];
      [apply (Hchain (PhysERI4_init mf)) in He
      |apply (Hchain (PhysERI8_init mf)) in He];
      destruct He as (p & -> & Hp & Hb);
      exists p; (split; [reflexivity|]); (split; [exact Hp|]);
      (split; [f_equal; apply (Hb true)|]);
      intros b; rewrite Hp; f_equal; apply Hb.
  - intros E. apply pair_equal_spec in E as [<- He].
    apply (Hchain (Ok p0)) in He. destruct He as (p & -> & Hp & Hb).
    injection Hp as ->.
    exists p. split; [reflexivity|]. split; [reflexivity|].
    split; [f_equal; apply (Hb true)|].
    intros b. f_equal. apply Hb.
Qed.

(** C9: when [TDRHF.kernel] raises, the container is as it was before
    the call, field by field ([e], [xy], [eri] and the configuration);
    and it raises only the exception that [kernel] raised. *)
Theorem TDRHF_kernel_failure (self self' : TDRHF) (log : list string) (ex : exn) :
  TDRHF_kernel self = (log, Raise ex, self') ->
  self' = self /\
  e self' = e self /\ xy self' = xy self /\ eri self' = eri self /\
  kernel (match eri self with None => inl (_scf self) | Some p => inr p end)
         (driver self) (nroots self) true
  = (log, Raise ex).
Proof.
  unfold TDRHF_kernel.
  destruct (kernel _ (driver self) (nroots self) true) as [log' r] eqn:Ek.
  destruct r as [[[vals vecs] [p|]]|ex'].
  - intros E. inversion E.
  - apply kernel_returns_provider in Ek as (p & Hp & _). discriminate Hp.
  - intros [= <- <- <-]. auto.
Qed.

(** C8: on a new container, configured or not, after a first
    call of [TDRHF.kernel] that returns, the container holds the
    provider built by that call ([PhysERI4] or [PhysERI8] of the model);
    a second call builds nothing (it passes the stored provider to
    [kernel], and no construction is logged), returns the same
    eigenvalues and amplitudes and leaves the container as the first
    call left it; and these are the values of [kernel] called on the
    model with the same driver and number of roots. *)
Theorem TDRHF_kernel_twice (mf : KRHF) (drv : option string) (nr : option nat)
    (log : list string) (vals : eigenvalues) (vecs : amplitudes)
    (self1 : TDRHF) :
  let self0 := configure (TDRHF_init mf) drv nr in
  TDRHF_kernel self0 = (log, Ok (vals, vecs), self1) ->
  exists p,
    new_provider (if iscomplexobj (mo_coeff mf) then PhysERI4 else PhysERI8) mf
    = Ok p /\
    self1 = mk_TDRHF mf drv nr (Some p) (Some vecs) (Some vals) /\
    TDRHF_kernel self1 = ([], Ok (vals, vecs), self1) /\
    kernel (inr p) drv nr true = ([], Ok (vals, vecs, Some p)) /\
    kernel (inl mf) drv nr false = (log, Ok (vals, vecs, None)).
Proof.
  intros self0. unfold TDRHF_kernel. simpl.
  destruct (kernel (inl mf) drv nr true) as [log' r] eqn:Ek.
  destruct r as [[[vals' vecs'] [p|]]|ex']; [|intros E; inversion E..].
  intros [= <- <- <- <-].
  destruct (kernel_returns_provider _ _ _ _ _ _ _ Ek)
    as (p' & [= <-] & Hnew & Hp & Hall).
  exists p. split; [exact Hnew|].
  split; [reflexivity|]. cbn [eri _scf driver nroots]. rewrite Hp.
  split; [reflexivity|]. split; [reflexivity|].
  apply (Hall false).
Qed.

End Container.

(** * Examples on the small system *)

Section Examples.
#[local] Existing Instance Toy.backend.
#[local] Existing Instance Toy.rhf_slow.

Lemma toy_columnwise : columnwise Toy.g.
Proof.
  intros d ks c0 c1 c2 c3 a0 a1 a2 a3 n0 n1 n2 n3 S0 S1 S2 S3.
  change (df_ao2mo d [c0; c1; c2; c3] ks) with (Toy.ao2mo d [c0; c1; c2; c3] ks).
  unfold Toy.ao2mo. cbn in S0, S1, S2, S3. rewrite S0, S1, S2, S3. reflexivity.
Qed.

Lemma toy_matrices : matrices (mo_coeff Toy.mf).
Proof. repeat constructor; eexists; eexists; reflexivity. Qed.

(** C3 on the 4-fold provider: the quadruple [(0, 0, 0, 1)] is not
    conserving, the block of letters [ovov] is one zero. *)
Lemma calc_block_not_conserving_witness :
  exists self,
    new_provider PhysERI4 Toy.mf = Ok self /\
    __calc_block__ self ["o"; "v"; "o"; "v"]%char [0; 0; 0; 1]
    = Ok (mk_ndarray [1; 1; 1; 1] [0%Q]).
Proof.
  eexists. split; [reflexivity|].
  apply (calc_block_not_conserving PhysERI4 Toy.mf _ [2; 2]).
  - reflexivity.
  - reflexivity.
  - reflexivity.
  - reflexivity.
  - repeat constructor.
  - cbv. discriminate.
Defined.

(** C6 on the small system: eight tensors are stored. *)
Lemma PhysERI_cache_invariant_witness :
  exists self,
    PhysERI_init Toy.mf = Ok self /\ size (__full_eri_k__ self) = 2 ^ 3.
Proof.
  eexists. split; [reflexivity|].
  eapply (PhysERI_cache_invariant Toy.mf); reflexivity.
Defined.


End Examples.
Section Examples7.
#[local] Existing Instance Toy.backend.
#[local] Existing Instance Toy.rhf_slow.

(** C7, as stated, fails: with no row pair the list of rows handed to
    [numpy.block] is empty, and the call raises [ValueError]. *)
Lemma eri_mknj_without_rows_raises :
  exists self,
    PhysERI4_init Toy.mf = Ok self /\
    eri_mknj self "mknj" (Some (Sequence [])) (Some (Sequence [(0, 0)])) ∅
    = (Raise ValueError, ∅).
Proof. eexists. split; reflexivity. Defined.

(** C7 on the small system: two row pairs given as a list, two column
    pairs given as an iterator. The blocks have 1 and 2 rows, 1 and 2
    columns; the iterator is exhausted by the call. The entry 11001 of
    the last block, divided by the two k-points, is 11001/2. *)
Lemma eri_mknj_block_matrix_witness :
  exists self M its',
    PhysERI4_init Toy.mf = Ok self /\
    eri_mknj self "mknj" (Some (Sequence [(0, 0); (1, 0)])) (Some (Iterator 0))
             {[ 0 := [(0, 1); (1, 1)] ]}
    = (Ok M, its') /\
    its' !! 0 = Some [] /\
    shape M = [3; 3] /\
    get M [1; 2] = (11001 # 2)%Q.
Proof.
  evar (self : @provider Toy.backend).
  assert (Hself : PhysERI4_init Toy.mf = Ok self) by (unfold self; reflexivity).
  destruct (@eri_mknj_block_matrix Toy.backend float64 Toy.rhf_slow self "mknj"
              (Sequence [(0, 0); (1, 0)]) (Iterator 0) {[ 0 := [(0, 1); (1, 1)] ]}
              (fun r c => tabulate [r.1 + 1; c.1 + 1]
                 (fun ix => inject_Z (Z.of_nat
                    (1000 * ravel [2; 2; 2; 2] [r.1; r.2; c.1; c.2]
                     + 10 * ix !!! 0 + ix !!! 1))))
              (fun r => r.1 + 1) (fun c => c.1 + 1))
    as (M & Hrun & _ & Hshape & _ & Hget).
  - intros id Hid. discriminate Hid.
  - discriminate.
  - vm_compute. discriminate.
  - intros r c _ _. split; reflexivity.
  - exists self, M. eexists. split; [exact Hself|]. split; [exact Hrun|].
    split; [reflexivity|]. split; [exact Hshape|].
    exact (Hget 1 1 (1, 0) (1, 1) 0 1 eq_refl eq_refl
             ltac:(cbn; lia) ltac:(cbn; lia)).
Defined.

End Examples7.
Section Examples1.

Lemma homogeneous_singleton x : homogeneous [x].
Proof. intros a b [<-|[]] [<-|[]]. reflexivity. Qed.

Lemma column_norm_2x1 (x y : R) :
  column_norm (H := float64) {[ 0 := [Some x; Some y] ]} (mk_carray 0 [2; 1]) 1 0
  = Some (2 * (x * x - y * y))%R.
Proof.
  unfold column_norm. change (seq 0 1) with [0]. cbn [map].
  change (cget {[0 := [Some x; Some y]]} (mk_carray 0 [2; 1]) [0; 0]) with (Some x).
  change (cget {[0 := [Some x; Some y]]} (mk_carray 0 [2; 1]) [1 + 0; 0])
    with (Some y).
  unfold abs2, osum.
  cbn [fmap option_fmap option_map foldr mbind option_bind dabs float64].
  f_equal.
  rewrite !pow2_abs. ring.
Qed.

(** C1, as stated, fails: for the one-root matrix with x = 0 and y = 1
    the quantity [2 * (sum|x|^2 - sum|y|^2)] is -2, its square root is
    [nan], and so is every returned amplitude. *)
Lemma vector_to_amplitudes_negative_norm :
  exists out st',
    vector_to_amplitudes (H := float64) (mk_carray 0 [2; 1]) [1] [2]
                         {[ 0 := [Some 0%R; Some 1%R] ]}
    = (Ok out, st') /\
    amplitude_norm st' out 0 = None /\
    amplitude_norm st' out 0 <> Some 1%R.
Proof.
  eexists. eexists. split.
  { apply (@vector_to_amplitudes_run float64 (mk_carray 0 [2; 1]) [1] [2]
             {[ 0 := [Some 0%R; Some 1%R] ]} 1 2 1 [Some 0%R; Some 1%R]);
      try reflexivity; try apply homogeneous_singleton. lia. }
  assert (Hnone : forall A (x : option A) y, x = None -> x = None /\ x <> Some y).
  { intros A x y ->. split; [reflexivity | discriminate]. }
  apply Hnone.
  apply (@amplitude_norm_undefined float64 (mk_carray 0 [2; 1]) [1]
           {[ 0 := [Some 0%R; Some 1%R] ]} 1 2 1 [Some 0%R; Some 1%R])
    with (N := (2 * (0 * 0 - 1 * 1))%R);
    first [reflexivity | cbn; lia | lra | apply column_norm_2x1].
Defined.

(** C1 on the one-root matrix with x = 3 and y = 1: the norm of the
    column is 16, the returned root has norm 1. *)
Lemma vector_to_amplitudes_normalised_witness :
  exists out st',
    vector_to_amplitudes (H := float64) (mk_carray 0 [2; 1]) [1] [2]
                         {[ 0 := [Some 3%R; Some 1%R] ]}
    = (Ok out, st') /\
    amplitude_norm st' out 0 = Some 1%R.
Proof.
  destruct (@vector_to_amplitudes_normalised float64 (mk_carray 0 [2; 1]) [1] [2]
              {[ 0 := [Some 3%R; Some 1%R] ]} 1 2 1 [Some 3%R; Some 1%R])
    as (out & st' & Hrun & _ & _ & Hnorm);
    try reflexivity; try apply homogeneous_singleton; try lia.
  - repeat constructor; eexists; reflexivity.
  - exists out, st'. split; [exact Hrun|].
    apply (Hnorm 0 (2 * (3 * 3 - 1 * 1))%R); [lia | apply column_norm_2x1 | lra].
Defined.

(** C10 on the same matrix: after the call the buffer of the argument
    holds 3/4 and 1/4. *)
Lemma vector_to_amplitudes_writes_argument_witness :
  exists out st',
    vector_to_amplitudes (H := float64) (mk_carray 0 [2; 1]) [1] [2]
                         {[ 0 := [Some 3%R; Some 1%R] ]}
    = (Ok out, st') /\
    vbuf out = 0 /\
    cget st' (mk_carray 0 [2; 1]) [0; 0] = Some (3 / 4)%R /\
    cget st' (mk_carray 0 [2; 1]) [1; 0] = Some (1 / 4)%R.
Proof.
  destruct (@vector_to_amplitudes_writes_argument float64 (mk_carray 0 [2; 1])
              [1] [2] {[ 0 := [Some 3%R; Some 1%R] ]} 1 2 1 [Some 3%R; Some 1%R])
    as (out & st' & Hrun & Hbuf & Hdiv & _);
    try reflexivity; try apply homogeneous_singleton; try lia.
  exists out, st'. split; [exact Hrun|]. split; [exact Hbuf|].
  assert (Hs : osqrt (column_norm (H := float64) {[ 0 := [Some 3%R; Some 1%R] ]}
                        (mk_carray 0 [2; 1]) 1 0) = Some 4%R).
  { rewrite column_norm_2x1. unfold osqrt. cbn [mbind option_bind].
    destruct (Rlt_dec _ 0) as [Hneg|_]; [lra|]. f_equal.
    replace (2 * (3 * 3 - 1 * 1))%R with (4 * 4)%R by lra.
    apply sqrt_square. lra. }
  split.
  - rewrite (Hdiv 0 0) by (cbn; lia).
    change (length [1] * length [1] * 1 * (2 - 1)) with 1. rewrite Hs.
    change (cget {[0 := [Some 3%R; Some 1%R]]} (mk_carray 0 [2; 1]) [0; 0])
      with (Some 3%R).
    unfold odiv. cbn [mbind option_bind].
    destruct (Req_dec_T 4 0) as [Hz|_]; [lra|]. reflexivity.
  - rewrite (Hdiv 1 0) by (cbn; lia).
    change (length [1] * length [1] * 1 * (2 - 1)) with 1. rewrite Hs.
    change (cget {[0 := [Some 3%R; Some 1%R]]} (mk_carray 0 [2; 1]) [1; 0])
      with (Some 1%R).
    unfold odiv. cbn [mbind option_bind].
    destruct (Req_dec_T 4 0) as [Hz|_]; [lra|]. reflexivity.
Defined.
End Examples1.
Section Examples8.
#[local] Existing Instance Toy.backend.
#[local] Existing Instance Toy.rhf_slow.

(** C9 on the small system: a driver that the solver does not know
    makes the call raise; the container is unchanged. *)
Lemma TDRHF_kernel_failure_witness :
  let self := configure (TDRHF_init Toy.mf) (Some "davidson"%string) None in
  exists log self',
    TDRHF_kernel self = (log, Raise ValueError, self') /\ self' = self.
Proof.
  intros self. eexists. eexists.
  assert (Hrun : TDRHF_kernel self = (_, Raise ValueError, _)) by reflexivity.
  split; [exact Hrun|].
  exact (proj1 (TDRHF_kernel_failure self _ _ _ Hrun)).
Defined.

(** C8 on the small system: two calls in a row. *)
Lemma TDRHF_kernel_twice_witness :
  exists log vals vecs self1,
    TDRHF_kernel (TDRHF_init Toy.mf)
    = (log, Ok (vals, vecs), self1) /\
    TDRHF_kernel self1 = ([], Ok (vals, vecs), self1) /\
    kernel (inl Toy.mf) None None false = (log, Ok (vals, vecs, None)).
Proof.
  eexists. eexists. eexists. eexists.
  assert (Hrun : TDRHF_kernel (TDRHF_init Toy.mf)
                 = (_, Ok (_, _), _)) by reflexivity.
  split; [exact Hrun|].
  destruct (TDRHF_kernel_twice Toy.mf None None _ _ _ _ Hrun)
    as (p & _ & _ & Hsecond & _ & Hdirect).
  split; [exact Hsecond | exact Hdirect].
Defined.

End Examples8.

(** * Further properties of the module *)

Lemma py_index_cases {A} (l : list A) i :
  (i < length l /\ exists a, py_index l i = Ok a) \/
  (length l <= i /\ py_index l i = Raise IndexError).
Proof.
  unfold py_index. destruct (l !! i) as [a|] eqn:E.
  - left. split; [eapply lookup_lt_Some, E | eauto].
  - right. split; [apply lookup_ge_None, E | reflexivity].
Qed.

(** ** Occupation numbers *)

Section Counts.
Context `{Backend}.

Lemma sum_list_closed_shell (occ : list nat) :
  Forall (fun x => x = 0 \/ x = 2) occ ->
  sum_list occ = 2 * length (filter (fun x => x = 2) occ).
Proof.
  induction 1 as [|x occ [-> | ->] _ IH]; [reflexivity| |].
  - rewrite filter_cons_False by discriminate. simpl. exact IH.
  - rewrite filter_cons_True by reflexivity. simpl. lia.
Qed.

(** X1: for a closed-shell model (every occupation number is 0 or 2),
    [k_nocc] has one entry per k-point, the number of orbitals of
    occupation 2 at that k-point; it never exceeds the number of
    orbitals of the k-point. *)
Theorem k_nocc_closed_shell (m : KRHF) :
  Forall (Forall (fun x => x = 0 \/ x = 2)) (mo_occ m) ->
  length (k_nocc m) = length (mo_occ m) /\
  forall k occ, mo_occ m !! k = Some occ ->
    k_nocc m !! k = Some (length (filter (fun x => x = 2) occ)) /\
    k_nocc m !!! k <= length occ.
Proof.
  intros Hcs. unfold k_nocc. split; [apply length_map|].
  intros k occ Hk.
  assert (Hocc : Forall (fun x => x = 0 \/ x = 2) occ).
  { rewrite Forall_forall in Hcs. apply Hcs.
    eapply list_elem_of_lookup_2, Hk. }
  assert (E : map (fun i => sum_list i / 2) (mo_occ m) !! k
              = Some (length (filter (fun x => x = 2) occ))).
  { change (map ?f ?l) with (f <$> l). rewrite list_lookup_fmap, Hk.
    cbn [fmap option_fmap option_map]. f_equal.
    rewrite (sum_list_closed_shell occ Hocc).
    rewrite Nat.mul_comm. apply Nat.div_mul. discriminate. }
  split; [exact E|].
  rewrite (list_lookup_total_correct _ _ _ E).
  apply length_filter.
Qed.

End Counts.

(** ** The transform [ao2mo_k] *)

Section Transform4.
Context `{Backend}.

(** X2: [ao2mo_k] hands the coefficient matrices and the k-points to
    the backend with the second and the third exchanged, and returns
    the result with one axis per matrix, in the order of its arguments:
    the entry at [(i, j, k, l)] is the entry of the matrix of the
    backend at row [(i, k)] and column [(j, l)]. *)
Theorem ao2mo_k_phys_order (m : KRHF) (c0 c1 c2 c3 : ndarray scalar)
    (k0 k1 k2 k3 : nat) (q0 q1 q2 q3 : kpt) (n0 n1 n2 n3 : nat)
    (raw : ndarray scalar) :
  kpts m !! k0 = Some q0 -> kpts m !! k1 = Some q1 ->
  kpts m !! k2 = Some q2 -> kpts m !! k3 = Some q3 ->
  shape c0 !! 1 = Some n0 -> shape c1 !! 1 = Some n1 ->
  shape c2 !! 1 = Some n2 -> shape c3 !! 1 = Some n3 ->
  df_ao2mo (with_df m) [c0; c2; c1; c3] [q0; q2; q1; q3] = Ok raw ->
  length (data raw) = n0 * n2 * (n1 * n3) ->
  exists t,
    ao2mo_k m [c0; c1; c2; c3] [k0; k1; k2; k3] = Ok t /\
    shape t = [n0; n1; n2; n3] /\ well_formed t /\
    forall i j k l, i < n0 -> j < n1 -> k < n2 -> l < n3 ->
      get t [i; j; k; l] = data raw !!! ((i * n2 + k) * (n1 * n3) + (j * n3 + l)).
Proof.
  intros Q0 Q1 Q2 Q3 S0 S1 S2 S3 Hraw Hlen.
  apply py_index_Ok in Q0, Q1, Q2, Q3, S0, S1, S2, S3.
  eexists. split.
  { unfold ao2mo_k. cbn [py_index lookup list_lookup mbind result_bind py_map].
    rewrite Q0, Q1, Q2, Q3. cbn [mbind result_bind].
    rewrite Hraw. cbn [mbind result_bind].
    rewrite S0, S1, S2, S3. cbn [mbind result_bind].
    unfold reshape. rewrite Hlen.
    replace (nelems [n0; n2; n1; n3] =? n0 * n2 * (n1 * n3)) with true
      by (symmetry; apply Nat.eqb_eq; simpl; lia).
    cbn [mbind result_bind].
    apply swapaxes_Ok; simpl; lia. }
  change (swap_at 1 2 (shape (mk_ndarray [n0; n2; n1; n3] (data raw))))
    with [n0; n1; n2; n3].
  split; [reflexivity|]. split; [apply tabulate_well_formed|].
  intros i j k l Hi Hj Hk Hl.
  rewrite get_tabulate by (repeat constructor; assumption).
  change (swap_at 1 2 [i; j; k; l]) with [i; k; j; l].
  unfold get. simpl shape. simpl data. f_equal. simpl. lia.
Qed.

(** X3: the failures of [ao2mo_k]. Fewer than four matrices or four
    indices, or an index that is no k-point of the model, raise
    [IndexError]; an exception of the backend is passed on; a result of
    the backend that does not have one entry per quadruple of orbitals
    raises the [ValueError] of [reshape]. *)
Theorem ao2mo_k_failures (m : KRHF) :
  (forall coeff k, length coeff < 4 \/ length k < 4 ->
     ao2mo_k m coeff k = Raise IndexError) /\
  (forall c0 c1 c2 c3 k0 k1 k2 k3,
     ~ Forall (fun k => k < length (kpts m)) [k0; k1; k2; k3] ->
     ao2mo_k m [c0; c1; c2; c3] [k0; k1; k2; k3] = Raise IndexError) /\
  (forall c0 c1 c2 c3 k0 k1 k2 k3 q0 q1 q2 q3,
     kpts m !! k0 = Some q0 -> kpts m !! k1 = Some q1 ->
     kpts m !! k2 = Some q2 -> kpts m !! k3 = Some q3 ->
     (forall e,
        df_ao2mo (with_df m) [c0; c2; c1; c3] [q0; q2; q1; q3] = Raise e ->
        ao2mo_k m [c0; c1; c2; c3] [k0; k1; k2; k3] = Raise e) /\
     (forall raw n0 n1 n2 n3,
        df_ao2mo (with_df m) [c0; c2; c1; c3] [q0; q2; q1; q3] = Ok raw ->
        shape c0 !! 1 = Some n0 -> shape c1 !! 1 = Some n1 ->
        shape c2 !! 1 = Some n2 -> shape c3 !! 1 = Some n3 ->
        length (data raw) <> n0 * n2 * (n1 * n3) ->
        ao2mo_k m [c0; c1; c2; c3] [k0; k1; k2; k3] = Raise ValueError)).
Proof.
  split; [|split].
  - intros coeff k Hshort. unfold ao2mo_k, py_index.
    destruct coeff as [|c0 [|c1 [|c2 [|c3 coeff]]]]; try reflexivity.
    destruct k as [|k0 [|k1 [|k2 [|k3 k]]]]; try reflexivity.
    simpl in Hshort. lia.
  - intros c0 c1 c2 c3 k0 k1 k2 k3 Hout.
    unfold ao2mo_k. cbn [py_index lookup list_lookup mbind result_bind py_map].
    destruct (py_index_cases (kpts m) k0) as [[L0 [q0 ->]] | [_ ->]]; [|reflexivity].
    destruct (py_index_cases (kpts m) k2) as [[L2 [q2 ->]] | [_ ->]]; [|reflexivity].
    destruct (py_index_cases (kpts m) k1) as [[L1 [q1 ->]] | [_ ->]]; [|reflexivity].
    destruct (py_index_cases (kpts m) k3) as [[L3 [q3 ->]] | [_ ->]]; [|reflexivity].
    exfalso. apply Hout. repeat constructor; assumption.
  - intros c0 c1 c2 c3 k0 k1 k2 k3 q0 q1 q2 q3 Q0 Q1 Q2 Q3.
    apply py_index_Ok in Q0, Q1, Q2, Q3.
    split.
    + intros e He. unfold ao2mo_k.
      cbn [py_index lookup list_lookup mbind result_bind py_map].
      rewrite Q0, Q1, Q2, Q3. cbn [mbind result_bind]. rewrite He. reflexivity.
    + intros raw n0 n1 n2 n3 Hraw S0 S1 S2 S3 Hlen.
      apply py_index_Ok in S0, S1, S2, S3.
      unfold ao2mo_k.
      cbn [py_index lookup list_lookup mbind result_bind py_map].
      rewrite Q0, Q1, Q2, Q3. cbn [mbind result_bind].
      rewrite Hraw. cbn [mbind result_bind].
      rewrite S0, S1, S2, S3. cbn [mbind result_bind].
      unfold reshape.
      replace (nelems [n0; n2; n1; n3] =? length (data raw)) with false;
        [reflexivity|].
      symmetry. apply Nat.eqb_neq. simpl. lia.
Qed.

End Transform4.

(** ** Quadruples out of range *)

Lemma py_map_first_failure {A B} (f : A -> result B) (l : list A) :
  (forall x e, In x l -> f x = Raise e -> e = IndexError) ->
  (exists x, In x l /\ exists e, f x = Raise e) ->
  py_map f l = Raise IndexError.
Proof.
  induction l as [|x l IH]; intros Honly (x0 & Hin & e0 & He0); [destruct Hin|].
  simpl. destruct (f x) as [y|e] eqn:Ex.
  - destruct Hin as [-> | Hin]; [congruence|].
    cbn [mbind result_bind]. rewrite IH; [reflexivity| |eauto].
    intros x' e' Hx'. apply Honly. right. exact Hx'.
  - rewrite (Honly x e (or_introl eq_refl) Ex). reflexivity.
Qed.

Lemma py_map_only_IndexError {A B} (f : A -> result B) (l : list A) e :
  (forall x e, In x l -> f x = Raise e -> e = IndexError) ->
  py_map f l = Raise e -> e = IndexError.
Proof.
  induction l as [|x l IH]; intros Honly E; [discriminate E|].
  simpl in E. destruct (f x) as [y|e'] eqn:Ex.
  - cbn [mbind result_bind] in E.
    destruct (py_map f l) as [ys|e''] eqn:El; [discriminate E|].
    injection E as <-. apply IH; [|reflexivity].
    intros x' e' Hx'. apply Honly. right. exact Hx'.
  - injection E as <-. apply (Honly x e' (or_introl eq_refl) Ex).
Qed.

Section OutOfRange.
Context `{Backend}.

Lemma k_nmo_cases (m : KRHF) :
  (exists ns, k_nmo m = Ok ns /\ length ns = length (mo_coeff m)) \/
  k_nmo m = Raise IndexError.
Proof.
  destruct (k_nmo m) as [ns|e] eqn:E.
  - left. exists ns. split; [reflexivity|].
    unfold k_nmo in E. apply py_map_Ok_length in E. exact E.
  - right. f_equal. unfold k_nmo in E.
    apply (py_map_only_IndexError _ _ _) in E; [exact E|].
    intros c e' _ Hc. destruct (py_index_cases (shape c) 0) as [[_ [a Ha]] | [_ Ha]];
      congruence.
Qed.

Lemma zero_block_shape_out_of_range (self : provider) item k n :
  length (nocc self) = n ->
  length (mo_coeff (model self)) = n ->
  (exists p, In p (zip item k) /\ n <= p.2) ->
  zero_block_shape self item k = Raise IndexError.
Proof.
  intros Ho Hc (p & Hin & Hp). unfold zero_block_shape.
  apply py_map_first_failure.
  - intros [i _k] e _. destruct (is_o i).
    + destruct (py_index_cases (nocc self) _k) as [[_ [a ->]] | [_ ->]];
        simpl; congruence.
    + unfold nmo. destruct (k_nmo_cases (model self)) as [(ns & -> & _) | ->];
        [|simpl; congruence].
      cbn [mbind result_bind].
      destruct (py_index_cases ns _k) as [[_ [a ->]] | [_ ->]];
        [|simpl; congruence].
      cbn [mbind result_bind].
      destruct (py_index_cases (nocc self) _k) as [[_ [b ->]] | [_ ->]];
        simpl; congruence.
  - exists p. split; [exact Hin|]. destruct p as [i _k]. simpl in Hp.
    destruct (is_o i).
    + destruct (py_index_cases (nocc self) _k) as [[Hlt _] | [_ ->]]; [lia|].
      eexists. reflexivity.
    + unfold nmo. destruct (k_nmo_cases (model self)) as [(ns & -> & Hns) | ->];
        [|eexists; reflexivity].
      cbn [mbind result_bind].
      destruct (py_index_cases ns _k) as [[Hlt _] | [_ ->]]; [lia|].
      eexists. reflexivity.
Qed.


End OutOfRange.

(** ** The shape of a conserving block *)

Section ConservingShape.
Context `{Backend}.

(** X5: on a model with one occupation table and one coefficient
    matrix per k-point, a block that a provider of any of the three
    classes returns for a conserving quadruple has, along each axis, the
    extent of the occupied ([:nocc]) or virtual ([nocc:]) range of the
    columns of the coefficient matrix of the k-point. When the
    coefficient matrices are square and no k-point has more occupied
    than total orbitals, this is the occupied/virtual shape
    ([nocc], [nmo - nocc]) of the blocks of zeros, so that the blocks
    of one pattern fit together. *)
Theorem calc_block_conserving_shape (cls : provider_class) (m : KRHF)
    (self : provider) (i1 i2 i3 i4 : ascii) (k1 k2 k3 k4 : nat)
    (c1 c2 c3 c4 : ndarray scalar) (a1 a2 a3 a4 n1 n2 n3 n4 : nat)
    (b : ndarray scalar) :
  new_provider cls m = Ok self ->
  length (mo_occ m) = length (kpts m) ->
  length (mo_coeff m) = length (kpts m) ->
  mo_coeff m !! k1 = Some c1 -> mo_coeff m !! k2 = Some c2 ->
  mo_coeff m !! k3 = Some c3 -> mo_coeff m !! k4 = Some c4 ->
  shape c1 = [a1; n1] -> shape c2 = [a2; n2] ->
  shape c3 = [a3; n3] -> shape c4 = [a4; n4] ->
  get (kconserv self) [k1; k2; k3] = k4 ->
  __calc_block__ self [i1; i2; i3; i4] [k1; k2; k3; k4] = Ok b ->
  let o k := k_nocc m !!! k in
  shape b = [ov_len i1 (o k1) n1; ov_len i2 (o k2) n2;
             ov_len i3 (o k3) n3; ov_len i4 (o k4) n4] /\
  forall ns,
    k_nmo m = Ok ns ->
    a1 = n1 -> a2 = n2 -> a3 = n3 -> a4 = n4 ->
    o k1 <= n1 -> o k2 <= n2 -> o k3 <= n3 -> o k4 <= n4 ->
    shape b = ov_shape (k_nocc m) ns [i1; i2; i3; i4] [k1; k2; k3; k4].
Proof.
  intros Hnew Hocc Hco C1 C2 C3 C4 S1 S2 S3 S4 Hcons Hb o.
  pose proof (new_provider_inv _ _ _ Hnew) as (Hcls & Hm & _).
  pose proof (new_provider_kconserv_shape _ _ _ Hnew) as Hsh.
  pose proof (lookup_lt_Some _ _ _ C1) as L1.
  pose proof (lookup_lt_Some _ _ _ C2) as L2.
  pose proof (lookup_lt_Some _ _ _ C3) as L3.
  pose proof (lookup_lt_Some _ _ _ C4) as L4.
  rewrite Hco in L1, L2, L3, L4.
  assert (Hno : forall k, k < length (kpts m) -> py_index (nocc self) k = Ok (o k)).
  { intros k Hk. unfold o.
    replace (k_nocc m) with (nocc self) by (unfold nocc; rewrite Hm; reflexivity).
    apply py_index_lt. unfold nocc, k_nocc. rewrite Hm, length_map. lia. }
  assert (Hshape : shape b = [ov_len i1 (o k1) n1; ov_len i2 (o k2) n2;
                              ov_len i3 (o k3) n3; ov_len i4 (o k4) n4]).
  { assert (H4 : PhysERI4__calc_block__ self [i1; i2; i3; i4] [k1; k2; k3; k4]
                 = Ok b ->
                 shape b = [ov_len i1 (o k1) n1; ov_len i2 (o k2) n2;
                            ov_len i3 (o k3) n3; ov_len i4 (o k4) n4]).
    { clear Hb. intros Hb. unfold PhysERI4__calc_block__ in Hb.
      change (take 3 [k1; k2; k3; k4]) with [k1; k2; k3] in Hb.
      rewrite getitem_in_bounds in Hb
        by (rewrite Hsh; repeat constructor; assumption).
      cbn [mbind result_bind py_index lookup list_lookup] in Hb.
      rewrite Hcons, Nat.eqb_refl in Hb.
      cbn [zip zip_with py_map] in Hb. rewrite Hm in Hb.
      apply py_index_Ok in C1, C2, C3, C4.
      rewrite C1, C2, C3, C4 in Hb. rewrite <- Hm in Hb.
      rewrite !Hno in Hb by assumption.
      cbn [mbind result_bind] in Hb.
      destruct (column_slice c1 a1 n1 i1 (o k1) S1) as (c1' & E1 & S1' & _).
      destruct (column_slice c2 a2 n2 i2 (o k2) S2) as (c2' & E2 & S2' & _).
      destruct (column_slice c3 a3 n3 i3 (o k3) S3) as (c3' & E3 & S3' & _).
      destruct (column_slice c4 a4 n4 i4 (o k4) S4) as (c4' & E4 & S4' & _).
      rewrite E1, E2, E3, E4 in Hb. cbn [mbind result_bind] in Hb.
      apply ao2mo_k_shape in Hb
        as (d1 & d2 & d3 & d4 & m1 & m2 & m3 & m4 &
            D1 & D2 & D3 & D4 & M1 & M2 & M3 & M4 & Hshape).
      injection D1 as <-. injection D2 as <-. injection D3 as <-. injection D4 as <-.
      rewrite S1' in M1. rewrite S2' in M2. rewrite S3' in M3. rewrite S4' in M4.
      injection M1 as <-. injection M2 as <-. injection M3 as <-. injection M4 as <-.
      exact Hshape. }
    unfold __calc_block__ in Hb. rewrite Hcls in Hb.
    destruct cls; try (apply H4; exact Hb).
    destruct (PhysERI_cache_facts m self Hnew ltac:(lia)) as (Hkeys & _ & _ & Hval).
    destruct (proj2 (Hkeys [k1; k2; k3; k4])) as [t Ht].
    { exists k1, k2, k3. rewrite Hcons. auto. }
    destruct (Hval k1 k2 k3 k4 t Ht)
      as ((coeff & Hcoeff & Hao) & (m1 & m2 & m3 & m4 & Hst & Hblk)).
    simpl in Hcoeff. apply py_index_Ok in C1, C2, C3, C4.
    rewrite C1, C2, C3, C4 in Hcoeff. simpl in Hcoeff. injection Hcoeff as <-.
    apply ao2mo_k_shape in Hao
      as (d1 & d2 & d3 & d4 & m1' & m2' & m3' & m4' &
          D1 & D2 & D3 & D4 & M1 & M2 & M3 & M4 & Hst').
    injection D1 as <-. injection D2 as <-. injection D3 as <-. injection D4 as <-.
    rewrite S1 in M1. rewrite S2 in M2. rewrite S3 in M3. rewrite S4 in M4.
    injection M1 as <-. injection M2 as <-. injection M3 as <-. injection M4 as <-.
    rewrite Hst in Hst'. injection Hst' as -> -> -> ->.
    destruct (Hblk i1 i2 i3 i4) as (b' & Hb' & Hshape & _).
    unfold __calc_block__ in Hb'. rewrite Hcls in Hb'.
    rewrite Hb in Hb'. injection Hb' as <-. exact Hshape. }
  split; [exact Hshape|].
  intros ns Hns -> -> -> -> O1 O2 O3 O4.
  rewrite Hshape. unfold ov_shape. cbn [zip zip_with map fst snd].
  assert (Hn : forall k c n, mo_coeff m !! k = Some c -> shape c = [n; n] ->
                 ns !!! k = n).
  { intros k c n Hc Hs. unfold k_nmo in Hns.
    assert (E : ns !! k = Some n).
    { clear -Hns Hc Hs. revert k ns Hns Hc.
      induction (mo_coeff m) as [|c0 l IH]; intros k ns Hns Hc; [discriminate Hc|].
      simpl in Hns. apply bind_Ok in Hns as (n0 & Hn0 & Hns).
      apply bind_Ok in Hns as (ns' & Hns' & Hns). injection Hns as <-.
      destruct k as [|k]; simpl in Hc |- *.
      - injection Hc as ->. rewrite Hs in Hn0.
        apply py_index_Ok in Hn0. simpl in Hn0. congruence.
      - apply IH; assumption. }
    apply list_lookup_total_correct, E. }
  rewrite (Hn k1 c1 n1 C1 S1), (Hn k2 c2 n2 C2 S2),
          (Hn k3 c3 n3 C3 S3), (Hn k4 c4 n4 C4 S4).
  fold (o k1) (o k2) (o k3) (o k4).
  unfold ov_len. repeat f_equal; destruct (is_o _); lia.
Qed.

(** X6: the constructors of [PhysERI4] and [PhysERI8] always return,
    without a call of the integral backend: nothing is stored but the
    model and the conservation table, which is the table of
    [get_kconserv] with its second and third index exchanged. *)
Theorem lazy_constructors (cls : provider_class) (m : KRHF) :
  cls <> PhysERI ->
  exists self,
    new_provider cls m = Ok self /\
    class_of self = cls /\ model self = m /\ __full_eri_k__ self = ∅ /\
    shape (kconserv self) = [length (kpts m); length (kpts m); length (kpts m)] /\
    forall k1 k2 k3,
      k1 < length (kpts m) -> k2 < length (kpts m) -> k3 < length (kpts m) ->
      getitem (kconserv self) [k1; k2; k3]
      = Ok (kconserv_entry (model_cell m) (kpts m) k1 k3 k2).
Proof.
  intros Hcls. destruct (kconserv_swapped m) as (kc & Hkc & Hsh & Hentry).
  exists (mk_provider cls m kc ∅).
  split.
  { destruct cls; [contradiction| |]; simpl;
      [unfold PhysERI4_init | unfold PhysERI8_init]; rewrite Hkc; reflexivity. }
  repeat (split; [reflexivity || exact Hsh|]).
  intros k1 k2 k3 H1 H2 H3. simpl.
  rewrite getitem_in_bounds by (rewrite Hsh; repeat constructor; assumption).
  f_equal. apply Hentry; assumption.
Qed.

End ConservingShape.

(** ** The symmetry tables *)

(** X7: each of the two symmetry tables starts with the identity and
    lists distinct permutations of the four indices; it is closed under
    composition, and the conjugation flag of a composition is the
    exclusive or of the flags: applying two declared symmetries one
    after the other is again a declared symmetry. *)
Theorem symmetries_closed (table : list (list nat * bool)) :
  table = PhysERI4.symmetries \/ table = PhysERI8.symmetries ->
  table !! 0 = Some ([0; 1; 2; 3], false) /\
  NoDup (table.*1) /\
  Forall (fun e => e.1 ≡ₚ [0; 1; 2; 3]) table /\
  forall p cp q cq, (p, cp) ∈ table -> (q, cq) ∈ table ->
    (compose_perm p q, xorb cp cq) ∈ table.
Proof.
  intros Ht.
  assert (Hclosed :
    Forall (fun e1 => Forall (fun e2 =>
      (compose_perm e1.1 e2.1, xorb e1.2 e2.2) ∈ table) table) table
    -> forall p cp q cq, (p, cp) ∈ table -> (q, cq) ∈ table ->
         (compose_perm p q, xorb cp cq) ∈ table).
  { intros HF p cp q cq Hp Hq. rewrite Forall_forall in HF.
    specialize (HF _ Hp). rewrite Forall_forall in HF. apply (HF _ Hq). }
  destruct Ht as [-> | ->].
  - split; [reflexivity|]. split; [apply (bool_decide_unpack _); reflexivity|].
    split; [apply (bool_decide_unpack _); reflexivity|].
    apply Hclosed. apply (bool_decide_unpack _). reflexivity.
  - split; [reflexivity|]. split; [apply (bool_decide_unpack _); reflexivity|].
    split; [apply (bool_decide_unpack _); reflexivity|].
    apply Hclosed. apply (bool_decide_unpack _). reflexivity.
Qed.

(** X7 on the 8-fold table: [(3, 0, 1, 2)] composed with
    [(2, 1, 0, 3)] is [(1, 0, 3, 2)], which the table lists. *)
Lemma symmetries_closed_witness :
  (compose_perm [3; 0; 1; 2] [2; 1; 0; 3], false) ∈ PhysERI8.symmetries.
Proof.
  apply (proj2 (proj2 (proj2 (symmetries_closed PhysERI8.symmetries
                                (or_intror eq_refl))))
           [3; 0; 1; 2] false [2; 1; 0; 3] false);
    apply (bool_decide_unpack _); reflexivity.
Defined.

(** ** Merged block retrieval: edge cases *)

Lemma lookup_bind_const {A B} (f : A -> list B) (l : list A) n : forall i j x,
  (forall a, length (f a) = n) ->
  l !! i = Some x -> j < n ->
  (l ≫= f) !! (i * n + j) = f x !! j.
Proof.
  induction l as [|a l IH]; intros i j x Hlen Hi Hj; [discriminate Hi|].
  change ((a :: l) ≫= f) with (f a ++ (l ≫= f)).
  destruct i as [|i]; simpl in Hi.
  - injection Hi as ->. simpl. apply lookup_app_l. rewrite Hlen. exact Hj.
  - rewrite lookup_app_r by (rewrite Hlen; simpl; lia).
    rewrite Hlen. replace (S i * n + j - n) with (i * n + j) by (simpl; lia).
    apply IH; assumption.
Qed.

Lemma product_range_lookup n k1 k2 :
  k1 < n -> k2 < n -> product_range n !! (k1 * n + k2) = Some (k1, k2).
Proof.
  intros H1 H2. unfold product_range.
  rewrite (lookup_bind_const _ (seq 0 n) n k1 k2 k1).
  - replace k2 with (k2 * 1 + 0) at 1 by lia.
    rewrite (lookup_bind_const _ (seq 0 n) 1 k2 0 k2).
    + reflexivity.
    + reflexivity.
    + rewrite lookup_seq_lt by exact H2. reflexivity.
    + lia.
  - intros a. rewrite (bind_length_const _ _ 1) by reflexivity.
    rewrite length_seq. lia.
  - rewrite lookup_seq_lt by exact H1. reflexivity.
  - exact H2.
Qed.

Section MergedEdges.
Context `{RhfSlow}.

Lemma eri_mknj_rows_no_columns (self : provider) (item : string) rows :
  eri_mknj_rows self item rows [] = (Ok (map (fun _ => []) rows), []).
Proof.
  induction rows as [|r rows IH]; [reflexivity|].
  simpl. rewrite IH. reflexivity.
Qed.

(** X8: with nothing to merge, [eri_mknj] raises the [ValueError] of
    [numpy.block]: when the row argument yields no pair, and when the
    column argument yields no pair (then no block is computed either).
    No empty matrix is returned. *)
Theorem eri_mknj_nothing_to_merge (self : provider) (item : string)
    (pairs_row pairs_column : iterable) (its : iterators) :
  remaining pairs_column its = [] \/
  remaining pairs_row (advance pairs_column [] its) = [] ->
  (eri_mknj self item (Some pairs_row) (Some pairs_column) its).1
  = Raise ValueError.
Proof.
  intros Hempty. unfold eri_mknj.
  destruct (remaining pairs_row (advance pairs_column [] its)) as [|r rows] eqn:Er.
  - reflexivity.
  - destruct Hempty as [-> | E]; [|discriminate E].
    rewrite eri_mknj_rows_no_columns. reflexivity.
Qed.

(** X9: one and the same iterator passed as the row and as the column
    argument: the columns take all it yields, no row is left, and the
    call raises [ValueError] whatever the iterator held; the iterator is
    exhausted. *)
Theorem eri_mknj_same_iterator (self : provider) (item : string) (id : nat)
    (its : iterators) :
  eri_mknj self item (Some (Iterator id)) (Some (Iterator id)) its
  = (Raise ValueError, <[id := []]> its).
Proof.
  unfold eri_mknj. cbn [remaining advance].
  rewrite lookup_insert_eq. cbn [default]. unfold Datatypes.id.
  cbn [eri_mknj_rows]. rewrite insert_insert_eq. reflexivity.
Qed.

(** X10: without arguments, the rows and the columns of the merged
    block are all the [N_k ^ 2] pairs of k-points, the pair
    [(k1, k2)] at position [k1 * N_k + k2]; the iterators of the caller
    are not touched. *)
Theorem eri_mknj_default_pairs (self : provider) (item : string)
    (its : iterators) :
  let n := length (kpts (model self)) in
  let pairs := Sequence (product_range n) in
  (eri_mknj self item None None its).1
  = (eri_mknj self item (Some pairs) (Some pairs) its).1 /\
  (forall id, is_Some (its !! id) ->
     (eri_mknj self item None None its).2 !! id = its !! id) /\
  length (product_range n) = n * n /\
  forall k1 k2, k1 < n -> k2 < n ->
    product_range n !! (k1 * n + k2) = Some (k1, k2).
Proof.
  intros n pairs. unfold pairs, eri_mknj, new_product. fold n.
  set (id1 := fresh (dom its)).
  set (its1 := <[id1 := product_range n]> its).
  set (id2 := fresh (dom its1)).
  assert (Hne : id2 <> id1).
  { intros E. apply (is_fresh (dom its1)). fold id2. rewrite E.
    unfold its1. rewrite dom_insert_L. set_solver. }
  cbn [remaining advance].
  rewrite lookup_insert_eq. cbn [default].
  rewrite lookup_insert_ne by exact Hne.
  rewrite lookup_insert_ne by exact Hne.
  unfold its1. rewrite lookup_insert_eq. cbn [default].
  unfold Datatypes.id.
  destruct (eri_mknj_rows self item (product_range n) (product_range n))
    as [res rest].
  split; [reflexivity|]. split; [|split].
  - intros id Hid. cbn [snd].
    assert (Hn1 : id <> id1).
    { intros ->. apply (is_fresh (dom its)). apply elem_of_dom, Hid. }
    assert (Hn2 : id <> id2).
    { intros ->. apply (is_fresh (dom its1)). fold id2. unfold its1.
      rewrite dom_insert_L. apply elem_of_union_r, elem_of_dom, Hid. }
    rewrite !lookup_insert_ne by congruence. reflexivity.
  - unfold product_range. rewrite (bind_length_const _ _ n).
    + rewrite length_seq. reflexivity.
    + intros a. rewrite (bind_length_const _ _ 1) by reflexivity.
      rewrite length_seq. lia.
  - apply product_range_lookup.
Qed.

Lemma py_map_raises_at {A B} (f : A -> result B) (l : list A) : forall j c e,
  l !! j = Some c -> f c = Raise e ->
  (forall j' c', j' < j -> l !! j' = Some c' -> returns (f c')) ->
  py_map f l = Raise e.
Proof.
  induction l as [|x l IH]; intros j c e Hj He Hbefore; [discriminate Hj|].
  destruct j as [|j]; simpl in Hj.
  - injection Hj as ->. simpl. rewrite He. reflexivity.
  - simpl. destruct (Hbefore 0 x ltac:(lia) eq_refl) as [y ->].
    cbn [mbind result_bind].
    rewrite (IH j c e Hj He); [reflexivity|].
    intros j' c' Hlt Hc'. apply (Hbefore (S j') c'); [lia | exact Hc'].
Qed.

Lemma py_map_returns {A B} (f : A -> result B) (l : list A) :
  (forall j c, l !! j = Some c -> returns (f c)) -> returns (py_map f l).
Proof.
  induction l as [|x l IH]; intros Hall; [eexists; reflexivity|].
  simpl. destruct (Hall 0 x eq_refl) as [y ->].
  destruct IH as [ys ->]; [|eexists; reflexivity].
  intros j c Hj. apply (Hall (S j) c Hj).
Qed.

(** X11: the first block that fails, in the order of the loops (row
    after row, within a row column after column), decides the outcome:
    its exception is raised by [eri_mknj], and a row argument that is an
    iterator is left just after the row of that block. *)
Theorem eri_mknj_first_failure (self : provider) (item : string)
    (pairs_row pairs_column : iterable) (its : iterators)
    (i j : nat) (r c : nat * nat) (e : exn) :
  let cols := remaining pairs_column its in
  let rows := remaining pairs_row (advance pairs_column [] its) in
  rows !! i = Some r -> cols !! j = Some c ->
  eri_mknj_k self item [r.1; r.2; c.1; c.2] = Raise e ->
  (forall i' j' r' c',
     rows !! i' = Some r' -> cols !! j' = Some c' ->
     i' < i \/ (i' = i /\ j' < j) ->
     returns (eri_mknj_k self item [r'.1; r'.2; c'.1; c'.2])) ->
  eri_mknj self item (Some pairs_row) (Some pairs_column) its
  = (Raise e,
     advance pairs_row (drop (S i) rows) (advance pairs_column [] its)).
Proof.
  intros cols rows Hi Hj He Hbefore.
  assert (Hrows : forall l i0,
            l !! i0 = Some r ->
            (forall i' j' r' c',
               l !! i' = Some r' -> cols !! j' = Some c' ->
               i' < i0 \/ (i' = i0 /\ j' < j) ->
               returns (eri_mknj_k self item [r'.1; r'.2; c'.1; c'.2])) ->
            eri_mknj_rows self item l cols = (Raise e, drop (S i0) l)).
  { induction l as [|x l IH]; intros i0 Hi0 Hb; [discriminate Hi0|].
    destruct i0 as [|i0]; simpl in Hi0.
    - injection Hi0 as ->. cbn [eri_mknj_rows]. unfold eri_mknj_row.
      rewrite (py_map_raises_at _ cols j c e Hj He); [reflexivity|].
      intros j' c' Hlt Hc'. apply (Hb 0 j' r c' eq_refl Hc'). right. lia.
    - cbn [eri_mknj_rows].
      assert (Hx : returns (eri_mknj_row self item x cols)).
      { unfold eri_mknj_row. apply py_map_returns.
        intros j' c' Hj'.
        apply (Hb 0 j' x c' eq_refl Hj'). left. lia. }
      destruct Hx as [row ->].
      rewrite (IH i0 Hi0); [reflexivity|].
      intros i' j' r' c' Hr' Hc' Hlt. apply (Hb (S i') j' r' c' Hr' Hc'). lia. }
  unfold eri_mknj. fold cols. fold rows.
  rewrite (Hrows rows i Hi Hbefore). reflexivity.
Qed.

End MergedEdges.

(** ** The reshaper: failures *)

Section ReshaperEdges.
Context `{Dtype}.

Lemma fix_unknown_dimension_raises newshape s e :
  fix_unknown_dimension newshape s = Raise e -> e = ValueError.
Proof.
  unfold fix_unknown_dimension.
  destruct (length (filter (fun d => (d < 0)%Z) newshape)) as [|[|k]].
  - destruct (_ =? _); congruence.
  - destruct (_ || _); congruence.
  - congruence.
Qed.

(** X12: a call of [vector_to_amplitudes] that raises has written
    nothing: the array of the caller and every other buffer are as they
    were. The exception is one of the two [NotImplementedError]s, the
    [IndexError] of an empty tuple of counts or of an array without a
    second axis, or the [ValueError] of [reshape]. *)
Theorem vector_to_amplitudes_exception_safe
    (vectors : carray) (nocc nmo : list nat) (st st' : store) (e : exn) :
  vector_to_amplitudes vectors nocc nmo st = (Raise e, st') ->
  st' = st /\
  (e = NotImplementedError "Varying occupation numbers are not implemented yet" \/
   e = NotImplementedError "Varying AO spaces are not implemented yet" \/
   e = IndexError \/ e = ValueError).
Proof.
  unfold vector_to_amplitudes.
  destruct (all_equal_first nocc); cbn [negb];
    [|intros [= <- <-]; auto].
  destruct (py_index_cases nocc 0) as [[_ [o ->]] | [_ ->]];
    [|intros [= <- <-]; auto].
  destruct (all_equal_first nmo); cbn [negb];
    [|intros [= <- <-]; auto].
  destruct (py_index_cases nmo 0) as [[_ [n ->]] | [_ ->]];
    [|cbn [mbind result_bind]; intros [= <- <-]; auto].
  cbn [mbind result_bind].
  destruct (py_index_cases (cshape vectors) 1) as [[_ [nroots ->]] | [_ ->]];
    [|cbn [mbind result_bind]; intros [= <- <-]; auto].
  cbn [mbind result_bind]. unfold reshape_view.
  destruct (fix_unknown_dimension _ _) as [sh|e'] eqn:Ef;
    cbn [mbind result_bind]; [intros E; discriminate E|].
  intros [= <- <-]. apply fix_unknown_dimension_raises in Ef. auto.
Qed.

(** X13: the edge cases of the arguments. An empty tuple of occupied
    counts, or (the occupied counts being equal) an empty tuple of
    orbital counts, raises [IndexError], not [NotImplementedError]; so
    does an array without a second axis; for homogeneous counts with no
    more occupied than total orbitals, an array whose number of elements
    is not [2 * nk^2 * nocc * nvir] times its number of columns raises
    [ValueError]. In each case the store is as it was. *)
Theorem vector_to_amplitudes_edges
    (vectors : carray) (nocc nmo : list nat) (st : store) :
  (nocc = [] ->
   vector_to_amplitudes vectors nocc nmo st = (Raise IndexError, st)) /\
  (homogeneous nocc -> nocc <> [] -> nmo = [] ->
   vector_to_amplitudes vectors nocc nmo st = (Raise IndexError, st)) /\
  (homogeneous nocc -> homogeneous nmo -> nocc <> [] -> nmo <> [] ->
   length (cshape vectors) < 2 ->
   vector_to_amplitudes vectors nocc nmo st = (Raise IndexError, st)) /\
  (forall o n nroots,
     homogeneous nocc -> homogeneous nmo ->
     nocc !! 0 = Some o -> nmo !! 0 = Some n -> o <= n ->
     cshape vectors !! 1 = Some nroots ->
     nelems (cshape vectors)
     <> 2 * length nocc * length nocc * o * (n - o) * nroots ->
     vector_to_amplitudes vectors nocc nmo st = (Raise ValueError, st)).
Proof.
  split; [|split; [|split]].
  - intros ->. reflexivity.
  - intros Hocc Hne ->. unfold vector_to_amplitudes.
    rewrite (proj2 (all_equal_first_spec nocc) Hocc).
    destruct nocc as [|o nocc]; [contradiction|]. reflexivity.
  - intros Hocc Hmo Hne Hne' Hshape. unfold vector_to_amplitudes.
    rewrite (proj2 (all_equal_first_spec nocc) Hocc).
    rewrite (proj2 (all_equal_first_spec nmo) Hmo).
    destruct nocc as [|o nocc]; [contradiction|].
    destruct nmo as [|n nmo]; [contradiction|].
    cbn [negb py_index lookup list_lookup mbind result_bind].
    destruct (py_index_cases (cshape vectors) 1) as [[Hlt _] | [_ ->]]; [lia|].
    reflexivity.
  - intros o n nroots Hocc Hmo Ho Hn Hle Hr Hsize. unfold vector_to_amplitudes.
    rewrite (proj2 (all_equal_first_spec nocc) Hocc).
    rewrite (proj2 (all_equal_first_spec nmo) Hmo).
    rewrite (proj2 (py_index_Ok nocc 0 o) Ho).
    rewrite (proj2 (py_index_Ok nmo 0 n) Hn).
    rewrite (proj2 (py_index_Ok (cshape vectors) 1 nroots) Hr).
    cbn [negb mbind result_bind]. unfold reshape_view.
    replace [2%Z; Z.of_nat (length nocc); Z.of_nat (length nocc); Z.of_nat o;
             (Z.of_nat n - Z.of_nat o)%Z; Z.of_nat nroots]
      with (map Z.of_nat [2; length nocc; length nocc; o; n - o; nroots])
      by (simpl; rewrite Nat2Z.inj_sub by exact Hle; reflexivity).
    rewrite fix_unknown_dimension_nat.
    replace (nelems (cshape vectors)
             =? nelems [2; length nocc; length nocc; o; n - o; nroots])
      with false; [reflexivity|].
    symmetry. apply Nat.eqb_neq. intros E. apply Hsize. rewrite E. simpl. lia.
Qed.

(** What a call that returns tells about its arguments. *)
Lemma vector_to_amplitudes_inv
    (vectors : carray) (nocc nmo : list nat) (st st' : store) (out : view) :
  vector_to_amplitudes vectors nocc nmo st = (Ok out, st') ->
  homogeneous nocc /\ homogeneous nmo /\
  exists o n nroots,
    nocc !! 0 = Some o /\ nmo !! 0 = Some n /\
    cshape vectors !! 1 = Some nroots /\
    vbuf out = buf vectors /\
    (o <= n ->
     nelems (cshape vectors) = 2 * length nocc * length nocc * o * (n - o) * nroots /\
     vshape out = [nroots; 2; length nocc; length nocc; o; n - o]).
Proof.
  unfold vector_to_amplitudes.
  destruct (all_equal_first nocc) eqn:Eocc; cbn [negb]; [|discriminate].
  destruct (py_index_cases nocc 0) as [[_ [o Ho]] | [_ ->]]; [|discriminate].
  rewrite Ho.
  destruct (all_equal_first nmo) eqn:Emo; cbn [negb]; [|discriminate].
  destruct (py_index_cases nmo 0) as [[_ [n Hn]] | [_ ->]]; [|discriminate].
  rewrite Hn. cbn [mbind result_bind].
  destruct (py_index_cases (cshape vectors) 1) as [[_ [nroots Hr]] | [_ ->]];
    [|discriminate].
  rewrite Hr. cbn [mbind result_bind]. unfold reshape_view.
  destruct (fix_unknown_dimension _ _) as [sh|e'] eqn:Ef;
    cbn [mbind result_bind]; [|discriminate].
  intros [= <- <-].
  apply all_equal_first_spec in Eocc, Emo. apply py_index_Ok in Ho, Hn, Hr.
  split; [exact Eocc|]. split; [exact Emo|].
  exists o, n, nroots. repeat (split; [assumption || reflexivity|]).
  intros Hle.
  replace [2%Z; Z.of_nat (length nocc); Z.of_nat (length nocc); Z.of_nat o;
           (Z.of_nat n - Z.of_nat o)%Z; Z.of_nat nroots]
    with (map Z.of_nat [2; length nocc; length nocc; o; n - o; nroots]) in Ef
    by (simpl; rewrite Nat2Z.inj_sub by exact Hle; reflexivity).
  rewrite fix_unknown_dimension_nat in Ef.
  destruct (Nat.eqb_spec (nelems (cshape vectors))
              (nelems [2; length nocc; length nocc; o; n - o; nroots]))
    as [E|_]; [|discriminate Ef].
  injection Ef as <-. split; [rewrite E; simpl; lia | reflexivity].
Qed.

End ReshaperEdges.

(** ** The driver: what it accepts and what it returns *)

Section DriverFacts.
Context `{RhfSlow}.

(** The provider that [kernel] works with. *)
Lemma kernel_with_provider (arg : KRHF + provider) drv nr re :
  exists p,
    model p = model_of arg /\
    match arg with
    | inl mf =>
        new_provider (if iscomplexobj (mo_coeff mf) then PhysERI4 else PhysERI8) mf
        = Ok p
    | inr p0 => p0 = p
    end /\
    (kernel arg drv nr re).2 = (kernel (inr p) drv nr re).2.
Proof.
  destruct arg as [mf|p0].
  - destruct (kconserv_swapped mf) as (kc & Hkc & _).
    unfold kernel. destruct (iscomplexobj (mo_coeff mf)).
    + exists (mk_provider PhysERI4 mf kc ∅). split; [reflexivity|].
      cbn [new_provider snd]. unfold PhysERI4_init. rewrite Hkc.
      split; reflexivity.
    + exists (mk_provider PhysERI8 mf kc ∅). split; [reflexivity|].
      cbn [new_provider snd]. unfold PhysERI8_init. rewrite Hkc.
      split; reflexivity.
  - exists p0. repeat split.
Qed.

Lemma vector_to_amplitudes_fresh_inv (vecs0 : ndarray num) nocc nmo vecs :
  vector_to_amplitudes_fresh vecs0 nocc nmo = Ok vecs ->
  homogeneous nocc /\ homogeneous nmo /\
  exists o n nroots,
    nocc !! 0 = Some o /\ nmo !! 0 = Some n /\
    shape vecs0 !! 1 = Some nroots /\
    (o <= n ->
     nelems (shape vecs0) = 2 * length nocc * length nocc * o * (n - o) * nroots /\
     shape vecs = [nroots; 2; length nocc; length nocc; o; n - o]).
Proof.
  unfold vector_to_amplitudes_fresh.
  destruct (vector_to_amplitudes _ nocc nmo _) as [[out|ex] st'] eqn:E;
    [|discriminate].
  cbn [mbind result_bind]. intros [= <-].
  apply vector_to_amplitudes_inv in E
    as (Hocc & Hmo & o & n & nroots & Ho & Hn & Hr & _ & Hsh).
  split; [exact Hocc|]. split; [exact Hmo|].
  exists o, n, nroots. repeat (split; [assumption|]).
  intros Hle. destruct (Hsh Hle) as [Hsize Hout]. split; [exact Hsize|].
  exact Hout.
Qed.

(** X14: a model whose coefficient arrays have one common shape and
    whose occupied counts differ between k-points is never given
    amplitudes: [kernel] does not return for it, whatever the driver
    and the number of roots. The refusal comes last: when the matrix
    has been built and diagonalised, the call raises the
    [NotImplementedError] of [vector_to_amplitudes]. *)
Theorem kernel_rejects_heterogeneous (arg : KRHF + provider)
    (drv : option string) (nr : option nat) (re : bool) :
  common_shape (mo_coeff (model_of arg)) ->
  ~ homogeneous (k_nocc (model_of arg)) ->
  ~ returns (kernel arg drv nr re).2 /\
  exists p,
    model p = model_of arg /\
    forall mat vals vecs ns,
      build_matrix p = Ok mat -> eig mat drv nr = Ok (vals, vecs) ->
      nmo p = Ok ns ->
      (kernel arg drv nr re).2
      = Raise (NotImplementedError
                 "Varying occupation numbers are not implemented yet").
Proof.
  intros _ Hhet.
  destruct (kernel_with_provider arg drv nr re) as (p & Hp & _ & Hk).
  assert (Hocc : all_equal_first (nocc p) = false).
  { apply not_homogeneous_first. unfold nocc. rewrite Hp. exact Hhet. }
  assert (Hfresh : forall vecs ns,
            vector_to_amplitudes_fresh vecs (nocc p) ns
            = Raise (NotImplementedError
                       "Varying occupation numbers are not implemented yet")).
  { intros vecs ns. unfold vector_to_amplitudes_fresh, vector_to_amplitudes.
    rewrite Hocc. reflexivity. }
  rewrite Hk, kernel_provider. cbn [snd]. split.
  - intros [[[vals vecs] r] E].
    destruct (build_matrix p) as [mat|]; [|discriminate E].
    cbn [mbind result_bind] in E.
    destruct (eig mat drv nr) as [[vals' vecs']|]; [|discriminate E].
    cbn [mbind result_bind] in E.
    destruct (nmo p) as [ns|]; [|discriminate E].
    cbn [mbind result_bind] in E. rewrite Hfresh in E. discriminate E.
  - exists p. split; [exact Hp|].
    intros mat vals vecs ns -> Heig ->. cbn [mbind result_bind].
    rewrite Heig. cbn [mbind result_bind]. rewrite Hfresh. reflexivity.
Qed.

(** X15: what a call of [kernel] that returns has done. The
    eigenvalues are those of [eig] on the matrix of [build_matrix],
    untouched; the model has at least one k-point and the same numbers
    of occupied and of total orbitals at every k-point; the provider is
    part of the value exactly when [return_eri] is set; and, with no
    more occupied than total orbitals, the eigenvectors of [eig] had
    [2 * nk^2 * nocc * nvir] entries per root and the amplitudes have
    the axes (root, x/y, k-point, k-point, occupied, virtual). *)
Theorem kernel_postcondition (arg : KRHF + provider)
    (drv : option string) (nr : option nat) (re : bool)
    (log : list string) (vals : eigenvalues) (vecs : amplitudes)
    (r : option provider) :
  kernel arg drv nr re = (log, Ok (vals, vecs, r)) ->
  exists p mat vecs0 ns o n nroots,
    model p = model_of arg /\
    r = (if re then Some p else None) /\
    build_matrix p = Ok mat /\ eig mat drv nr = Ok (vals, vecs0) /\
    k_nmo (model_of arg) = Ok ns /\
    homogeneous (k_nocc (model_of arg)) /\ homogeneous ns /\
    k_nocc (model_of arg) !! 0 = Some o /\ ns !! 0 = Some n /\
    shape vecs0 !! 1 = Some nroots /\
    (o <= n ->
     let nk := length (k_nocc (model_of arg)) in
     nelems (shape vecs0) = 2 * nk * nk * o * (n - o) * nroots /\
     shape vecs = [nroots; 2; nk; nk; o; n - o]).
Proof.
  intros E.
  destruct (kernel_with_provider arg drv nr re) as (p & Hp & _ & Hk).
  rewrite E, kernel_provider in Hk. cbn [snd] in Hk. symmetry in Hk.
  destruct (build_matrix p) as [mat|] eqn:Em; [|discriminate Hk].
  cbn [mbind result_bind] in Hk.
  destruct (eig mat drv nr) as [[vals' vecs0]|] eqn:Ee; [|discriminate Hk].
  cbn [mbind result_bind] in Hk.
  destruct (nmo p) as [ns|] eqn:En; [|discriminate Hk].
  cbn [mbind result_bind] in Hk.
  destruct (vector_to_amplitudes_fresh vecs0 (nocc p) ns) as [amp|] eqn:Ev;
    [|discriminate Hk].
  cbn [mbind result_bind] in Hk. injection Hk as -> -> <-.
  apply vector_to_amplitudes_fresh_inv in Ev
    as (Hocc & Hmo & o & n & nroots & Ho & Hn & Hr & Hsh).
  unfold nocc in Hocc, Ho, Hsh. unfold nmo in En. rewrite Hp in *.
  exists p, mat, vecs0, ns, o, n, nroots.
  repeat (split; [assumption || reflexivity|]).
  exact Hsh.
Qed.

(** ** The container over its life *)

(** X16: whatever assignments to [driver] and [nroots] and calls of
    [kernel] a container built by [TDRHF(mf)] has gone through, it is
    still a container of [mf], and either it holds nothing ([eri], [xy]
    and [e] are all [None]) or it holds all three: the provider is the
    4-fold provider (complex orbitals) or the 8-fold provider (real
    orbitals) of [mf], never the eager one, and the eigenvalues and
    amplitudes are those of one and the same call of [kernel] on that
    provider. *)
Theorem TDRHF_invariant (mf : KRHF) (l : list action) :
  let self := run (TDRHF_init mf) l in
  _scf self = mf /\
  ((eri self = None /\ xy self = None /\ e self = None) \/
   exists p vals vecs drv nr,
     eri self = Some p /\ xy self = Some vecs /\ e self = Some vals /\
     new_provider (if iscomplexobj (mo_coeff mf) then PhysERI4 else PhysERI8) mf
     = Ok p /\
     kernel (inr p) drv nr true = ([], Ok (vals, vecs, Some p))).
Proof.
  set (Inv := fun self : TDRHF =>
    _scf self = mf /\
    ((eri self = None /\ xy self = None /\ e self = None) \/
     exists p vals vecs drv nr,
       eri self = Some p /\ xy self = Some vecs /\ e self = Some vals /\
       new_provider (if iscomplexobj (mo_coeff mf) then PhysERI4 else PhysERI8) mf
       = Ok p /\
       kernel (inr p) drv nr true = ([], Ok (vals, vecs, Some p)))).
  assert (Hstep : forall self a, Inv self -> Inv (act self a)).
  { intros self a [Hscf Hst]. destruct a as [d|n|]; [split; assumption..|].
    cbn [act]. unfold TDRHF_kernel.
    destruct (kernel _ (driver self) (nroots self) true) as [log r] eqn:Ek.
    destruct r as [[[vals vecs] [p|]]|ex]; cbn [snd]; [|split; assumption..].
    destruct (kernel_returns_provider _ _ _ _ _ _ _ Ek)
      as (p' & [= <-] & Hp & Hrun & _).
    split; [exact Hscf|]. right.
    exists p, vals, vecs, (driver self), (nroots self).
    repeat (split; [reflexivity|]). split; [|exact Hrun].
    destruct Hst as [(He & _ & _) | (p0 & vals0 & vecs0 & drv0 & nr0 &
                                     He & _ & _ & Hp0 & _)];
      rewrite He in Hp.
    - rewrite Hscf in Hp. exact Hp.
    - subst p0. exact Hp0. }
  assert (Hrun : forall l self, Inv self -> Inv (run self l)).
  { induction l0 as [|a l0 IH]; intros self HI; [exact HI|].
    apply IH, Hstep, HI. }
  intros self. apply Hrun. split; [reflexivity|]. left. auto.
Qed.

End DriverFacts.

(** ** The diagonal block *)

Lemma sum_list_cons (x : nat) (l : list nat) : sum_list (x :: l) = x + sum_list l.
Proof. reflexivity. Qed.

Section BlockDiagFacts.
Context {A : Type} `{Inhabited A}.

Lemma diag_get_in_block (zero : A) (arrs : list (ndarray A)) : forall i a r c,
  arrs !! i = Some a ->
  r < shape a !!! 0 -> c < shape a !!! 1 ->
  BlockDiag.diag_get zero arrs
    (sum_list (map (fun b => shape b !!! 0) (take i arrs)) + r)
    (sum_list (map (fun b => shape b !!! 1) (take i arrs)) + c)
  = get a [r; c].
Proof.
  induction arrs as [|a0 rest IH]; intros i a r c Hi Hr Hc; [discriminate Hi|].
  destruct i as [|i]; simpl in Hi.
  - injection Hi as ->. cbn [take map sum_list BlockDiag.diag_get Nat.add].
    apply Nat.ltb_lt in Hr, Hc. rewrite Hr, Hc. reflexivity.
  - cbn [take map BlockDiag.diag_get]. cbv zeta. rewrite !sum_list_cons.
    set (rr := shape a0 !!! 0). set (cc := shape a0 !!! 1).
    set (R := sum_list (map (fun b => shape b !!! 0) (take i rest))).
    set (C := sum_list (map (fun b => shape b !!! 1) (take i rest))).
    replace (rr + R + r <? rr) with false by (symmetry; apply Nat.ltb_ge; lia).
    replace (cc + C + c <? cc) with false by (symmetry; apply Nat.ltb_ge; lia).
    cbn [andb orb].
    replace (rr + R + r - rr) with (R + r) by lia.
    replace (cc + C + c - cc) with (C + c) by lia.
    apply IH; assumption.
Qed.

Lemma diag_get_off_blocks (zero : A) (arrs : list (ndarray A)) : forall r c,
  (forall i a, arrs !! i = Some a ->
     let R := sum_list (map (fun b => shape b !!! 0) (take i arrs)) in
     let C := sum_list (map (fun b => shape b !!! 1) (take i arrs)) in
     ~ (R <= r < R + shape a !!! 0 /\ C <= c < C + shape a !!! 1)) ->
  BlockDiag.diag_get zero arrs r c = zero.
Proof.
  induction arrs as [|a0 rest IH]; intros r c Hout; [reflexivity|].
  cbn [BlockDiag.diag_get]. cbv zeta.
  set (rr := shape a0 !!! 0). set (cc := shape a0 !!! 1).
  destruct (Nat.ltb_spec r rr) as [Hr|Hr]; destruct (Nat.ltb_spec c cc) as [Hc|Hc];
    cbn [andb orb]; try reflexivity.
  - exfalso. apply (Hout 0 a0 eq_refl). simpl. fold rr cc. lia.
  - apply IH. intros i a Hi R C [HR HC].
    apply (Hout (S i) a Hi). cbn [take map]. rewrite !sum_list_cons.
    fold rr cc R C. lia.
Qed.

(** [block_diag] on two-dimensional blocks. *)
Lemma block_diag_matrices (zero : A) (arrs : list (ndarray A)) :
  arrs <> [] ->
  Forall (fun a => exists h w, shape a = [h; w]) arrs ->
  BlockDiag.block_diag zero arrs
  = Ok (tabulate [sum_list (map (fun a => shape a !!! 0) arrs);
                  sum_list (map (fun a => shape a !!! 1) arrs)]
          (fun ix => BlockDiag.diag_get zero arrs (ix !!! 0) (ix !!! 1))).
Proof.
  intros Hne Hall. unfold BlockDiag.block_diag.
  destruct arrs as [|a0 rest]; [contradiction|].
  assert (Hid : map (Block.atleast_nd 2) (a0 :: rest) = a0 :: rest).
  { rewrite <- (map_id (a0 :: rest)) at 2. apply map_ext_in.
    intros a Ha. rewrite Forall_forall in Hall.
    destruct (Hall a) as (h & w & Hs); [apply list_elem_of_In, Ha|].
    apply (atleast_2d_id a h w Hs). }
  rewrite Hid.
  replace (existsb (fun a => 2 <? length (shape a)) (a0 :: rest)) with false;
    [reflexivity|].
  symmetry. apply not_true_is_false. intros E.
  apply existsb_exists in E as (a & Ha & E). rewrite Forall_forall in Hall.
  destruct (Hall a) as (h & w & Hs); [apply list_elem_of_In, Ha|].
  rewrite Hs in E. discriminate E.
Qed.

End BlockDiagFacts.

Section DiagonalFacts.
Context `{Diagonal}.

(** X17: [__get_mo_energies__] on a model with one table of energies
    and one table of occupations per k-point: for two k-points of the
    model it returns the first [nocc[k1]] energies of [k1] and all but
    the first [nocc[k2]] energies of [k2]; for one and the same k-point
    the two parts, put one after the other, are the energies of the
    k-point (none is lost, none is taken twice); an index that is no
    k-point raises [IndexError]. *)
Theorem get_mo_energies_partition (self : provider) (k1 k2 : nat) :
  length (mo_energy (model self)) = length (mo_occ (model self)) ->
  let n := length (mo_occ (model self)) in
  let en k := mo_energy (model self) !!! k in
  let o k := nocc self !!! k in
  (k1 < n -> k2 < n ->
   __get_mo_energies__ self k1 k2 = Ok (take (o k1) (en k1), drop (o k2) (en k2)) /\
   length (take (o k1) (en k1)) = o k1 `min` length (en k1) /\
   length (drop (o k2) (en k2)) = length (en k2) - o k2 /\
   (k1 = k2 -> take (o k1) (en k1) ++ drop (o k2) (en k2) = en k1)) /\
  (~ (k1 < n /\ k2 < n) -> __get_mo_energies__ self k1 k2 = Raise IndexError).
Proof.
  intros Hlen n en o.
  assert (Hno : length (nocc self) = n)
    by (unfold nocc, k_nocc; apply length_map).
  split.
  - intros H1 H2. unfold __get_mo_energies__.
    rewrite !py_index_lt by lia. cbn [mbind result_bind].
    split; [reflexivity|]. split; [apply length_take|].
    split; [apply length_drop|].
    intros <-. apply take_drop.
  - intros Hout. unfold __get_mo_energies__.
    destruct (py_index_cases (mo_energy (model self)) k1) as [[L1 [e1 ->]] | [_ ->]];
      [|reflexivity].
    cbn [mbind result_bind].
    destruct (py_index_cases (nocc self) k1) as [[_ [o1 ->]] | [_ ->]];
      [|reflexivity].
    cbn [mbind result_bind].
    destruct (py_index_cases (mo_energy (model self)) k2) as [[L2 [e2 ->]] | [_ ->]];
      [|reflexivity].
    exfalso. apply Hout. unfold n. lia.
Qed.

Lemma tdhf_diag_blocks_Ok (self : provider) (blk : nat * nat -> ndarray scalar) :
  forall l,
    (forall p, In p l -> tdhf_diag_k self p.1 p.2 = Ok (blk p)) ->
    tdhf_diag_blocks self l = (Ok (map blk l), []).
Proof.
  induction l as [|p l IH]; intros Hl; [reflexivity|].
  cbn [tdhf_diag_blocks]. rewrite Hl by (left; reflexivity).
  rewrite IH by (intros; apply Hl; right; assumption). reflexivity.
Qed.

(** X18: when the argument yields the non-empty list of pairs [ps] and
    the diagonal block of every pair is returned as a matrix,
    [tdhf_diag] returns the block diagonal matrix of these blocks: its
    numbers of rows and of columns are the sums of theirs, block [i]
    lies below and to the right of the blocks before it, every entry
    outside the blocks is zero, and (unlike in [eri_mknj]) no entry is
    divided by the number of k-points. An argument that is an iterator
    is exhausted by the call. *)
Theorem tdhf_diag_block_diagonal (self : provider) (pairs : iterable)
    (its : iterators) (blk : nat * nat -> ndarray scalar)
    (hgt wid : nat * nat -> nat) :
  let ps := remaining pairs its in
  let R i := sum_list (map hgt (take i ps)) in
  let C i := sum_list (map wid (take i ps)) in
  ps <> [] ->
  (forall p, In p ps ->
     tdhf_diag_k self p.1 p.2 = Ok (blk p) /\ shape (blk p) = [hgt p; wid p]) ->
  exists M,
    tdhf_diag self (Some pairs) its = (Ok M, advance pairs [] its) /\
    shape M = [sum_list (map hgt ps); sum_list (map wid ps)] /\
    well_formed M /\
    (forall i p a b, ps !! i = Some p -> a < hgt p -> b < wid p ->
       get M [R i + a; C i + b] = get (blk p) [a; b]) /\
    (forall r c,
       r < sum_list (map hgt ps) -> c < sum_list (map wid ps) ->
       (forall i p, ps !! i = Some p ->
          ~ (R i <= r < R i + hgt p /\ C i <= c < C i + wid p)) ->
       get M [r; c] = szero).
Proof.
  intros ps R C Hne Hblk.
  assert (Hsh : forall f (g : nat * nat -> nat) l,
            (forall p, In p l -> f (blk p) = g p) ->
            sum_list (map f (map blk l)) = sum_list (map g l)).
  { intros f g l Hfg. rewrite map_map. f_equal. apply map_ext_in. exact Hfg. }
  assert (Hrow : forall p, In p ps -> shape (blk p) !!! 0 = hgt p).
  { intros p Hp. rewrite (proj2 (Hblk p Hp)). reflexivity. }
  assert (Hcol : forall p, In p ps -> shape (blk p) !!! 1 = wid p).
  { intros p Hp. rewrite (proj2 (Hblk p Hp)). reflexivity. }
  assert (Htake : forall i p, In p (take i ps) -> In p ps).
  { intros i p Hp. apply list_elem_of_In. apply list_elem_of_In in Hp.
    apply elem_of_take in Hp as (j & Hj & _). eapply list_elem_of_lookup_2, Hj. }
  assert (HR : forall i, sum_list (map (fun b => shape b !!! 0) (take i (map blk ps)))
                         = R i).
  { intros i. change (map blk ps) with (blk <$> ps). rewrite <- fmap_take.
    apply (Hsh (fun b => shape b !!! 0) hgt). eauto. }
  assert (HC : forall i, sum_list (map (fun b => shape b !!! 1) (take i (map blk ps)))
                         = C i).
  { intros i. change (map blk ps) with (blk <$> ps). rewrite <- fmap_take.
    apply (Hsh (fun b => shape b !!! 1) wid). eauto. }
  pose proof (Hsh (fun b => shape b !!! 0) hgt ps Hrow) as E0.
  pose proof (Hsh (fun b => shape b !!! 1) wid ps Hcol) as E1.
  exists (tabulate [sum_list (map hgt ps); sum_list (map wid ps)]
            (fun ix => BlockDiag.diag_get szero (map blk ps) (ix !!! 0) (ix !!! 1))).
  split.
  { unfold tdhf_diag. fold ps.
    rewrite (tdhf_diag_blocks_Ok self blk ps) by (intros; apply Hblk; assumption).
    cbn [mbind result_bind].
    rewrite block_diag_matrices.
    - rewrite E0, E1. reflexivity.
    - destruct ps; [contradiction | discriminate].
    - apply Forall_forall. intros b Hb.
      apply list_elem_of_In, in_map_iff in Hb as (p & <- & Hp).
      exists (hgt p), (wid p). apply Hblk, Hp. }
  split; [reflexivity|]. split; [apply tabulate_well_formed|]. split.
  - intros i p a b Hi Ha Hb.
    assert (Hp : In p ps) by (apply list_elem_of_In; eapply list_elem_of_lookup_2, Hi).
    pose proof (sum_take_lt hgt ps i p Hi).
    pose proof (sum_take_lt wid ps i p Hi).
    rewrite get_tabulate
      by (unfold R, C; constructor; [lia | constructor; [lia | constructor]]).
    cbn [lookup_total list_lookup_total].
    rewrite <- (HR i), <- (HC i).
    apply diag_get_in_block.
    + change (map blk ps) with (blk <$> ps). rewrite list_lookup_fmap, Hi. reflexivity.
    + rewrite (Hrow p Hp). exact Ha.
    + rewrite (Hcol p Hp). exact Hb.
  - intros r c Hr Hc Hout.
    rewrite get_tabulate
      by (constructor; [assumption | constructor; [assumption | constructor]]).
    cbn [lookup_total list_lookup_total].
    apply diag_get_off_blocks. intros i a Hi. cbv zeta.
    change (map blk ps) with (blk <$> ps) in Hi.
    rewrite list_lookup_fmap in Hi.
    destruct (ps !! i) as [p|] eqn:Hp; [|discriminate Hi].
    injection Hi as <-.
    assert (Hin : In p ps) by (apply list_elem_of_In; eapply list_elem_of_lookup_2, Hp).
    rewrite (HR i), (HC i), (Hrow p Hin), (Hcol p Hin).
    apply (Hout i p Hp).
Qed.

(** X19: when the argument yields no pair, [tdhf_diag] does not raise
    (where [eri_mknj] does): it returns the array of shape [(1, 0)]
    that [block_diag] makes of no block. *)
Theorem tdhf_diag_no_pairs (self : provider) (pairs : iterable) (its : iterators) :
  remaining pairs its = [] ->
  tdhf_diag self (Some pairs) its = (Ok (mk_ndarray [1; 0] []), advance pairs [] its).
Proof.
  intros Hnil. unfold tdhf_diag. rewrite Hnil. reflexivity.
Qed.

(** X20: without argument, the diagonal blocks are those of all the
    [N_k ^ 2] pairs of k-points in the order of [eri_mknj]; the
    iterators of the caller are not touched. *)
Theorem tdhf_diag_default_pairs (self : provider) (its : iterators) :
  let n := length (kpts (model self)) in
  (tdhf_diag self None its).1
  = (tdhf_diag self (Some (Sequence (product_range n))) its).1 /\
  forall id, is_Some (its !! id) -> (tdhf_diag self None its).2 !! id = its !! id.
Proof.
  intros n. unfold tdhf_diag, new_product. fold n.
  set (id1 := fresh (dom its)).
  cbn [remaining advance]. rewrite lookup_insert_eq. cbn [default].
  unfold Datatypes.id.
  destruct (tdhf_diag_blocks self (product_range n)) as [res rest].
  split; [reflexivity|].
  intros id Hid. cbn [snd].
  assert (Hn1 : id <> id1).
  { intros ->. apply (is_fresh (dom its)). apply elem_of_dom, Hid. }
  rewrite !lookup_insert_ne by congruence. reflexivity.
Qed.

End DiagonalFacts.

(** * The further properties on the small system *)

Section MoreExamples.
#[local] Existing Instance Toy.backend.

(** X1 on the small system: one doubly occupied orbital out of two at
    each k-point. *)
Lemma k_nocc_closed_shell_witness :
  k_nocc Toy.mf !! 1 = Some 1 /\ k_nocc Toy.mf !!! 1 <= 2.
Proof.
  apply (proj2 (@k_nocc_closed_shell Toy.backend Toy.mf
                  ltac:(repeat first [apply List.Forall_nil | apply List.Forall_cons
                                     | left; reflexivity | right; reflexivity]))
           1 [2; 0] eq_refl).
Defined.

(** X2 on the small system: the transform for the quadruple
    [(0, 1, 1, 0)]. *)
Lemma ao2mo_k_phys_order_witness :
  exists t,
    ao2mo_k Toy.mf [mk_ndarray [2; 2] [1; 2; 3; 4]%Q; mk_ndarray [2; 2] [5; 6; 7; 8]%Q;
                    mk_ndarray [2; 2] [5; 6; 7; 8]%Q; mk_ndarray [2; 2] [1; 2; 3; 4]%Q]
            [0; 1; 1; 0] = Ok t /\
    shape t = [2; 2; 2; 2].
Proof.
  evar (raw : ndarray Q).
  assert (Hraw : @df_ao2mo Toy.backend tt
                   [mk_ndarray [2; 2] [1; 2; 3; 4]%Q; mk_ndarray [2; 2] [5; 6; 7; 8]%Q;
                    mk_ndarray [2; 2] [5; 6; 7; 8]%Q; mk_ndarray [2; 2] [1; 2; 3; 4]%Q]
                   [0; 1; 1; 0] = Ok raw) by (unfold raw; reflexivity).
  destruct (@ao2mo_k_phys_order Toy.backend Toy.mf
              (mk_ndarray [2; 2] [1; 2; 3; 4]%Q) (mk_ndarray [2; 2] [5; 6; 7; 8]%Q)
              (mk_ndarray [2; 2] [5; 6; 7; 8]%Q) (mk_ndarray [2; 2] [1; 2; 3; 4]%Q)
              0 1 1 0 0 1 1 0 2 2 2 2 raw
              eq_refl eq_refl eq_refl eq_refl eq_refl eq_refl eq_refl eq_refl
              Hraw eq_refl)
    as (t & Ht & Hsh & _).
  exists t. split; assumption.
Defined.

(** X3 on the small system: the index 2 is no k-point. *)
Lemma ao2mo_k_failures_witness :
  ao2mo_k Toy.mf [mk_ndarray [2; 2] [1; 2; 3; 4]%Q; mk_ndarray [2; 2] [5; 6; 7; 8]%Q;
                  mk_ndarray [2; 2] [5; 6; 7; 8]%Q; mk_ndarray [2; 2] [1; 2; 3; 4]%Q]
          [0; 1; 2; 0] = Raise IndexError.
Proof.
  apply (proj1 (proj2 (@ao2mo_k_failures Toy.backend Toy.mf))).
  intros Hall. inversion Hall as [|? ? _ H1]; subst.
  inversion H1 as [|? ? _ H2]; subst. inversion H2 as [|? ? H3 _]; subst.
  simpl in H3. lia.
Defined.


(** X5 on the small system: the block of letters [ovvo] of the
    conserving quadruple [(0, 1, 1, 0)] on the 4-fold provider. *)
Lemma calc_block_conserving_shape_witness :
  exists self b,
    new_provider PhysERI4 Toy.mf = Ok self /\
    __calc_block__ self ["o"; "v"; "v"; "o"]%char [0; 1; 1; 0] = Ok b /\
    shape b = [1; 1; 1; 1] /\
    shape b = ov_shape (k_nocc Toy.mf) [2; 2] ["o"; "v"; "v"; "o"]%char [0; 1; 1; 0].
Proof.
  evar (self : @provider Toy.backend).
  assert (Hnew : new_provider PhysERI4 Toy.mf = Ok self) by (unfold self; reflexivity).
  evar (b : ndarray Q).
  assert (Hb : __calc_block__ self ["o"; "v"; "v"; "o"]%char [0; 1; 1; 0] = Ok b)
    by (unfold b, self; reflexivity).
  exists self, b.
  split; [exact Hnew|]. split; [exact Hb|].
  destruct (@calc_block_conserving_shape Toy.backend PhysERI4 Toy.mf _
              "o"%char "v"%char "v"%char "o"%char 0 1 1 0
              (mk_ndarray [2; 2] [1; 2; 3; 4]%Q) (mk_ndarray [2; 2] [5; 6; 7; 8]%Q)
              (mk_ndarray [2; 2] [5; 6; 7; 8]%Q) (mk_ndarray [2; 2] [1; 2; 3; 4]%Q)
              2 2 2 2 2 2 2 2 _ Hnew
              eq_refl eq_refl eq_refl eq_refl eq_refl eq_refl
              eq_refl eq_refl eq_refl eq_refl eq_refl Hb)
    as [Hsh Hov].
  split; [exact Hsh|].
  apply (Hov [2; 2] eq_refl eq_refl eq_refl eq_refl eq_refl);
    cbv; lia.
Defined.

(** X6 on the small system: the 8-fold provider. *)
Lemma lazy_constructors_witness :
  exists self,
    new_provider PhysERI8 Toy.mf = Ok self /\ __full_eri_k__ self = ∅ /\
    getitem (kconserv self) [0; 1; 0] = Ok 1.
Proof.
  destruct (@lazy_constructors Toy.backend PhysERI8 Toy.mf ltac:(discriminate))
    as (self & Hnew & _ & _ & Hcache & _ & Hkc).
  exists self. split; [exact Hnew|]. split; [exact Hcache|].
  apply (Hkc 0 1 0); cbv; lia.
Defined.

End MoreExamples.

Section MoreExamples7.
#[local] Existing Instance Toy.backend.
#[local] Existing Instance Toy.rhf_slow.

(** X8 on the small system: rows but no column. *)
Lemma eri_mknj_nothing_to_merge_witness :
  exists self,
    PhysERI4_init Toy.mf = Ok self /\
    (eri_mknj self "mknj" (Some (Sequence [(0, 0); (1, 0)])) (Some (Sequence [])) ∅).1
    = Raise ValueError.
Proof.
  evar (self : @provider Toy.backend).
  assert (Hself : PhysERI4_init Toy.mf = Ok self) by (unfold self; reflexivity).
  exists self. split; [exact Hself|].
  apply (@eri_mknj_nothing_to_merge Toy.backend float64 Toy.rhf_slow).
  left. reflexivity.
Defined.

(** X15 on the small system: one root, two k-points, one occupied and
    one virtual orbital. *)
Lemma kernel_postcondition_witness :
  exists vals vecs,
    kernel (inl Toy.mf) None None false
    = (["8-fold symmetry used (real orbitals)"%string], Ok (vals, vecs, None)) /\
    shape vecs = [1; 2; 2; 2; 1; 1].
Proof.
  eexists. eexists.
  assert (Hrun : kernel (inl Toy.mf) None None false = (_, Ok (_, _, None)))
    by reflexivity.
  split; [exact Hrun|].
  destruct (@kernel_postcondition Toy.backend float64 Toy.rhf_slow
              _ _ _ _ _ _ _ _ Hrun)
    as (p & mat & vecs0 & ns & o & n & nroots & _ & _ & _ & Heig & Hns &
        _ & _ & Ho & Hn & Hr & Hsh).
  injection Heig as <-. injection Hns as <-.
  injection Ho as <-. injection Hn as <-. injection Hr as <-.
  apply Hsh. cbv. lia.
Defined.

(** X14 on the small system with two occupied orbitals at the second
    k-point; both coefficient matrices are 2 x 2. *)
Lemma kernel_rejects_heterogeneous_witness :
  let mf := @mk_KRHF Toy.backend tt [0; 1]
              [mk_ndarray [2; 2] [1; 2; 3; 4]%Q; mk_ndarray [2; 2] [5; 6; 7; 8]%Q]
              [[2; 0]; [2; 2]] tt in
  ~ returns (kernel (inl mf) None None false).2.
Proof.
  intros mf.
  apply (@kernel_rejects_heterogeneous Toy.backend float64 Toy.rhf_slow (inl mf)).
  { intros a b [<- | [<- | []]] [<- | [<- | []]]; reflexivity. }
  intros Hh. specialize (Hh 1 2 ltac:(left; reflexivity)
                            ltac:(right; left; reflexivity)).
  discriminate Hh.
Defined.

End MoreExamples7.

Section MoreExamplesFailing.
#[local] Existing Instance Toy.backend.
#[local] Existing Instance ToyFailing.rhf_slow.

(** X11 on the small system with failing blocks: in the second row the
    block of the second column raises; the row iterator is left after
    the second of its three rows. *)
Lemma eri_mknj_first_failure_witness :
  exists self,
    PhysERI4_init Toy.mf = Ok self /\
    eri_mknj self "mknj" (Some (Iterator 0)) (Some (Sequence [(0, 0); (1, 0)]))
             {[ 0 := [(0, 0); (1, 1); (0, 1)] ]}
    = (Raise (ExternalError 2), {[ 0 := [(0, 1)] ]}).
Proof.
  evar (self : @provider Toy.backend).
  assert (Hself : PhysERI4_init Toy.mf = Ok self) by (unfold self; reflexivity).
  exists self. split; [exact Hself|].
  rewrite (@eri_mknj_first_failure Toy.backend float64 ToyFailing.rhf_slow
             self "mknj" (Iterator 0) (Sequence [(0, 0); (1, 0)])
             {[ 0 := [(0, 0); (1, 1); (0, 1)] ]} 1 1 (1, 1) (1, 0) (ExternalError 2)).
  - reflexivity.
  - reflexivity.
  - reflexivity.
  - reflexivity.
  - intros i' j' r' c' Hr' Hc' Hlt.
    destruct i' as [|[|i']]; [| |lia]; vm_compute in Hr'; cbn [remaining] in Hc'.
    + injection Hr' as <-.
      destruct j' as [|[|j']]; [injection Hc' as <- | injection Hc' as <- | discriminate Hc'];
        eexists; reflexivity.
    + injection Hr' as <-.
      destruct j' as [|j']; [|lia]. injection Hc' as <-.
      eexists; reflexivity.
Defined.

End MoreExamplesFailing.

Section MoreExamples1.

(** X12: an empty tuple of occupied counts. *)
Lemma vector_to_amplitudes_exception_safe_witness :
  exists e,
    vector_to_amplitudes (H := float64) (mk_carray 0 [2; 1]) [] [3]
      {[ 0 := [Some 1%R; Some 0%R] ]}
    = (Raise e, {[ 0 := [Some 1%R; Some 0%R] ]}).
Proof.
  destruct (vector_to_amplitudes (H := float64) (mk_carray 0 [2; 1]) [] [3]
              {[ 0 := [Some 1%R; Some 0%R] ]}) as [[out|e] st'] eqn:E;
    [discriminate E|].
  exists e. f_equal.
  apply (proj1 (@vector_to_amplitudes_exception_safe float64 _ _ _ _ _ _ E)).
Defined.

(** X13: three rows cannot hold the x and y parts of one amplitude. *)
Lemma vector_to_amplitudes_edges_witness :
  vector_to_amplitudes (H := float64) (mk_carray 0 [3; 1]) [1] [2]
    {[ 0 := [Some 1%R; Some 0%R; Some 0%R] ]}
  = (Raise ValueError, {[ 0 := [Some 1%R; Some 0%R; Some 0%R] ]}).
Proof.
  apply (proj2 (proj2 (proj2 (@vector_to_amplitudes_edges float64
           (mk_carray 0 [3; 1]) [1] [2] {[ 0 := [Some 1%R; Some 0%R; Some 0%R] ]})))
         1 2 1).
  - apply homogeneous_singleton.
  - apply homogeneous_singleton.
  - reflexivity.
  - reflexivity.
  - lia.
  - reflexivity.
  - cbv. lia.
Defined.

End MoreExamples1.

Section MoreExamplesDiagonal.
#[local] Existing Instance Toy.backend.
#[local] Existing Instance ToyDiagonal.diagonal.

(** X17 on the small system: the first k-point. *)
Lemma get_mo_energies_partition_witness :
  exists self,
    PhysERI4_init Toy.mf = Ok self /\
    __get_mo_energies__ self 0 0 = Ok ([(-5)%Z], [3%Z]).
Proof.
  evar (self : @provider Toy.backend).
  assert (Hself : PhysERI4_init Toy.mf = Ok self) by (unfold self; reflexivity).
  exists self. split; [exact Hself|].
  apply (proj1 (@get_mo_energies_partition Toy.backend ToyDiagonal.diagonal
                  self 0 0 eq_refl)); cbv; lia.
Defined.

(** X18 on the small system: the pairs [(0, 0)] and [(1, 0)] given as an
    iterator; the blocks have 1 and 2 rows and 1 column each. *)
Lemma tdhf_diag_block_diagonal_witness :
  exists self M its',
    PhysERI4_init Toy.mf = Ok self /\
    tdhf_diag self (Some (Iterator 0)) {[ 0 := [(0, 0); (1, 0)] ]} = (Ok M, its') /\
    its' !! 0 = Some [] /\
    shape M = [3; 2] /\
    get M [2; 1] = 1011%Q /\ get M [2; 0] = 0%Q.
Proof.
  evar (self : @provider Toy.backend).
  assert (Hself : PhysERI4_init Toy.mf = Ok self) by (unfold self; reflexivity).
  destruct (@tdhf_diag_block_diagonal Toy.backend ToyDiagonal.diagonal self
              (Iterator 0) {[ 0 := [(0, 0); (1, 0)] ]}
              (fun p => tabulate [p.1 + 1; p.2 + 1]
                 (fun ix => inject_Z (Z.of_nat (1000 * p.1 + 100 * p.2
                                                + 10 * ix !!! 0 + ix !!! 1 + 1))))
              (fun p => p.1 + 1) (fun p => p.2 + 1))
    as (M & Hrun & Hshape & _ & Hin & Hout).
  - vm_compute. discriminate.
  - intros p _. split; reflexivity.
  - exists self, M. eexists. split; [exact Hself|]. split; [exact Hrun|].
    split; [reflexivity|]. split; [exact Hshape|]. split.
    + exact (Hin 1 (1, 0) 1 0 eq_refl ltac:(cbn; lia) ltac:(cbn; lia)).
    + apply (@eq_trans _ _ (@szero Toy.backend) _); [|reflexivity].
      apply Hout; [vm_compute; lia | vm_compute; lia |].
      intros i p Hp.
      destruct i as [|[|i]]; vm_compute in Hp;
        [injection Hp as <- | injection Hp as <- | discriminate Hp];
        vm_compute; lia.
Defined.

(** X19 on the small system: an empty list of pairs. *)
Lemma tdhf_diag_no_pairs_witness :
  exists self,
    PhysERI4_init Toy.mf = Ok self /\
    tdhf_diag self (Some (Sequence [])) ∅ = (Ok (mk_ndarray [1; 0] []), ∅).
Proof.
  evar (self : @provider Toy.backend).
  assert (Hself : PhysERI4_init Toy.mf = Ok self) by (unfold self; reflexivity).
  exists self. split; [exact Hself|].
  apply (@tdhf_diag_no_pairs Toy.backend ToyDiagonal.diagonal self (Sequence []) ∅).
  reflexivity.
Defined.

End MoreExamplesDiagonal.

(** ** The reshaper and the scale of the eigenvectors *)

Section Scale.
Context `{Dtype}.
Variables (vectors : carray) (nocc nmo : list nat).
Variables (o n nroots : nat).

Let m := length nocc * length nocc * o * (n - o).
Let out := transpose (mk_view (buf vectors) [2; length nocc; length nocc; o; n - o; nroots]
                        (c_strides [2; length nocc; length nocc; o; n - o; nroots]))
                     [5; 0; 1; 2; 3; 4].

Hypothesis nocc_homogeneous : homogeneous nocc.
Hypothesis nmo_homogeneous : homogeneous nmo.
Hypothesis nocc_first : nocc !! 0 = Some o.
Hypothesis nmo_first : nmo !! 0 = Some n.
Hypothesis occupied_le : o <= n.
Hypothesis vectors_shape : cshape vectors = [2 * m; nroots].

(** X21: eigenvectors that are normalised already are left as they
    are. When [2 * (sum|x|^2 - sum|y|^2)] is 1 for every column of the
    matrix (and division by 1 is exact), [vector_to_amplitudes] writes
    back into the array of the caller the numbers it found there. *)
Theorem vector_to_amplitudes_on_normalised (st : store) (d : list num) :
  st !! buf vectors = Some d ->
  length d = 2 * m * nroots ->
  (forall x : elt, ddiv x 1 = x) ->
  (forall r, r < nroots -> column_norm st vectors m r = Some 1%R) ->
  exists st',
    vector_to_amplitudes vectors nocc nmo st = (Ok out, st') /\
    forall row r, row < 2 * m -> r < nroots ->
      cget st' vectors [row; r] = cget st vectors [row; r].
Proof.
  intros Hbuf Hlen Hone Hnorm.
  eexists. split.
  { apply (vector_to_amplitudes_run vectors nocc nmo st o n nroots d); assumption. }
  intros row r Hrow Hr.
  rewrite (divided_entry vectors nocc st o n nroots d) by assumption.
  rewrite (norm_root_column vectors nocc st o n nroots d) by assumption.
  fold m. rewrite (Hnorm r Hr).
  unfold osqrt, odiv. cbn [mbind option_bind].
  destruct (Rlt_dec 1 0) as [Hneg|_]; [lra|]. rewrite sqrt_1.
  destruct (cget st vectors [row; r]) as [x|]; [|reflexivity].
  cbn [mbind option_bind].
  destruct (Req_dec_T 1 0) as [Hz|_]; [lra|]. rewrite Hone. reflexivity.
Qed.

Lemma rsum_scale {B} (h : B -> R) (c : R) (l : list B) :
  rsum (map (fun x => c * h x)%R l) = (c * rsum (map h l))%R.
Proof.
  induction l as [|x l IH]; simpl; [ring|]. rewrite IH. ring.
Qed.

Lemma rsum_ext {B} (f g : B -> R) (l : list B) :
  (forall x, In x l -> f x = g x) -> rsum (map f l) = rsum (map g l).
Proof. intros Hfg. f_equal. apply map_ext_in, Hfg. Qed.

(** X22: the amplitudes do not depend on the scale of the
    eigenvectors. For a positive factor [c] (with [scale] the
    multiplication of a number by [c]), the matrix of finite numbers [d]
    and the matrix of the same numbers multiplied by [c] give, for every
    root of positive norm, the same amplitudes. *)
Theorem vector_to_amplitudes_scale_invariant
    (st st2 : store) (d : list num) (scale : elt -> elt) (c : R) :
  st !! buf vectors = Some d ->
  st2 !! buf vectors = Some ((fun x : num => scale <$> x) <$> d) ->
  length d = 2 * m * nroots ->
  finite d ->
  (0 < c)%R ->
  (forall x, dabs (scale x) = (c * dabs x)%R) ->
  (forall x s, (0 < s)%R -> ddiv (scale x) (c * s) = ddiv x s) ->
  exists st' st2',
    vector_to_amplitudes vectors nocc nmo st = (Ok out, st') /\
    vector_to_amplitudes vectors nocc nmo st2 = (Ok out, st2') /\
    forall r N,
      r < nroots -> column_norm st vectors m r = Some N -> (0 < N)%R ->
      forall dd k1 k2 i a,
        dd < 2 -> k1 < length nocc -> k2 < length nocc -> i < o -> a < n - o ->
        vget st2' out [r; dd; k1; k2; i; a] = vget st' out [r; dd; k1; k2; i; a].
Proof.
  intros Hbuf Hbuf2 Hlen Hfin Hc Habs Hdiv.
  set (d2 := (fun x : num => scale <$> x) <$> d) in *.
  assert (Hlen2 : length d2 = 2 * m * nroots)
    by (unfold d2; rewrite length_fmap; exact Hlen).
  assert (Hfin2 : finite d2).
  { unfold finite. unfold d2. apply Forall_fmap.
    eapply Forall_impl; [exact Hfin|].
    intros x [t ->]. eexists. reflexivity. }
  assert (Hentry : forall row r, row < 2 * m -> r < nroots ->
            cget st2 vectors [row; r] = scale <$> cget st vectors [row; r]).
  { intros row r Hrow Hr. unfold cget.
    rewrite (lookup_total_correct st (buf vectors) d Hbuf).
    rewrite (lookup_total_correct st2 (buf vectors) d2 Hbuf2).
    rewrite vectors_shape.
    assert (Hlt : ravel [2 * m; nroots] [row; r] < length d).
    { rewrite Hlen. simpl. nia. }
    unfold d2. apply list_lookup_total_fmap. exact Hlt. }
  assert (Hsq : forall row r, row < 2 * m -> r < nroots ->
            sqmod (cget st2 vectors [row; r])
            = (c * c * sqmod (cget st vectors [row; r]))%R).
  { intros row r Hrow Hr. rewrite (Hentry row r Hrow Hr).
    destruct (entry_finite vectors nocc st o n nroots d occupied_le vectors_shape
                Hbuf Hlen Hfin row r Hrow Hr) as [t ->].
    unfold sqmod, abs2.
    cbn [fmap option_fmap option_map default from_option].
    unfold Datatypes.id. rewrite Habs. ring. }
  eexists. eexists. split.
  { apply (vector_to_amplitudes_run vectors nocc nmo st o n nroots d); assumption. }
  split.
  { apply (vector_to_amplitudes_run vectors nocc nmo st2 o n nroots d2); assumption. }
  intros r N Hr HN Hpos dd k1 k2 i a Hd Hk1 Hk2 Hi Ha.
  assert (Hb : in_bounds [length nocc; length nocc; o; n - o] [k1; k2; i; a])
    by (repeat constructor; assumption).
  rewrite (amplitude_entry vectors nocc st o n nroots d) by assumption.
  rewrite (amplitude_entry vectors nocc st2 o n nroots d2) by assumption.
  fold m.
  set (row := ravel [2; length nocc; length nocc; o; n - o] [dd; k1; k2; i; a]).
  assert (Hrow : row < 2 * m).
  { pose proof (ravel_lt [2; length nocc; length nocc; o; n - o] [dd; k1; k2; i; a]) as Hlt.
    unfold row, m. simpl in Hlt |- *.
    assert (Hin : in_bounds [2; length nocc; length nocc; o; n - o] [dd; k1; k2; i; a])
      by (constructor; [exact Hd | exact Hb]).
    specialize (Hlt Hin). lia. }
  assert (HN2 : column_norm st2 vectors m r = Some (c * c * N)%R).
  { pose proof (column_norm_finite vectors nocc st o n nroots d occupied_le
                  vectors_shape Hbuf Hlen Hfin r Hr) as E1.
    pose proof (column_norm_finite vectors nocc st2 o n nroots d2 occupied_le
                  vectors_shape Hbuf2 Hlen2 Hfin2 r Hr) as E2.
    fold m in E1, E2. rewrite HN in E1. injection E1 as E1.
    rewrite E2. f_equal. rewrite E1.
    rewrite (rsum_ext (fun row => sqmod (cget st2 vectors [row; r]))
               (fun row => c * c * sqmod (cget st vectors [row; r]))%R).
    2:{ intros row' Hin. apply in_seq in Hin. apply Hsq; lia. }
    rewrite (rsum_ext (fun row => sqmod (cget st2 vectors [(m + row)%nat; r]))
               (fun row => c * c * sqmod (cget st vectors [(m + row)%nat; r]))%R).
    2:{ intros row' Hin. apply in_seq in Hin. apply Hsq; lia. }
    rewrite !rsum_scale. ring. }
  rewrite HN, HN2, (Hentry row r Hrow Hr).
  destruct (entry_finite vectors nocc st o n nroots d occupied_le vectors_shape
              Hbuf Hlen Hfin row r Hrow Hr) as [t ->].
  unfold osqrt, odiv. cbn [fmap option_fmap option_map mbind option_bind].
  assert (Hs : (0 < sqrt N)%R) by (apply sqrt_lt_R0, Hpos).
  assert (Hs2 : sqrt (c * c * N) = (c * sqrt N)%R).
  { rewrite sqrt_mult_alt by nra. rewrite sqrt_square by lra. reflexivity. }
  destruct (Rlt_dec N 0) as [Hneg|_]; [lra|].
  destruct (Rlt_dec (c * c * N) 0) as [Hneg|_]; [nra|].
  cbn [mbind option_bind]. rewrite Hs2.
  destruct (Req_dec_T (sqrt N) 0) as [Hz|_]; [lra|].
  destruct (Req_dec_T (c * sqrt N) 0) as [Hz|_]; [nra|].
  rewrite Hdiv by exact Hs. reflexivity.
Qed.

End Scale.

Section ScaleExamples.

(** X21 on the one-root matrix with x = 3/4 and y = 1/4. *)
Lemma vector_to_amplitudes_on_normalised_witness :
  exists out st',
    vector_to_amplitudes (H := float64) (mk_carray 0 [2; 1]) [1] [2]
                         {[ 0 := [Some (3 / 4)%R; Some (1 / 4)%R] ]}
    = (Ok out, st') /\
    cget st' (mk_carray 0 [2; 1]) [0; 0] = Some (3 / 4)%R.
Proof.
  destruct (@vector_to_amplitudes_on_normalised float64 (mk_carray 0 [2; 1]) [1] [2]
              1 2 1 (homogeneous_singleton 1) (homogeneous_singleton 2)
              eq_refl eq_refl ltac:(lia) eq_refl
              {[ 0 := [Some (3 / 4)%R; Some (1 / 4)%R] ]}
              [Some (3 / 4)%R; Some (1 / 4)%R])
    as (st' & Hrun & Hsame).
  - reflexivity.
  - reflexivity.
  - intros x. simpl. field.
  - intros r Hr. assert (r = 0) as -> by (cbn in Hr; lia).
    change (length [1] * length [1] * 1 * (2 - 1)) with 1.
    rewrite column_norm_2x1. f_equal. field.
  - eexists. exists st'. split; [exact Hrun|].
    apply (Hsame 0 0); cbn; lia.
Defined.

(** X22 on the one-root matrices [(3, 1)] and [(6, 2)]. *)
Lemma vector_to_amplitudes_scale_invariant_witness :
  exists out st' st2',
    vector_to_amplitudes (H := float64) (mk_carray 0 [2; 1]) [1] [2]
                         {[ 0 := [Some 3%R; Some 1%R] ]}
    = (Ok out, st') /\
    vector_to_amplitudes (H := float64) (mk_carray 0 [2; 1]) [1] [2]
                         {[ 0 := [Some (2 * 3)%R; Some (2 * 1)%R] ]}
    = (Ok out, st2') /\
    vget st2' out [0; 0; 0; 0; 0; 0] = vget st' out [0; 0; 0; 0; 0; 0].
Proof.
  destruct (@vector_to_amplitudes_scale_invariant float64 (mk_carray 0 [2; 1]) [1] [2]
              1 2 1 (homogeneous_singleton 1) (homogeneous_singleton 2)
              eq_refl eq_refl ltac:(lia) eq_refl
              {[ 0 := [Some 3%R; Some 1%R] ]}
              {[ 0 := [Some (2 * 3)%R; Some (2 * 1)%R] ]}
              [Some 3%R; Some 1%R] (fun x => (2 * x)%R) 2%R)
    as (st' & st2' & Hrun & Hrun2 & Hsame).
  - reflexivity.
  - reflexivity.
  - reflexivity.
  - repeat constructor; eexists; reflexivity.
  - lra.
  - intros x. simpl. rewrite Rabs_mult, (Rabs_pos_eq 2) by lra. reflexivity.
  - intros x s Hs. simpl. field. lra.
  - eexists. exists st', st2'. split; [exact Hrun|]. split; [exact Hrun2|].
    apply (Hsame 0 (2 * (3 * 3 - 1 * 1))%R); try (cbn; lia).
    + change (length [1] * length [1] * 1 * (2 - 1)) with 1. apply column_norm_2x1.
    + lra.
Defined.

End ScaleExamples.
